(** * Directory Analyzer: a shallow embedding of [da.cpp] and of its
    multithreaded variant, with the properties of the written specification.

    The repository holds two near-duplicate programs: the sequential
    [da.cpp] (module [Da] below) and a multithreaded variant, whose
    source follows the text of the README (module [Threaded] below).
    Both walk a directory tree, classify every regular file by its
    extension and accumulate per-type and scalar counters.

    Conventions of the embedding:
    - [size_t] is a 64-bit unsigned integer, modelled as [Z] with the
      wrap-around written out ([wrap]);
    - [std::string] is [string]; [std::unordered_map<std::string, ...>] is
      [gmap string ...]; [std::set<std::string>] is [gset string];
    - the file system is an oracle: a directory listing is the list of
      entries in the order [fs::directory_iterator] yields them, and
      [fs::equivalent] is a parameter;
    - exceptions are results: a function that may throw returns a sum,
      the state of the analyzer being threaded through the calls;
    - the threads of the multithreaded program are interleavings of the
      operations that its atomics and mutexes make indivisible: a call
      is a small program over these operations ([Threaded.prog]), with
      a step relation for all schedules and a function for the schedule
      of one thread;
    - [std::tolower] is taken in the C locale (the programs never call
      [setlocale]);
    - [std::filesystem::path] is taken in its POSIX generic format, the
      preferred separator being ['/']. *)

From Stdlib Require Import ZArith String Ascii List Lia Bool Permutation.
From stdpp Require Import base tactics option list gmap sets strings fin_maps.

Local Open Scope string_scope.
Local Open Scope Z_scope.
Local Open Scope list_scope.
Local Set Warnings "-register-all".

(* ===================================================================== *)
(** * Machine integers *)
(* ===================================================================== *)

Definition size_bits : Z := 64.
Definition SIZE_MOD : Z := 2 ^ size_bits.

(** [std::numeric_limits<size_t>::max()] *)
Definition SIZE_MAX : Z := SIZE_MOD - 1.

(** Unsigned arithmetic wraps modulo [2^64]. *)
Definition wrap (z : Z) : Z := z mod SIZE_MOD.

(** A value representable in a [size_t]. *)
Definition in_range (z : Z) : Prop := 0 <= z <= SIZE_MAX.

(* ===================================================================== *)
(** * Characters and strings *)
(* ===================================================================== *)

Definition ch_dot : ascii := "."%char.
Definition ch_slash : ascii := "/"%char.
Definition ch_comma : ascii := ","%char.
Definition ch_quote : ascii := "034"%char.
Definition ch_lf : ascii := "010"%char.
Definition ch_cr : ascii := "013"%char.

(** [std::tolower] in the "C" locale: only ['A'..'Z'] are mapped. *)
Definition tolower (c : ascii) : ascii :=
  let n := N_of_ascii c in
  if ((65 <=? n) && (n <=? 90))%N then ascii_of_N (n + 32) else c.

Fixpoint string_map (f : ascii -> ascii) (s : string) : string :=
  match s with
  | EmptyString => EmptyString
  | String c r => String (f c) (string_map f r)
  end.

(** [str.find(c) != npos] *)
Fixpoint contains (c : ascii) (s : string) : bool :=
  match s with
  | EmptyString => false
  | String d r => Ascii.eqb d c || contains c r
  end.

(** [s[0] == c]; on the empty string [s[0]] is the terminating NUL. *)
Definition starts_with_char (c : ascii) (s : string) : bool :=
  match s with
  | EmptyString => Ascii.eqb "000"%char c
  | String d _ => Ascii.eqb d c
  end.

(** [s.find(p) == 0] *)
Definition has_prefix (p s : string) : bool := String.prefix p s.

(** [s.back()], when there is one. *)
Fixpoint last_char (s : string) : option ascii :=
  match s with
  | EmptyString => None
  | String c EmptyString => Some c
  | String _ r => last_char r
  end.

(* ===================================================================== *)
(** * [std::filesystem::path], generic POSIX format *)
(* ===================================================================== *)

Module Path.

(** [path::filename()]: what follows the last separator. *)
Fixpoint filename (p : string) : string :=
  match p with
  | EmptyString => EmptyString
  | String c r =>
      if contains ch_slash r then filename r
      else if Ascii.eqb c ch_slash then r else String c r
  end.

(** The suffix that starts at the rightmost period, if there is one. *)
Fixpoint last_dot_suffix (s : string) : option string :=
  match s with
  | EmptyString => None
  | String c r =>
      match last_dot_suffix r with
      | Some e => Some e
      | None => if Ascii.eqb c ch_dot then Some (String c r) else None
      end
  end.

(** [path::extension()]: empty for the special names [.] and [..]; a
    period in first position does not start an extension; otherwise the
    suffix of the file name from its rightmost period. *)
Definition extension (p : string) : string :=
  let f := filename p in
  if String.eqb f "." || String.eqb f ".." then EmptyString
  else match f with
       | EmptyString => EmptyString
       | String _ r => default EmptyString (last_dot_suffix r)
       end.

(** The path up to and including its last separator. *)
Fixpoint directory_part (p : string) : string :=
  match p with
  | EmptyString => EmptyString
  | String c r =>
      if contains ch_slash r then String c (directory_part r)
      else if Ascii.eqb c ch_slash then "/" else EmptyString
  end.

(** The path without the separators at its end. *)
Fixpoint without_trailing_separators (p : string) : string :=
  match p with
  | EmptyString => EmptyString
  | String c r =>
      match without_trailing_separators r with
      | EmptyString =>
          if Ascii.eqb c ch_slash then EmptyString
          else String c EmptyString
      | r' => String c r'
      end
  end.

(** [path::parent_path()]: the path without its last component and
    without the separator before it; the root directory is its own
    parent, and a path of one component has the empty parent. *)
Definition parent_path (p : string) : string :=
  let d := directory_part p in
  match without_trailing_separators d with
  | EmptyString => if String.eqb d EmptyString then EmptyString else "/"
  | d' => d'
  end.

(** [dir / name] for a relative [name]. *)
Definition append (dir name : string) : string :=
  match last_char dir with
  | None => name
  | Some c => if Ascii.eqb c ch_slash then dir +:+ name
              else dir +:+ "/" +:+ name
  end.

End Path.

(* ===================================================================== *)
(** * The file system as the traversal sees it *)
(* ===================================================================== *)

(** One directory entry, as the status queries of the programs tell them
    apart.  [ident] is the identity of the directory on disk (what
    canonicalisation would give): a symbolic link to a directory is an
    [EDir] with the identity and the children of its target.  Sizes are
    what [fs::file_size] returns, between [0] and [SIZE_MAX].  Below a
    [.git] directory, which is walked by a
    [fs::recursive_directory_iterator], the children of an [EDir] are the
    entries the iterator descends into. *)
Inductive entry : Type :=
| EFile (name : string) (size : option Z)
    (** regular file; [None] when [fs::file_size] reports an error *)
| EDir (name : string) (ident : nat) (children : list entry)
    (** [is_directory()] holds *)
| EOther (name : string)
    (** neither a directory nor a regular file *)
| EThrow (name : string).
    (** the status query throws [fs::filesystem_error] *)

Definition entry_name (e : entry) : string :=
  match e with
  | EFile n _ | EDir n _ _ | EOther n | EThrow n => n
  end.

(** [struct SizeThreshold] *)
Record SizeThreshold : Type := mkThreshold {
  minSize : Z;
  maxSize : Z
}.

Definition defaultThreshold : SizeThreshold :=
  {| minSize := 0; maxSize := SIZE_MAX |}.

Definition isValid (t : SizeThreshold) : bool := minSize t <=? maxSize t.

(** Per-type statistics, [struct FileTypeStats]: the two counters.  Each
    program has its own [update]. *)
Module FileTypeStats.
Record t : Type := mk {
  count : Z;
  totalSize : Z
}.
Definition zero : t := {| count := 0; totalSize := 0 |}.
End FileTypeStats.

Definition NO_EXTENSION : string := "[no extension]".
Definition DOTFILE : string := "[dotfile]".
Definition INVALID : string := "[invalid]".
Definition GIT : string := ".git".

(** [FileAnalyzer::getFileType], identical in both programs up to the name
    of the lower-casing helper ([safeToLower] / [toLower]). *)
Definition safeToLower (input : string) : string := string_map tolower input.

Definition getFileType (path : string) : string :=
  if String.eqb path EmptyString then INVALID
  else
    let filename := Path.filename path in
    if String.eqb filename EmptyString then INVALID
    else
      let ext := safeToLower (Path.extension path) in
      if starts_with_char ch_dot filename then
        if String.eqb filename ext then DOTFILE
        else if negb (String.eqb ext EmptyString) then ext else DOTFILE
      else if String.eqb ext EmptyString then NO_EXTENSION else ext.

(** [FileAnalyzer::addIncludeType], identical in both programs. *)
Definition addIncludeType (type : string) (includeTypes : gset string)
  : gset string :=
  {[ if String.eqb type EmptyString then NO_EXTENSION else type ]}
    ∪ includeTypes.

(** The forwarding loop of [main]: every [-t] argument goes through the
    same test once more before [addIncludeType]. *)
Definition main_includeTypes (args : list string) : gset string :=
  fold_left
    (fun acc type =>
       addIncludeType
         (if String.eqb type EmptyString then NO_EXTENSION else type) acc)
    args ∅.

(** Exceptions the programs throw. *)
Inductive exn : Type :=
| overflow_error (what : string)
| runtime_error (what : string)
| filesystem_error.

(** A loop over a listing whose body may throw. *)
Definition foldM {S : Type} (body : entry -> S -> exn + S)
  : list entry -> S -> exn + S :=
  fix go (es : list entry) (s : S) : exn + S :=
    match es with
    | [] => inr s
    | e :: rest =>
        match body e s with
        | inl x => inl x
        | inr s' => go rest s'
        end
    end.

(* ===================================================================== *)
(** * The sequential program, [da.cpp] *)
(* ===================================================================== *)

Module Da.

(** [FileTypeStats::update], "with safe arithmetic".  The object is
    returned as the call leaves it, together with the exception thrown,
    if any: the count is already incremented when the size check
    throws. *)
Definition update (st : FileTypeStats.t) (size : Z)
  : FileTypeStats.t * option exn :=
  if FileTypeStats.count st =? SIZE_MAX then
    (st, Some (overflow_error "File count overflow"))
  else
    let st1 := {| FileTypeStats.count := wrap (FileTypeStats.count st + 1);
                  FileTypeStats.totalSize := FileTypeStats.totalSize st |} in
    if FileTypeStats.totalSize st1 >? wrap (SIZE_MAX - size) then
      (st1, Some (overflow_error "Total size overflow"))
    else
      ({| FileTypeStats.count := FileTypeStats.count st1;
          FileTypeStats.totalSize :=
            wrap (FileTypeStats.totalSize st1 + size) |}, None).

(** The settings of a [FileAnalyzer]. *)
Record Config : Type := mkConfig {
  excludeDirs : list string;
  includeTypes : gset string;
  showHidden : bool;
  sizeThreshold : SizeThreshold
}.

(** The counters of a [FileAnalyzer]. *)
Record State : Type := mkState {
  stats : gmap string FileTypeStats.t;
  totalFiles : Z;
  totalSize : Z;
  hiddenFiles : Z;
  hiddenSize : Z
}.

(** A freshly constructed analyzer. *)
Definition init : State :=
  {| stats := ∅; totalFiles := 0; totalSize := 0;
     hiddenFiles := 0; hiddenSize := 0 |}.

(** [setSizeThreshold] *)
Definition setSizeThreshold (threshold : SizeThreshold) (c : Config)
  : exn + Config :=
  if negb (isValid threshold) then
    inl (runtime_error
           "Invalid size threshold: min size must be less than or equal to max size")
  else inr {| excludeDirs := excludeDirs c; includeTypes := includeTypes c;
              showHidden := showHidden c; sizeThreshold := threshold |}.

(** [static escapeCSV]: [std::replace] is called with the quote
    character as both the old and the new value. *)
Definition escapeCSV (str : string) : string :=
  if contains ch_comma str || contains ch_quote str || contains ch_lf str
  then
    let escaped :=
      string_map (fun c => if Ascii.eqb c ch_quote then ch_quote else c) str
    in String ch_quote (escaped +:+ String ch_quote EmptyString)
  else str.

(** [calculateDirectorySize]: [fs::recursive_directory_iterator] over the
    whole subtree; [entry.file_size()] and the status queries throw on
    error. *)
Fixpoint sizeOfEntry (e : entry) (size : Z) : exn + Z :=
  match e with
  | EFile _ (Some sz) => inr (wrap (size + sz))
  | EFile _ None => inl filesystem_error
  | EDir _ _ children => foldM sizeOfEntry children size
  | EOther _ => inr size
  | EThrow _ => inl filesystem_error
  end.

Definition calculateDirectorySize (listing : list entry) : exn + Z :=
  foldM sizeOfEntry listing 0.

(** The range-for loop of [analyze].  [ec] is the [std::error_code] of
    the function: it is tested at the top of every iteration, and a
    failed [fs::file_size] leaves it set when the body continues. *)
Definition loop (body : entry -> State -> exn + (State * bool))
  : list entry -> bool -> State -> exn + State :=
  fix go (es : list entry) (ec : bool) (s : State) : exn + State :=
    match es with
    | [] => inr s
    | e :: rest =>
        if ec then go rest false s
        else match body e s with
             | inl x => inl x
             | inr (s', ec') => go rest ec' s'
             end
    end.

Section WithFileSystem.

(** [fs::equivalent], [None] when it throws. *)
Variable fs_equivalent : string -> string -> option bool.
Variable cfg : Config.

(** The [try] block of [shouldExclude]; [None] when [fs::equivalent]
    throws. *)
Fixpoint shouldExclude_try (path : string) (dirs : list string)
  : option bool :=
  match dirs with
  | [] => Some false
  | dir :: rest =>
      match fs_equivalent path dir with
      | None => None
      | Some true => Some true
      | Some false =>
          match fs_equivalent (Path.parent_path path) dir with
          | None => None
          | Some true => Some true
          | Some false =>
              if has_prefix (dir +:+ "/") path then Some true
              else shouldExclude_try path rest
          end
      end
  end.

Definition shouldExclude (path : string) : bool :=
  match shouldExclude_try path (excludeDirs cfg) with
  | Some b => b
  | None =>
      existsb (fun dir => has_prefix (dir +:+ "/") path) (excludeDirs cfg)
  end.

Definition shouldInclude (fileType : string) : bool :=
  if decide (includeTypes cfg = ∅) then true
  else bool_decide (fileType ∈ includeTypes cfg).

Definition isWithinSizeThreshold (size : Z) : bool :=
  (minSize (sizeThreshold cfg) <=? size)
  && (size <=? maxSize (sizeThreshold cfg)).

(** [stats[key].update(size)]: [operator[]] creates the entry. *)
Definition updateStats (key : string) (size : Z) (s : State)
  : State * option exn :=
  let '(st, err) :=
    update (default FileTypeStats.zero (stats s !! key)) size in
  ({| stats := <[key := st]> (stats s); totalFiles := totalFiles s;
      totalSize := totalSize s; hiddenFiles := hiddenFiles s;
      hiddenSize := hiddenSize s |}, err).

(** [totalFiles++] *)
Definition incTotalFiles (s : State) : State :=
  {| stats := stats s; totalFiles := wrap (totalFiles s + 1);
     totalSize := totalSize s; hiddenFiles := hiddenFiles s;
     hiddenSize := hiddenSize s |}.

(** [totalSize += size] *)
Definition addTotalSize (size : Z) (s : State) : State :=
  {| stats := stats s; totalFiles := totalFiles s;
     totalSize := wrap (totalSize s + size);
     hiddenFiles := hiddenFiles s; hiddenSize := hiddenSize s |}.

(** [hiddenFiles++; hiddenSize += size] *)
Definition addHidden (size : Z) (s : State) : State :=
  {| stats := stats s; totalFiles := totalFiles s;
     totalSize := totalSize s;
     hiddenFiles := wrap (hiddenFiles s + 1);
     hiddenSize := wrap (hiddenSize s + size) |}.

(** The branch of the loop body for a regular file at [path]. *)
Definition analyzeFile (path : string) (size : option Z) (s : State)
  : State * bool :=
  match size with
  | None => (s, true)
  | Some size =>
      if negb (isWithinSizeThreshold size) then (s, false)
      else
        let fileType := getFileType path in
        if negb (shouldInclude fileType) then (s, false)
        else if starts_with_char ch_dot (Path.filename path)
                && negb (showHidden cfg)
        then (addTotalSize size (addHidden size s), false)
        else
          match updateStats fileType size s with
          | (s1, Some _) => (s1, false)
          | (s1, None) => (addTotalSize size (incTotalFiles s1), false)
          end
  end.

(** The branch of the loop body for a directory named [.git]. *)
Definition analyzeGit (children : list entry) (s : State) : exn + State :=
  match calculateDirectorySize children with
  | inl x => inl x
  | inr gitSize =>
      if showHidden cfg then
        match updateStats GIT gitSize s with
        | (_, Some x) => inl x
        | (s1, None) => inr (addTotalSize gitSize (incTotalFiles s1))
        end
      else inr (addTotalSize gitSize (addHidden gitSize s))
  end.

(** The body of the loop of [analyze] for one entry of the directory
    [dir]; the result carries the state of [ec]. *)
Fixpoint analyzeEntry (dir : string) (e : entry) (s : State)
  : exn + (State * bool) :=
  let path := Path.append dir (entry_name e) in
  if shouldExclude path then inr (s, false)
  else
    match e with
    | EThrow _ => inl filesystem_error
    | EDir _ _ children =>
        if String.eqb (Path.filename path) GIT then
          match analyzeGit children s with
          | inl x => inl x
          | inr s' => inr (s', false)
          end
        else
          match loop (analyzeEntry path) children false s with
          | inl x => inl x
          | inr s' => inr (s', false)
          end
    | EFile _ size => inr (analyzeFile path size s)
    | EOther _ => inr (s, false)
    end.

(** [analyze(path)], [listing] being what the directory holds. *)
Definition analyze (path : string) (listing : list entry) (s : State)
  : exn + State :=
  loop (analyzeEntry path) listing false s.

End WithFileSystem.

End Da.

(* ===================================================================== *)
(** * The multithreaded program *)
(* ===================================================================== *)

Module Threaded.

(** [FileTypeStats::update] on the two [std::atomic<size_t>] counters. *)
Definition update (st : FileTypeStats.t) (size : Z) : FileTypeStats.t :=
  {| FileTypeStats.count := wrap (FileTypeStats.count st + 1);
     FileTypeStats.totalSize := wrap (FileTypeStats.totalSize st + size) |}.

Definition toLower (input : string) : string := string_map tolower input.

(** [static getFileType] of this program: the dotfile test repeats the
    emptiness test. *)
Definition getFileType (path : string) : string :=
  if String.eqb path EmptyString then INVALID
  else
    let filename := Path.filename path in
    if String.eqb filename EmptyString then INVALID
    else
      let ext := toLower (Path.extension path) in
      if negb (String.eqb filename EmptyString)
         && starts_with_char ch_dot filename then
        if String.eqb filename ext then DOTFILE
        else if negb (String.eqb ext EmptyString) then ext else DOTFILE
      else if String.eqb ext EmptyString then NO_EXTENSION else ext.

(** [static escapeCSV]: the [while] loop replaces every quote by two. *)
Fixpoint double_quotes (s : string) : string :=
  match s with
  | EmptyString => EmptyString
  | String c r =>
      if Ascii.eqb c ch_quote
      then String ch_quote (String ch_quote (double_quotes r))
      else String c (double_quotes r)
  end.

Definition escapeCSV (str : string) : string :=
  if contains ch_comma str || contains ch_quote str
     || contains ch_lf str || contains ch_cr str
  then String ch_quote (double_quotes str +:+ String ch_quote EmptyString)
  else str.

Record Config : Type := mkConfig {
  excludeDirs : list string;
  includeTypes : gset string;
  showHidden : bool;
  sizeThreshold : SizeThreshold;
  numThreads : Z
}.

(** [setThreadCount] *)
Definition setThreadCount (threads : Z) (c : Config) : Config :=
  {| excludeDirs := excludeDirs c; includeTypes := includeTypes c;
     showHidden := showHidden c; sizeThreshold := sizeThreshold c;
     numThreads := if threads >? 0 then threads else 1 |}.

(** The counters of a [FileAnalyzer] and its set of processed
    directories. *)
Record State : Type := mkState {
  stats : gmap string FileTypeStats.t;
  totalFiles : Z;
  totalSize : Z;
  hiddenFiles : Z;
  hiddenSize : Z;
  processedDirs : gset string
}.

Definition init : State :=
  {| stats := ∅; totalFiles := 0; totalSize := 0; hiddenFiles := 0;
     hiddenSize := 0; processedDirs := ∅ |}.

(** The first statements of [analyze]: "Clear previous analysis data". *)
Definition reset (s : State) : State :=
  {| stats := ∅; totalFiles := 0; totalSize := 0; hiddenFiles := 0;
     hiddenSize := 0; processedDirs := ∅ |}.

(** The operations on the shared analyzer that one thread performs
    without interference: an operation on one atomic counter, or a
    region guarded by a mutex. *)
Inductive action : Type :=
| AddTotalSize (size : Z)          (** [totalSize += size] *)
| IncHiddenFiles                   (** [hiddenFiles++] *)
| AddHiddenSize (size : Z)         (** [hiddenSize += size] *)
| UpdateStats (key : string) (size : Z).
    (** under [statsMutex]: [stats[key].update(size); totalFiles++] *)

Definition apply (a : action) (s : State) : State :=
  match a with
  | AddTotalSize size =>
      {| stats := stats s; totalFiles := totalFiles s;
         totalSize := wrap (totalSize s + size);
         hiddenFiles := hiddenFiles s; hiddenSize := hiddenSize s;
         processedDirs := processedDirs s |}
  | IncHiddenFiles =>
      {| stats := stats s; totalFiles := totalFiles s;
         totalSize := totalSize s;
         hiddenFiles := wrap (hiddenFiles s + 1);
         hiddenSize := hiddenSize s; processedDirs := processedDirs s |}
  | AddHiddenSize size =>
      {| stats := stats s; totalFiles := totalFiles s;
         totalSize := totalSize s; hiddenFiles := hiddenFiles s;
         hiddenSize := wrap (hiddenSize s + size);
         processedDirs := processedDirs s |}
  | UpdateStats key size =>
      {| stats :=
           <[key := update (default FileTypeStats.zero (stats s !! key)) size]>
             (stats s);
         totalFiles := wrap (totalFiles s + 1);
         totalSize := totalSize s; hiddenFiles := hiddenFiles s;
         hiddenSize := hiddenSize s; processedDirs := processedDirs s |}
  end.

(** [processedDirs.insert(dirPathStr)] *)
Definition claim (path : string) (s : State) : State :=
  {| stats := stats s; totalFiles := totalFiles s;
     totalSize := totalSize s; hiddenFiles := hiddenFiles s;
     hiddenSize := hiddenSize s;
     processedDirs := {[ path ]} ∪ processedDirs s |}.

(** What an execution records: an operation, or the successful claim of
    a directory, with its path and the identity of the directory. *)
Inductive event : Type :=
| Did (a : action)
| Claimed (path : string) (ident : nat).

Definition effect (ev : event) (s : State) : State :=
  match ev with
  | Did a => apply a s
  | Claimed path _ => claim path s
  end.

(** What a call does to the shared analyzer: sequences of such
    operations, tasks started with [std::async] and awaited together,
    and the test on [processedDirs] that guards a directory. *)
Inductive prog : Type :=
| Skip
| Do (a : action)
| Seq (p q : prog)
| Par (p q : prog)
| Claim (path : string) (ident : nat) (body : prog).

Definition seq_all (ps : list prog) : prog := fold_right Seq Skip ps.
Definition par_all (ps : list prog) : prog := fold_right Par Skip ps.

(** One step of one thread, labelled with what it records.  The test on
    [processedDirs] and the insertion are one step: they are made under
    [processedDirsMutex]. *)
Inductive step : State -> prog -> list event -> State -> prog -> Prop :=
| step_do s a :
    step s (Do a) [Did a] (apply a s) Skip
| step_seq s p l s' p' q :
    step s p l s' p' -> step s (Seq p q) l s' (Seq p' q)
| step_seq_done s q :
    step s (Seq Skip q) [] s q
| step_par_l s p l s' p' q :
    step s p l s' p' -> step s (Par p q) l s' (Par p' q)
| step_par_r s p q l s' q' :
    step s q l s' q' -> step s (Par p q) l s' (Par p q')
| step_par_done s :
    step s (Par Skip Skip) [] s Skip
| step_claim_hit s path ident body :
    path ∈ processedDirs s ->
    step s (Claim path ident body) [] s Skip
| step_claim_new s path ident body :
    path ∉ processedDirs s ->
    step s (Claim path ident body) [Claimed path ident]
      (claim path s) body.

(** Executions, with the operations in the order they took place. *)
Inductive steps : State -> prog -> list event -> State -> prog -> Prop :=
| steps_refl s p : steps s p [] s p
| steps_step s p l s1 p1 tr s2 p2 :
    step s p l s1 p1 -> steps s1 p1 tr s2 p2 ->
    steps s p (l ++ tr) s2 p2.

(** The schedule in which every task runs to completion as soon as it is
    started: the only one when nothing is started asynchronously. *)
Fixpoint run (p : prog) (s : State) : State * list event :=
  match p with
  | Skip => (s, [])
  | Do a => (apply a s, [Did a])
  | Seq p q | Par p q =>
      let '(s1, t1) := run p s in
      let '(s2, t2) := run q s1 in
      (s2, t1 ++ t2)
  | Claim path ident body =>
      if decide (path ∈ processedDirs s) then (s, [])
      else
        let '(s1, t1) := run body (claim path s) in
        (s1, Claimed path ident :: t1)
  end.

(** The directory loop up to the entry whose status query throws: the
    [catch] of [processDirectory] ends the listing there. *)
Definition scan {A : Type} (shouldExclude : string -> bool) (dir : string)
    (visit : string -> entry -> list A) : list entry -> list A :=
  fix go (es : list entry) : list A :=
    match es with
    | [] => []
    | e :: rest =>
        let path := Path.append dir (entry_name e) in
        if shouldExclude path then go rest
        else match e with
             | EThrow _ => []
             | _ => visit path e ++ go rest
             end
    end.

(** The inner loop over a [.git] directory: [fs::file_size] with an
    error code returns [static_cast<uintmax_t>(-1)] on failure. *)
Fixpoint gitSizeOfEntry (e : entry) (gitSize : Z) : exn + Z :=
  match e with
  | EFile _ (Some sz) => inr (wrap (gitSize + sz))
  | EFile _ None => inr (wrap (gitSize + SIZE_MAX))
  | EDir _ _ children => foldM gitSizeOfEntry children gitSize
  | EOther _ => inr gitSize
  | EThrow _ => inl filesystem_error
  end.

Section WithFileSystem.

Variable fs_equivalent : string -> string -> option bool.
Variable cfg : Config.

Fixpoint shouldExclude_dirs (path : string) (dirs : list string) : bool :=
  match dirs with
  | [] => false
  | dir :: rest =>
      if String.eqb path dir || has_prefix (dir +:+ "/") path then true
      else
        match fs_equivalent path dir with
        | None => shouldExclude_dirs path rest
        | Some true => true
        | Some false =>
            match fs_equivalent (Path.parent_path path) dir with
            | Some true => true
            | _ => shouldExclude_dirs path rest
            end
        end
  end.

Definition shouldExclude (path : string) : bool :=
  shouldExclude_dirs path (excludeDirs cfg).

Definition shouldInclude (fileType : string) : bool :=
  if decide (includeTypes cfg = ∅) then true
  else bool_decide (fileType ∈ includeTypes cfg).

Definition isWithinSizeThreshold (size : Z) : bool :=
  (minSize (sizeThreshold cfg) <=? size)
  && (size <=? maxSize (sizeThreshold cfg)).

(** [processFile(filePath)], [size] being the answer of
    [fs::file_size]. *)
Definition processFile (filePath : string) (size : option Z) : prog :=
  match size with
  | None => Skip
  | Some size =>
      if negb (isWithinSizeThreshold size) then Skip
      else
        let fileType := getFileType filePath in
        if negb (shouldInclude fileType) then Skip
        else
          Seq (Do (AddTotalSize size))
            (if starts_with_char ch_dot (Path.filename filePath)
                && negb (showHidden cfg)
             then Seq (Do IncHiddenFiles) (Do (AddHiddenSize size))
             else Do (UpdateStats fileType size))
  end.

(** The [.git] branch of the directory loop. *)
Definition processGit (children : list entry) : list prog :=
  match foldM gitSizeOfEntry children 0 with
  | inl _ => []
  | inr gitSize =>
      [ Do (AddTotalSize gitSize);
        if showHidden cfg then Do (UpdateStats GIT gitSize)
        else Seq (Do IncHiddenFiles) (Do (AddHiddenSize gitSize)) ]
  end.

Definition visitGit (path : string) (e : entry) : list prog :=
  match e with
  | EDir _ _ children =>
      if String.eqb (Path.filename path) GIT then processGit children
      else []
  | _ => []
  end.

Definition visitFile (path : string) (e : entry) : list prog :=
  match e with
  | EFile _ size => [processFile path size]
  | _ => []
  end.

(** [processDirectory(dirPath)]: the claim on [processedDirs], the
    listing (with the [.git] branch inline), the files collected, and
    the subdirectories collected, started asynchronously when more
    than one thread is configured and there is more than one of
    them.  [subDirs] holds the calls for the subdirectories
    collected. *)
Definition directoryTask (dirPath : string) (ident : nat)
    (listing : list entry) (subDirs : list prog) : prog :=
  Claim dirPath ident
    (Seq (seq_all (scan shouldExclude dirPath visitGit listing))
       (Seq (seq_all (scan shouldExclude dirPath visitFile listing))
          (if (numThreads cfg >? 1) && (Z.of_nat (length subDirs) >? 1)
           then par_all subDirs else seq_all subDirs))).

(** The call for an entry pushed on [subDirs]. *)
Fixpoint visitSubDir (path : string) (e : entry) {struct e} : list prog :=
  match e with
  | EDir _ ident children =>
      if String.eqb (Path.filename path) GIT then []
      else [directoryTask path ident children
              (scan shouldExclude path visitSubDir children)]
  | _ => []
  end.

Definition processDirectory (dirPath : string) (ident : nat)
    (listing : list entry) : prog :=
  directoryTask dirPath ident listing
    (scan shouldExclude dirPath visitSubDir listing).

(** [analyze(path)]: the executions of the call from a given state of
    the analyzer, and the one that runs every task at once. *)
Definition analyze_runs (path : string) (ident : nat)
    (listing : list entry) (s : State) (tr : list event) (s' : State)
  : Prop :=
  steps (reset s) (processDirectory path ident listing) tr s' Skip.

Definition analyze (path : string) (ident : nat) (listing : list entry)
    (s : State) : State * list event :=
  run (processDirectory path ident listing) (reset s).

End WithFileSystem.

End Threaded.

(* ===================================================================== *)
(** * Reading a CSV field back *)
(* ===================================================================== *)

(** The reader against which the CSV output is judged, for the dialect
    the programs write (RFC 4180 with rows ended by a line feed): a field
    that opens with a quote runs to the first quote that is not doubled,
    a doubled quote standing for one; any other field runs to the next
    comma or line feed and holds neither a quote nor a carriage return
    (the text data of RFC 4180 has neither: a field that holds one
    outside quotes is rejected).  The result is the field and what
    follows it. *)
Fixpoint read_quoted (s : string) : option (string * string) :=
  match s with
  | EmptyString => None
  | String c r =>
      if Ascii.eqb c ch_quote then
        match r with
        | String c' r' =>
            if Ascii.eqb c' ch_quote then
              match read_quoted r' with
              | Some (f, rest) => Some (String ch_quote f, rest)
              | None => None
              end
            else Some (EmptyString, r)
        | EmptyString => Some (EmptyString, EmptyString)
        end
      else
        match read_quoted r with
        | Some (f, rest) => Some (String c f, rest)
        | None => None
        end
  end.

Fixpoint read_plain (s : string) : option (string * string) :=
  match s with
  | EmptyString => Some (EmptyString, EmptyString)
  | String c r =>
      if Ascii.eqb c ch_comma || Ascii.eqb c ch_lf
      then Some (EmptyString, s)
      else if Ascii.eqb c ch_quote || Ascii.eqb c ch_cr then None
      else match read_plain r with
           | Some (f, rest) => Some (String c f, rest)
           | None => None
           end
  end.

(** What may follow a field: the end of the file, a comma or a line
    feed. *)
Definition at_delimiter (s : string) : bool :=
  match s with
  | EmptyString => true
  | String c _ => Ascii.eqb c ch_comma || Ascii.eqb c ch_lf
  end.

Definition read_field (s : string) : option (string * string) :=
  match s with
  | EmptyString => Some (EmptyString, EmptyString)
  | String c r =>
      if Ascii.eqb c ch_quote then
        match read_quoted r with
        | Some (f, rest) => if at_delimiter rest then Some (f, rest) else None
        | None => None
        end
      else read_plain s
  end.

(* ===================================================================== *)
(** * Measures of the closed accounting *)
(* ===================================================================== *)

(** The sum, over all type keys, of the per-type totals, as an integer. *)
Definition sum_sizes (m : gmap string FileTypeStats.t) : Z :=
  map_fold (fun _ st acc => FileTypeStats.totalSize st + acc) 0 m.

(** Closed accounting of [da.cpp] in the arithmetic of the counters. *)
Definition Da_accounted (s : Da.State) : Prop :=
  wrap (sum_sizes (Da.stats s) + Da.hiddenSize s) = wrap (Da.totalSize s)
  /\ in_range (Da.totalSize s).

(** What an operation of the multithreaded program adds to [totalSize]
    beyond what it adds to [hiddenSize] and to the per-type totals. *)
Definition bal (a : Threaded.action) : Z :=
  match a with
  | Threaded.AddTotalSize z => z
  | Threaded.AddHiddenSize z => - z
  | Threaded.UpdateStats _ z => - z
  | _ => 0
  end.

(** The same for everything a call has still to do. *)
Fixpoint pending (p : Threaded.prog) : Z :=
  match p with
  | Threaded.Skip => 0
  | Threaded.Do a => bal a
  | Threaded.Seq p q | Threaded.Par p q => pending p + pending q
  | Threaded.Claim _ _ body => pending body
  end.

Definition pending_list (ps : list Threaded.prog) : Z :=
  fold_right (fun p acc => pending p + acc) 0 ps.

(** Every guarded directory adds as much to [totalSize] as to the other
    totals, so that skipping it keeps the balance. *)
Fixpoint claims_balanced (p : Threaded.prog) : Prop :=
  match p with
  | Threaded.Claim _ _ body => pending body = 0 /\ claims_balanced body
  | Threaded.Seq p q | Threaded.Par p q =>
      claims_balanced p /\ claims_balanced q
  | _ => True
  end.

Definition imbalance (s : Threaded.State) : Z :=
  Threaded.totalSize s - Threaded.hiddenSize s
  - sum_sizes (Threaded.stats s).

(** Closed accounting of the multithreaded program in the arithmetic of
    the counters. *)
Definition Threaded_accounted (s : Threaded.State) : Prop :=
  wrap (sum_sizes (Threaded.stats s) + Threaded.hiddenSize s)
  = wrap (Threaded.totalSize s)
  /\ in_range (Threaded.totalSize s).

(* ===================================================================== *)
(** * Observations on executions of the multithreaded program *)
(* ===================================================================== *)

(** The paths, and the identities, of the directories whose claim on
    [processedDirs] succeeded, in the order of the claims. *)
Fixpoint claimed_paths (tr : list Threaded.event) : list string :=
  match tr with
  | [] => []
  | Threaded.Claimed path _ :: rest => path :: claimed_paths rest
  | Threaded.Did _ :: rest => claimed_paths rest
  end.

Fixpoint claimed_idents (tr : list Threaded.event) : list nat :=
  match tr with
  | [] => []
  | Threaded.Claimed _ ident :: rest => ident :: claimed_idents rest
  | Threaded.Did _ :: rest => claimed_idents rest
  end.

(** Everything a call records when no claim fails, in program order. *)
Fixpoint acts (p : Threaded.prog) : list Threaded.event :=
  match p with
  | Threaded.Skip => []
  | Threaded.Do a => [Threaded.Did a]
  | Threaded.Seq p q | Threaded.Par p q => acts p ++ acts q
  | Threaded.Claim path ident body => Threaded.Claimed path ident :: acts body
  end.

(** The state after the recorded operations, in their order. *)
Definition effects (tr : list Threaded.event) (s : Threaded.State)
  : Threaded.State :=
  fold_left (fun s ev => Threaded.effect ev s) tr s.

(** The path strings under which [processDirectory] reaches the
    directories of a tree: the root, and every subdirectory that is
    listed before an error, not excluded and not named [.git]. *)
Definition dispatched_paths (fs : string -> string -> option bool)
    (cfg : Threaded.Config) (path : string) (ident : nat)
    (listing : list entry) : list string :=
  claimed_paths (acts (Threaded.processDirectory fs cfg path ident listing)).

(** Nothing is started asynchronously. *)
Fixpoint no_par (p : Threaded.prog) : Prop :=
  match p with
  | Threaded.Par _ _ => False
  | Threaded.Seq p q => no_par p /\ no_par q
  | Threaded.Claim _ _ body => no_par body
  | _ => True
  end.

(** No directory that is still to be claimed is in [processedDirs], and
    no two of them have the same path. *)
Definition claims_fresh (s : Threaded.State) (p : Threaded.prog) : Prop :=
  NoDup (claimed_paths (acts p))
  /\ forall x, x ∈ claimed_paths (acts p) -> x ∉ Threaded.processedDirs s.

(* ===================================================================== *)
(** * Well-formed directory trees *)
(* ===================================================================== *)

(** The name of a directory entry is not empty and holds no separator. *)
Definition plain_name (n : string) : bool :=
  negb (String.eqb n EmptyString) && negb (contains ch_slash n).

(** A tree as a file system lists it: entry names are plain, and no two
    entries of one directory have the same name. *)
Fixpoint well_formed_entry (e : entry) : bool :=
  plain_name (entry_name e)
  && match e with
     | EDir _ _ children =>
         bool_decide (NoDup (map entry_name children))
         && forallb well_formed_entry children
     | _ => true
     end.

Definition well_formed (listing : list entry) : bool :=
  bool_decide (NoDup (map entry_name listing))
  && forallb well_formed_entry listing.

(** What [dir / name] puts before [name]. *)
Definition dir_prefix (dir : string) : string :=
  match last_char dir with
  | None => EmptyString
  | Some c => if Ascii.eqb c ch_slash then dir else dir +:+ "/"
  end.

(** [x] is [c] or lies below it. *)
Definition under (c x : string) : Prop :=
  x = c \/ exists r, x = c +:+ String ch_slash r.

(** The path strings under which the subtree of an entry is reached. *)
Definition subtree_paths (fs : string -> string -> option bool)
    (cfg : Threaded.Config) (path : string) (e : entry) : list string :=
  claimed_paths (flat_map acts (Threaded.visitSubDir fs cfg path e)).

(* ===================================================================== *)
(** * Comparing the two programs *)
(* ===================================================================== *)

(** The settings of the multithreaded analyzer, as settings of the
    sequential one. *)
Definition Da_of_Threaded (c : Threaded.Config) : Da.Config :=
  {| Da.excludeDirs := Threaded.excludeDirs c;
     Da.includeTypes := Threaded.includeTypes c;
     Da.showHidden := Threaded.showHidden c;
     Da.sizeThreshold := Threaded.sizeThreshold c |}.

(** The counters of the multithreaded analyzer, as counters of the
    sequential one. *)
Definition counters (s : Threaded.State) : Da.State :=
  {| Da.stats := Threaded.stats s;
     Da.totalFiles := Threaded.totalFiles s;
     Da.totalSize := Threaded.totalSize s;
     Da.hiddenFiles := Threaded.hiddenFiles s;
     Da.hiddenSize := Threaded.hiddenSize s |}.

(** A tree on which no query fails: every size can be read, and no
    status query throws. *)
Fixpoint clean (e : entry) : bool :=
  match e with
  | EFile _ (Some z) => 0 <=? z
  | EFile _ None => false
  | EDir _ _ children => forallb clean children
  | EOther _ => true
  | EThrow _ => false
  end.

(** One for every file and directory, plus the sizes of the files: a
    bound on every per-type counter that a traversal of the entry can
    reach. *)
Fixpoint weight (e : entry) : Z :=
  match e with
  | EFile _ (Some z) => 1 + z
  | EFile _ None => 1
  | EDir _ _ children => 1 + fold_right Z.add 0 (map weight children)
  | _ => 0
  end.

Definition weights (es : list entry) : Z :=
  fold_right Z.add 0 (map weight es).

(** No per-type counter exceeds [b]. *)
Definition bounded (m : gmap string FileTypeStats.t) (b : Z) : Prop :=
  forall k st, m !! k = Some st ->
    0 <= FileTypeStats.count st /\ 0 <= FileTypeStats.totalSize st
    /\ FileTypeStats.count st + FileTypeStats.totalSize st <= b.

(** What the multithreaded program does for one entry of a listing. *)
Definition entry_events (fs : string -> string -> option bool)
    (cfg : Threaded.Config) (path : string) (e : entry)
  : list Threaded.event :=
  flat_map acts (Threaded.visitGit cfg path e)
  ++ flat_map acts (Threaded.visitFile cfg path e)
  ++ flat_map acts (Threaded.visitSubDir fs cfg path e).

(** What one entry of a listing does to the counters of [da.cpp]. *)
Definition entry_agrees (fs : string -> string -> option bool)
    (cfg : Threaded.Config) (e : entry) : Prop :=
  forall dir (s : Threaded.State) (b : Z),
    clean e = true -> bounded (Threaded.stats s) b -> 0 <= b ->
    b + weight e <= SIZE_MAX ->
    Threaded.shouldExclude fs cfg (Path.append dir (entry_name e)) = false ->
    Da.analyzeEntry fs (Da_of_Threaded cfg) dir e (counters s)
    = inr (counters
             (effects
                (entry_events fs cfg (Path.append dir (entry_name e)) e) s),
           false)
    /\ bounded
         (Threaded.stats
            (effects
               (entry_events fs cfg (Path.append dir (entry_name e)) e) s))
         (b + weight e).

(* ===================================================================== *)
(** * Further predicates and measures on trees *)
(* ===================================================================== *)

(** An entry other than a regular file whose size cannot be read. *)
Definition size_readable (e : entry) : bool :=
  match e with
  | EFile _ None => false
  | _ => true
  end.

(** No status query throws anywhere below the entry. *)
Fixpoint listable (e : entry) : bool :=
  match e with
  | EThrow _ => false
  | EDir _ _ children => forallb listable children
  | _ => true
  end.

(** No status query throws below the entry and no directory below it is
    named [.git]. *)
Fixpoint free_of_fatal (e : entry) : bool :=
  match e with
  | EThrow _ => false
  | EDir n _ children =>
      negb (String.eqb (Path.filename n) GIT)
      && forallb free_of_fatal children
  | _ => true
  end.

(** The traversal of [da.cpp] meets a status query that throws: in the
    listing of [dir], after entries whose size could be read, at an
    entry that is not excluded, or in the same way below a
    subdirectory that it descends into. *)
Inductive meets_throw (fs : string -> string -> option bool)
    (cfg : Da.Config) : string -> list entry -> Prop :=
| meets_throw_here dir pre n post :
    forallb size_readable pre = true ->
    Da.shouldExclude fs cfg (Path.append dir n) = false ->
    meets_throw fs cfg dir (pre ++ EThrow n :: post)
| meets_throw_below dir pre n i children post :
    forallb size_readable pre = true ->
    Da.shouldExclude fs cfg (Path.append dir n) = false ->
    String.eqb (Path.filename (Path.append dir n)) GIT = false ->
    meets_throw fs cfg (Path.append dir n) children ->
    meets_throw fs cfg dir (pre ++ EDir n i children :: post).

(** What [fs::file_size] answers for the regular files below an entry,
    in the order of the recursive iterator. *)
Fixpoint file_sizes (e : entry) : list (option Z) :=
  match e with
  | EFile _ size => [size]
  | EDir _ _ children => flat_map file_sizes children
  | _ => []
  end.

(** The sum, over all type keys, of the per-type counts. *)
Definition sum_counts (m : gmap string FileTypeStats.t) : Z :=
  map_fold (fun _ st acc => FileTypeStats.count st + acc) 0 m.

(** The invariant of the counts of [da.cpp]: every count is within the
    range of [size_t] and [totalFiles] is at most their sum. *)
Definition Da_counts_invariant (s : Da.State) : Prop :=
  (forall k st, Da.stats s !! k = Some st ->
                in_range (FileTypeStats.count st))
  /\ in_range (Da.totalFiles s)
  /\ Da.totalFiles s <= sum_counts (Da.stats s).

(** The sum of the sizes that could be read, and the number of those
    that could not. *)
Fixpoint readable_total (sizes : list (option Z)) : Z :=
  match sizes with
  | [] => 0
  | Some z :: rest => z + readable_total rest
  | None :: rest => readable_total rest
  end.

Fixpoint unreadable (sizes : list (option Z)) : Z :=
  match sizes with
  | [] => 0
  | Some _ :: rest => unreadable rest
  | None :: rest => 1 + unreadable rest
  end.

(** What the two loops over a [.git] directory compute from a size
    accumulated so far. *)
Definition git_sizes_spec (g : Z) (sizes : list (option Z))
    (threaded da : exn + Z) : Prop :=
  threaded = inr (wrap (g + readable_total sizes - unreadable sizes))
  /\ da = (if unreadable sizes =? 0
           then inr (wrap (g + readable_total sizes))
           else inl filesystem_error).

(* ===================================================================== *)
(** * The command line of [da.cpp] *)
(* ===================================================================== *)

Module DaMain.

(** [FileAnalyzer(showHidden)] *)
Definition new (showHidden : bool) : Da.Config :=
  {| Da.excludeDirs := []; Da.includeTypes := ∅;
     Da.showHidden := showHidden; Da.sizeThreshold := defaultThreshold |}.

(** [addExcludeDir]: [excludeDirs.push_back(fs::path(dir))] *)
Definition addExcludeDir (dir : string) (c : Da.Config) : Da.Config :=
  {| Da.excludeDirs := Da.excludeDirs c ++ [dir];
     Da.includeTypes := Da.includeTypes c;
     Da.showHidden := Da.showHidden c;
     Da.sizeThreshold := Da.sizeThreshold c |}.

(** [addIncludeType] on the analyzer. *)
Definition addIncludeType (type : string) (c : Da.Config) : Da.Config :=
  {| Da.excludeDirs := Da.excludeDirs c;
     Da.includeTypes := addIncludeType type (Da.includeTypes c);
     Da.showHidden := Da.showHidden c;
     Da.sizeThreshold := Da.sizeThreshold c |}.

(** The local variables of [main] that the argument loop fills. *)
Record Options : Type := mkOptions {
  targetDir : string;
  outputFile : string;
  showHidden : bool;
  excludeDirs : list string;
  includeTypes : list string;
  sizeThreshold : SizeThreshold
}.

Definition no_options : Options :=
  {| targetDir := ""; outputFile := ""; showHidden := false;
     excludeDirs := []; includeTypes := [];
     sizeThreshold := defaultThreshold |}.

(** How the argument loop ends when it does not throw: at [-h], or at
    the end of the arguments. *)
Inductive parsed : Type :=
| Help
| Run (o : Options).

(** What [main] writes, call by call: [printUsage], the message of the
    exception caught, the line that announces the analysis,
    [printResults] and a successful [exportCsv] on the state of the
    analyzer.  The warnings that the traversal writes to [std::cerr]
    are left out. *)
Inductive output : Type :=
| Usage
| ErrorMessage (e : exn)
| Banner (dir : string)
| Results (s : Da.State)
| Exported (filename : string) (s : Da.State).

Section WithEnvironment.

(** [parseSize], whose parsing of a floating-point value is not
    embedded: the loop is given for every such function. *)
Variable parseSize : string -> exn + Z.

(** The [for] loop over [argv], from the argument at hand. *)
Fixpoint parse_args (args : list string) (o : Options) : exn + parsed :=
  match args with
  | [] => inr (Run o)
  | arg :: rest =>
      if String.eqb arg "-h" || String.eqb arg "--help" then inr Help
      else if String.eqb arg "-a" || String.eqb arg "--all" then
        parse_args rest
          {| targetDir := targetDir o; outputFile := outputFile o;
             showHidden := true; excludeDirs := excludeDirs o;
             includeTypes := includeTypes o;
             sizeThreshold := sizeThreshold o |}
      else if String.eqb arg "-e" || String.eqb arg "--exclude" then
        match rest with
        | value :: rest' =>
            parse_args rest'
              {| targetDir := targetDir o; outputFile := outputFile o;
                 showHidden := showHidden o;
                 excludeDirs := excludeDirs o ++ [value];
                 includeTypes := includeTypes o;
                 sizeThreshold := sizeThreshold o |}
        | [] => inl (runtime_error "Error: -e option requires a directory")
        end
      else if String.eqb arg "-o" || String.eqb arg "--output" then
        match rest with
        | value :: rest' =>
            parse_args rest'
              {| targetDir := targetDir o; outputFile := value;
                 showHidden := showHidden o; excludeDirs := excludeDirs o;
                 includeTypes := includeTypes o;
                 sizeThreshold := sizeThreshold o |}
        | [] => inl (runtime_error "Error: -o option requires a filename")
        end
      else if String.eqb arg "-t" || String.eqb arg "--type" then
        match rest with
        | value :: rest' =>
            parse_args rest'
              {| targetDir := targetDir o; outputFile := outputFile o;
                 showHidden := showHidden o; excludeDirs := excludeDirs o;
                 includeTypes := includeTypes o ++ [value];
                 sizeThreshold := sizeThreshold o |}
        | [] => inl (runtime_error "Error: -t option requires a file type")
        end
      else if String.eqb arg "-s" || String.eqb arg "--min-size" then
        match rest with
        | value :: rest' =>
            match parseSize value with
            | inl x => inl x
            | inr size =>
                parse_args rest'
                  {| targetDir := targetDir o; outputFile := outputFile o;
                     showHidden := showHidden o;
                     excludeDirs := excludeDirs o;
                     includeTypes := includeTypes o;
                     sizeThreshold :=
                       {| minSize := size;
                          maxSize := maxSize (sizeThreshold o) |} |}
            end
        | [] => inl (runtime_error "Error: -s option requires a size value")
        end
      else if String.eqb arg "-S" || String.eqb arg "--max-size" then
        match rest with
        | value :: rest' =>
            match parseSize value with
            | inl x => inl x
            | inr size =>
                parse_args rest'
                  {| targetDir := targetDir o; outputFile := outputFile o;
                     showHidden := showHidden o;
                     excludeDirs := excludeDirs o;
                     includeTypes := includeTypes o;
                     sizeThreshold :=
                       {| minSize := minSize (sizeThreshold o);
                          maxSize := size |} |}
            end
        | [] => inl (runtime_error "Error: -S option requires a size value")
        end
      else if String.eqb (targetDir o) EmptyString then
        parse_args rest
          {| targetDir := arg; outputFile := outputFile o;
             showHidden := showHidden o; excludeDirs := excludeDirs o;
             includeTypes := includeTypes o;
             sizeThreshold := sizeThreshold o |}
      else parse_args rest o
  end.

(** The analyzer as [main] sets it up: the thresholds, then the
    excluded directories, then the types. *)
Definition configure (o : Options) : exn + Da.Config :=
  match Da.setSizeThreshold (sizeThreshold o) (new (showHidden o)) with
  | inl x => inl x
  | inr c =>
      inr (fold_left
             (fun c type =>
                addIncludeType
                  (if String.eqb type EmptyString then NO_EXTENSION
                   else type) c)
             (includeTypes o)
             (fold_left (fun c dir => addExcludeDir dir c) (excludeDirs o) c))
  end.

(** [fs::equivalent]; whether [fs::exists] and [fs::is_directory] hold
    of a path, [None] when one of them throws; the listing of the
    directory to analyze; whether [std::ofstream] can open a file. *)
Variable fs_equivalent : string -> string -> option bool.
Variable is_directory : string -> option bool.
Variable tree : string -> list entry.
Variable can_create : string -> bool.

(** What is written when an exception reaches the [catch] of [main]. *)
Definition failed (written : list output) (e : exn) : Z * list output :=
  (1, written ++ [ErrorMessage e; Usage]).

(** [main], on [argv[1]] onwards: the exit code and what was written. *)
Definition main (args : list string) : Z * list output :=
  match parse_args args no_options with
  | inl x => failed [] x
  | inr Help => (0, [Usage])
  | inr (Run o) =>
      if String.eqb (targetDir o) EmptyString then
        failed [] (runtime_error "Error: No directory specified")
      else
        match is_directory (targetDir o) with
        | None => failed [] filesystem_error
        | Some false =>
            failed []
              (runtime_error ("Error: Invalid directory: " +:+ targetDir o))
        | Some true =>
            match configure o with
            | inl x => failed [] x
            | inr cfg =>
                match Da.analyze fs_equivalent cfg (targetDir o)
                        (tree (targetDir o)) Da.init with
                | inl x => failed [Banner (targetDir o)] x
                | inr s =>
                    if String.eqb (outputFile o) EmptyString then
                      (0, [Banner (targetDir o); Results s])
                    else if can_create (outputFile o) then
                      (0, [Banner (targetDir o); Results s;
                           Exported (outputFile o) s])
                    else
                      failed [Banner (targetDir o); Results s]
                        (runtime_error
                           ("Cannot create output file: " +:+ outputFile o))
                end
            end
        end
  end.

End WithEnvironment.

End DaMain.

(* ===================================================================== *)
(** * The command line of the multithreaded program *)
(* ===================================================================== *)

(** [std::isspace] in the "C" locale. *)
Definition isspace (c : ascii) : bool :=
  let n := N_of_ascii c in
  ((n =? 32) || ((9 <=? n) && (n <=? 13)))%N.

Fixpoint skip_space (s : string) : string :=
  match s with
  | String c r => if isspace c then skip_space r else s
  | EmptyString => s
  end.

Definition digit_of (c : ascii) : option Z :=
  let n := N_of_ascii c in
  if ((48 <=? n) && (n <=? 57))%N then Some (Z.of_N n - 48) else None.

(** The value of the longest prefix of decimal digits, [acc] when it is
    empty. *)
Fixpoint read_digits (s : string) (acc : option Z) : option Z :=
  match s with
  | String c r =>
      match digit_of c with
      | Some d => read_digits r (Some (10 * default 0 acc + d))
      | None => acc
      end
  | EmptyString => acc
  end.

Definition INT_MAX : Z := 2 ^ 31 - 1.
Definition INT_MIN : Z := - 2 ^ 31.
Definition UINT_MOD : Z := 2 ^ 32.

(** [std::stoi(str)]: [strtol] in base 10 (white space, an optional
    sign, digits; what follows is ignored); [None] when it throws
    [std::invalid_argument] (no digit) or [std::out_of_range] (the value
    is not an [int]). *)
Definition stoi (str : string) : option Z :=
  let s := skip_space str in
  let '(negative, s) :=
    match s with
    | String c r =>
        if Ascii.eqb c "-" then (true, r)
        else if Ascii.eqb c "+" then (false, r)
        else (false, s)
    | EmptyString => (false, s)
    end in
  match read_digits s None with
  | None => None
  | Some v =>
      let v := if negative then - v else v in
      if (INT_MIN <=? v) && (v <=? INT_MAX) then Some v else None
  end.

Module ThreadedMain.

(** [FileAnalyzer(showHidden)]: [numThreads] is
    [std::thread::hardware_concurrency()], or 1 when that is 0. *)
Definition new (hardware_concurrency : Z) (showHidden : bool)
  : Threaded.Config :=
  {| Threaded.excludeDirs := []; Threaded.includeTypes := ∅;
     Threaded.showHidden := showHidden;
     Threaded.sizeThreshold := defaultThreshold;
     Threaded.numThreads :=
       if hardware_concurrency =? 0 then 1 else hardware_concurrency |}.

Definition addExcludeDir (dir : string) (c : Threaded.Config)
  : Threaded.Config :=
  {| Threaded.excludeDirs := Threaded.excludeDirs c ++ [dir];
     Threaded.includeTypes := Threaded.includeTypes c;
     Threaded.showHidden := Threaded.showHidden c;
     Threaded.sizeThreshold := Threaded.sizeThreshold c;
     Threaded.numThreads := Threaded.numThreads c |}.

Definition addIncludeType (type : string) (c : Threaded.Config)
  : Threaded.Config :=
  {| Threaded.excludeDirs := Threaded.excludeDirs c;
     Threaded.includeTypes := addIncludeType type (Threaded.includeTypes c);
     Threaded.showHidden := Threaded.showHidden c;
     Threaded.sizeThreshold := Threaded.sizeThreshold c;
     Threaded.numThreads := Threaded.numThreads c |}.

Definition setSizeThreshold (threshold : SizeThreshold) (c : Threaded.Config)
  : exn + Threaded.Config :=
  if negb (isValid threshold) then
    inl (runtime_error
           "Invalid size threshold: min size must be less than or equal to max size")
  else inr {| Threaded.excludeDirs := Threaded.excludeDirs c;
              Threaded.includeTypes := Threaded.includeTypes c;
              Threaded.showHidden := Threaded.showHidden c;
              Threaded.sizeThreshold := threshold;
              Threaded.numThreads := Threaded.numThreads c |}.

(** The local variables of [main] that the argument loop fills;
    [threadCount] is an [unsigned int], 0 for the default. *)
Record Options : Type := mkOptions {
  targetDir : string;
  outputFile : string;
  showHidden : bool;
  excludeDirs : list string;
  includeTypes : list string;
  sizeThreshold : SizeThreshold;
  threadCount : Z
}.

Definition no_options : Options :=
  {| targetDir := ""; outputFile := ""; showHidden := false;
     excludeDirs := []; includeTypes := [];
     sizeThreshold := defaultThreshold; threadCount := 0 |}.

Inductive parsed : Type :=
| Help
| Run (o : Options).

(** What [main] writes, call by call; [Banner] stands for the two lines
    that [analyze] writes first (the directory and the number of
    threads) and [Completed] for its last line, which gives the time
    taken. *)
Inductive output : Type :=
| Usage
| ErrorMessage (e : exn)
| Banner (dir : string) (threads : Z)
| Completed
| Results (s : Threaded.State)
| Exported (filename : string) (s : Threaded.State).

(** The [-j] branch of the argument loop: the [int] that [std::stoi]
    returns is assigned to the [unsigned int threadCount], and
    [threadCount <= 0] is tested on it; every exception is replaced by
    one message. *)
Definition parse_thread_count (value : string) : exn + Z :=
  match stoi value with
  | None => inl (runtime_error ("Error: Invalid thread count: " +:+ value))
  | Some n =>
      let threadCount := n mod UINT_MOD in
      if threadCount <=? 0 then
        inl (runtime_error ("Error: Invalid thread count: " +:+ value))
      else inr threadCount
  end.

Section WithEnvironment.

Variable parseSize : string -> exn + Z.

Fixpoint parse_args (args : list string) (o : Options) : exn + parsed :=
  match args with
  | [] => inr (Run o)
  | arg :: rest =>
      if String.eqb arg "-h" || String.eqb arg "--help" then inr Help
      else if String.eqb arg "-a" || String.eqb arg "--all" then
        parse_args rest
          {| targetDir := targetDir o; outputFile := outputFile o;
             showHidden := true; excludeDirs := excludeDirs o;
             includeTypes := includeTypes o;
             sizeThreshold := sizeThreshold o;
             threadCount := threadCount o |}
      else if String.eqb arg "-e" || String.eqb arg "--exclude" then
        match rest with
        | value :: rest' =>
            parse_args rest'
              {| targetDir := targetDir o; outputFile := outputFile o;
                 showHidden := showHidden o;
                 excludeDirs := excludeDirs o ++ [value];
                 includeTypes := includeTypes o;
                 sizeThreshold := sizeThreshold o;
                 threadCount := threadCount o |}
        | [] => inl (runtime_error "Error: -e option requires a directory")
        end
      else if String.eqb arg "-o" || String.eqb arg "--output" then
        match rest with
        | value :: rest' =>
            parse_args rest'
              {| targetDir := targetDir o; outputFile := value;
                 showHidden := showHidden o; excludeDirs := excludeDirs o;
                 includeTypes := includeTypes o;
                 sizeThreshold := sizeThreshold o;
                 threadCount := threadCount o |}
        | [] => inl (runtime_error "Error: -o option requires a filename")
        end
      else if String.eqb arg "-t" || String.eqb arg "--type" then
        match rest with
        | value :: rest' =>
            parse_args rest'
              {| targetDir := targetDir o; outputFile := outputFile o;
                 showHidden := showHidden o; excludeDirs := excludeDirs o;
                 includeTypes := includeTypes o ++ [value];
                 sizeThreshold := sizeThreshold o;
                 threadCount := threadCount o |}
        | [] => inl (runtime_error "Error: -t option requires a file type")
        end
      else if String.eqb arg "-s" || String.eqb arg "--min-size" then
        match rest with
        | value :: rest' =>
            match parseSize value with
            | inl x => inl x
            | inr size =>
                parse_args rest'
                  {| targetDir := targetDir o; outputFile := outputFile o;
                     showHidden := showHidden o;
                     excludeDirs := excludeDirs o;
                     includeTypes := includeTypes o;
                     sizeThreshold :=
                       {| minSize := size;
                          maxSize := maxSize (sizeThreshold o) |};
                     threadCount := threadCount o |}
            end
        | [] => inl (runtime_error "Error: -s option requires a size value")
        end
      else if String.eqb arg "-S" || String.eqb arg "--max-size" then
        match rest with
        | value :: rest' =>
            match parseSize value with
            | inl x => inl x
            | inr size =>
                parse_args rest'
                  {| targetDir := targetDir o; outputFile := outputFile o;
                     showHidden := showHidden o;
                     excludeDirs := excludeDirs o;
                     includeTypes := includeTypes o;
                     sizeThreshold :=
                       {| minSize := minSize (sizeThreshold o);
                          maxSize := size |};
                     threadCount := threadCount o |}
            end
        | [] => inl (runtime_error "Error: -S option requires a size value")
        end
      else if String.eqb arg "-j" || String.eqb arg "--threads" then
        match rest with
        | value :: rest' =>
            match parse_thread_count value with
            | inl x => inl x
            | inr threads =>
                parse_args rest'
                  {| targetDir := targetDir o; outputFile := outputFile o;
                     showHidden := showHidden o;
                     excludeDirs := excludeDirs o;
                     includeTypes := includeTypes o;
                     sizeThreshold := sizeThreshold o;
                     threadCount := threads |}
            end
        | [] => inl (runtime_error "Error: -j option requires a number")
        end
      else if String.eqb (targetDir o) EmptyString then
        parse_args rest
          {| targetDir := arg; outputFile := outputFile o;
             showHidden := showHidden o; excludeDirs := excludeDirs o;
             includeTypes := includeTypes o;
             sizeThreshold := sizeThreshold o;
             threadCount := threadCount o |}
      else parse_args rest o
  end.

(** [std::thread::hardware_concurrency()] *)
Variable hardware_concurrency : Z.

(** The analyzer as [main] sets it up: the thread count when one was
    given, the thresholds, the excluded directories, the types. *)
Definition configure (o : Options) : exn + Threaded.Config :=
  let c := new hardware_concurrency (showHidden o) in
  let c := if threadCount o >? 0 then Threaded.setThreadCount (threadCount o) c
           else c in
  match setSizeThreshold (sizeThreshold o) c with
  | inl x => inl x
  | inr c =>
      inr (fold_left
             (fun c type =>
                addIncludeType
                  (if String.eqb type EmptyString then NO_EXTENSION
                   else type) c)
             (includeTypes o)
             (fold_left (fun c dir => addExcludeDir dir c) (excludeDirs o) c))
  end.

Variable fs_equivalent : string -> string -> option bool.
Variable is_directory : string -> option bool.
Variable tree : string -> list entry.
Variable can_create : string -> bool.

Definition failed (written : list output) (e : exn) : Z * list output :=
  (1, written ++ [ErrorMessage e; Usage]).

(** [main], on [argv[1]] onwards, in the schedule of [Threaded.run]. *)
Definition main (args : list string) : Z * list output :=
  match parse_args args no_options with
  | inl x => failed [] x
  | inr Help => (0, [Usage])
  | inr (Run o) =>
      if String.eqb (targetDir o) EmptyString then
        failed [] (runtime_error "Error: No directory specified")
      else
        match is_directory (targetDir o) with
        | None => failed [] filesystem_error
        | Some false =>
            failed []
              (runtime_error ("Error: Invalid directory: " +:+ targetDir o))
        | Some true =>
            match configure o with
            | inl x => failed [] x
            | inr cfg =>
                let s := fst (Threaded.analyze fs_equivalent cfg
                                (targetDir o) 0 (tree (targetDir o))
                                Threaded.init) in
                let written :=
                  [Banner (targetDir o) (Threaded.numThreads cfg);
                   Completed; Results s] in
                if String.eqb (outputFile o) EmptyString then (0, written)
                else if can_create (outputFile o) then
                  (0, written ++ [Exported (outputFile o) s])
                else
                  failed written
                    (runtime_error
                       ("Cannot create output file: " +:+ outputFile o))
            end
        end
  end.

End WithEnvironment.

End ThreadedMain.

(** The arguments that the loops of the two [main]s know. *)
Definition Da_option_names : list string :=
  ["-h"; "--help"; "-a"; "--all"; "-e"; "--exclude"; "-o"; "--output";
   "-t"; "--type"; "-s"; "--min-size"; "-S"; "--max-size"].

Definition Threaded_option_names : list string :=
  Da_option_names ++ ["-j"; "--threads"].

Definition is_option (names : list string) (arg : string) : bool :=
  existsb (String.eqb arg) names.

(* ===================================================================== *)
(** * The reports *)
(* ===================================================================== *)

(** The decimal digits of a [size_t], as [operator<<] and
    [std::to_string] write them: at most twenty. *)
Definition digit_char (d : Z) : ascii := ascii_of_N (48 + Z.to_N d).

Fixpoint to_string_digits (fuel : nat) (n : Z) (acc : string) : string :=
  match fuel with
  | O => acc
  | S fuel' =>
      let acc' := String (digit_char (n mod 10)) acc in
      if n <? 10 then acc' else to_string_digits fuel' (n / 10) acc'
  end.

Definition to_string (n : Z) : string := to_string_digits 20 n EmptyString.

(** [static_cast<double>(bytes)]: [bytes] itself below [2^53], and the
    nearest multiple of the spacing of the doubles above, ties to the
    even mantissa. *)
Definition to_double (bytes : Z) : Z :=
  if bytes <? 2 ^ 53 then bytes
  else
    let e := Z.log2 bytes - 52 in
    let q := bytes / 2 ^ e in
    let r := bytes mod 2 ^ e in
    let q := if (2 * r >? 2 ^ e) || ((2 * r =? 2 ^ e) && Z.odd q)
             then q + 1 else q in
    q * 2 ^ e.

(** The loop of [formatSize].  The double [size] holds
    [value / 1024^unit]: a division of a double by 1024 is exact. *)
Fixpoint formatSize_unit (fuel : nat) (value : Z) (unit : Z) : Z :=
  match fuel with
  | O => unit
  | S fuel' =>
      if (value >=? 1024 * 1024 ^ unit) && (unit <? 4)
      then formatSize_unit fuel' value (unit + 1)
      else unit
  end.

(** [a / b] rounded to the nearest integer, ties to even: what
    [std::fixed << std::setprecision(2)] does to the hundredths of a
    double in a C library that rounds correctly. *)
Definition round_half_even (a b : Z) : Z :=
  let q := a / b in
  let r := a mod b in
  if (2 * r >? b) || ((2 * r =? b) && Z.odd q) then q + 1 else q.

Definition units : list string := ["B"; "KB"; "MB"; "GB"; "TB"].

(** The hundredths of the unit that [formatSize] shows, and the unit. *)
Definition formatSize_shown (bytes : Z) : Z * Z :=
  let value := to_double bytes in
  let unit := formatSize_unit 4 value 0 in
  (round_half_even (100 * value) (1024 ^ unit), unit).

(** [static formatSize], identical in both programs. *)
Definition formatSize (bytes : Z) : string :=
  let '(hundredths, unit) := formatSize_shown bytes in
  to_string (hundredths / 100)
  +:+ String ch_dot
        (String (digit_char (hundredths mod 100 / 10))
           (String (digit_char (hundredths mod 10))
              (String " "%char (nth (Z.to_nat unit) units EmptyString)))).

Definition newline : string := String ch_lf EmptyString.

Definition ESC : ascii := "027"%char.
Definition RESET : string := String ESC "[0m".
Definition RED : string := String ESC "[31m".
Definition GREEN : string := String ESC "[32m".
Definition YELLOW : string := String ESC "[33m".
Definition CYAN : string := String ESC "[36m".

(** [std::string(n, c)] *)
Fixpoint fill (n : nat) (c : ascii) : string :=
  match n with
  | O => EmptyString
  | S n' => String c (fill n' c)
  end.

(** [std::left << std::setw(w) << s] and [std::right << std::setw(w) << s]:
    padded with spaces to [w] characters, never cut. *)
Definition setw_left (w : nat) (s : string) : string :=
  s +:+ fill (w - String.length s) " "%char.

Definition setw_right (w : nat) (s : string) : string :=
  fill (w - String.length s) " "%char +:+ s.

Fixpoint concat_strings (l : list string) : string :=
  match l with
  | [] => EmptyString
  | s :: rest => s +:+ concat_strings rest
  end.

Definition table_rule : string :=
  CYAN +:+ "+" +:+ fill 20 "-"%char +:+ "+" +:+ fill 15 "-"%char +:+ "+"
  +:+ fill 20 "-"%char +:+ "+" +:+ RESET +:+ newline.

(** One line of the table of [printResults]. *)
Definition table_row (row : string * FileTypeStats.t) : string :=
  CYAN +:+ "|" +:+ GREEN +:+ setw_left 20 (fst row)
  +:+ CYAN +:+ "|" +:+ GREEN
  +:+ setw_right 15 (to_string (FileTypeStats.count (snd row)))
  +:+ CYAN +:+ "|" +:+ GREEN
  +:+ setw_right 20 (formatSize (FileTypeStats.totalSize (snd row)))
  +:+ CYAN +:+ "|" +:+ RESET +:+ newline.

(** [printResults], the same text in both programs.  [sorted] is the
    vector after [std::sort]: the entries of [stats], by decreasing
    total, in an order that [std::sort] does not fix for equal
    totals. *)
Definition printResults (sorted : list (string * FileTypeStats.t))
    (showHidden : bool) (totalFiles totalSize hiddenFiles hiddenSize : Z)
  : string :=
  if totalFiles =? 0 then RED +:+ "No files found." +:+ newline +:+ RESET
  else
    newline +:+ CYAN +:+ "+" +:+ fill 60 "-"%char +:+ "+" +:+ RESET
    +:+ newline
    +:+ CYAN +:+ "| " +:+ GREEN
    +:+ setw_left 25 ("Total files: " +:+ to_string totalFiles)
    +:+ CYAN +:+ " | " +:+ GREEN
    +:+ setw_left 30 ("Total size: " +:+ formatSize totalSize)
    +:+ CYAN +:+ " |" +:+ RESET +:+ newline
    +:+ CYAN +:+ "+" +:+ fill 60 "-"%char +:+ "+" +:+ RESET
    +:+ newline +:+ newline
    +:+ table_rule
    +:+ CYAN +:+ "|" +:+ YELLOW +:+ setw_left 20 " File Type"
    +:+ CYAN +:+ "|" +:+ YELLOW +:+ setw_right 15 "Count"
    +:+ CYAN +:+ "|" +:+ YELLOW +:+ setw_right 20 "Total Size"
    +:+ CYAN +:+ "|" +:+ RESET +:+ newline
    +:+ table_rule
    +:+ concat_strings (map table_row sorted)
    +:+ table_rule
    +:+ (if negb showHidden && (hiddenFiles >? 0) then
           YELLOW +:+ newline +:+ "Hidden files: " +:+ to_string hiddenFiles
           +:+ " (Size: " +:+ formatSize hiddenSize +:+ ")" +:+ RESET
           +:+ newline
         else EmptyString).

(** One line of the CSV file of [da.cpp], and the file; [entries] are
    the entries of [stats] in the order in which the loop over the
    [std::unordered_map] meets them. *)
Definition Da_csv_row (row : string * FileTypeStats.t) : string :=
  Da.escapeCSV (fst row) +:+ ","
  +:+ to_string (FileTypeStats.count (snd row)) +:+ ","
  +:+ to_string (FileTypeStats.totalSize (snd row)) +:+ newline.

Definition Da_exportCsv (entries : list (string * FileTypeStats.t))
    (cfg : Da.Config) (s : Da.State) : string :=
  "FileType,Count,TotalSize" +:+ newline
  +:+ concat_strings (map Da_csv_row entries)
  +:+ (if negb (Da.showHidden cfg) && (Da.hiddenFiles s >? 0) then
         "Hidden files," +:+ to_string (Da.hiddenFiles s) +:+ ","
         +:+ to_string (Da.hiddenSize s) +:+ newline
       else EmptyString).

(** The same for the multithreaded program, which adds a column. *)
Definition Threaded_csv_row (row : string * FileTypeStats.t) : string :=
  Threaded.escapeCSV (fst row) +:+ ","
  +:+ to_string (FileTypeStats.count (snd row)) +:+ ","
  +:+ to_string (FileTypeStats.totalSize (snd row)) +:+ ","
  +:+ Threaded.escapeCSV (formatSize (FileTypeStats.totalSize (snd row)))
  +:+ newline.

Definition Threaded_exportCsv (entries : list (string * FileTypeStats.t))
    (cfg : Threaded.Config) (s : Threaded.State) : string :=
  "FileType,Count,TotalSize,SizeHuman" +:+ newline
  +:+ concat_strings (map Threaded_csv_row entries)
  +:+ (if negb (Threaded.showHidden cfg) && (Threaded.hiddenFiles s >? 0) then
         "Hidden files," +:+ to_string (Threaded.hiddenFiles s) +:+ ","
         +:+ to_string (Threaded.hiddenSize s) +:+ ","
         +:+ Threaded.escapeCSV (formatSize (Threaded.hiddenSize s))
         +:+ newline
       else EmptyString).

(** Reading rows back: fields to the end of the line, and lines to the
    end of the file. *)
Fixpoint read_row (fuel : nat) (s : string) : option (list string * string) :=
  match fuel with
  | O => None
  | S fuel' =>
      match read_field s with
      | None => None
      | Some (f, rest) =>
          match rest with
          | EmptyString => Some ([f], EmptyString)
          | String c r =>
              if Ascii.eqb c ch_lf then Some ([f], r)
              else match read_row fuel' r with
                   | Some (fields, rest') => Some (f :: fields, rest')
                   | None => None
                   end
          end
      end
  end.

Fixpoint read_rows (fuel : nat) (s : string) : option (list (list string)) :=
  match fuel with
  | O => None
  | S fuel' =>
      match s with
      | EmptyString => Some []
      | _ =>
          match read_row (S (String.length s)) s with
          | None => None
          | Some (row, rest) =>
              match read_rows fuel' rest with
              | Some rows => Some (row :: rows)
              | None => None
              end
          end
      end
  end.

Definition read_csv (s : string) : option (list (list string)) :=
  read_rows (S (String.length s)) s.

(** The labels that [da.cpp] writes in a form that can be read back:
    those without a quote, a carriage return being allowed only where
    the field is written between quotes, which [escapeCSV] of [da.cpp]
    does for a comma or a line feed. *)
Definition Da_readable_label (label : string) : bool :=
  negb (contains ch_quote label)
  && (negb (contains ch_cr label)
      || contains ch_comma label || contains ch_lf label).

(** Every regular file below the entry has a name that starts with a
    period, directories named [.git] apart. *)
Fixpoint all_hidden (e : entry) : bool :=
  match e with
  | EFile n _ => starts_with_char ch_dot (Path.filename n)
  | EDir n _ children =>
      String.eqb (Path.filename n) GIT || forallb all_hidden children
  | _ => true
  end.

(* ===================================================================== *)
(** * The order of a directory listing *)
(* ===================================================================== *)

(** The same tree with the entries of its directories in another
    order: [fs::directory_iterator] yields them in an order that is not
    specified. *)
Inductive relisted : entry -> entry -> Prop :=
| relisted_same e : relisted e e
| relisted_dir n i children children' :
    relisted_list children children' ->
    relisted (EDir n i children) (EDir n i children')
with relisted_list : list entry -> list entry -> Prop :=
| relisted_nil : relisted_list [] []
| relisted_cons e e' l l' :
    relisted e e' -> relisted_list l l' ->
    relisted_list (e :: l) (e' :: l')
| relisted_swap e1 e2 l : relisted_list (e1 :: e2 :: l) (e2 :: e1 :: l)
| relisted_trans l1 l2 l3 :
    relisted_list l1 l2 -> relisted_list l2 l3 -> relisted_list l1 l3.

Scheme relisted_mut := Minimality for relisted Sort Prop
  with relisted_list_mut := Minimality for relisted_list Sort Prop.

Combined Scheme relisted_mutual from relisted_mut, relisted_list_mut.

(** What two listings of the same tree have in common. *)
Definition same_entry (fs : string -> string -> option bool)
    (cfg : Threaded.Config) (e e' : entry) : Prop :=
  entry_name e = entry_name e'
  /\ Permutation (file_sizes e) (file_sizes e')
  /\ weight e = weight e'
  /\ (listable e = true -> listable e' = true)
  /\ (clean e = true -> clean e' = true)
  /\ (well_formed_entry e = true -> well_formed_entry e' = true)
  /\ (listable e = true ->
      forall path,
        Permutation (entry_events fs cfg path e)
          (entry_events fs cfg path e')).

Definition same_entries (fs : string -> string -> option bool)
    (cfg : Threaded.Config) (l l' : list entry) : Prop :=
  Permutation (map entry_name l) (map entry_name l')
  /\ Permutation (flat_map file_sizes l) (flat_map file_sizes l')
  /\ weights l = weights l'
  /\ (forallb listable l = true -> forallb listable l' = true)
  /\ (forallb clean l = true -> forallb clean l' = true)
  /\ (forallb well_formed_entry l = true ->
      forallb well_formed_entry l' = true)
  /\ (forallb listable l = true ->
      forall dir,
        Permutation
          (Threaded.scan (Threaded.shouldExclude fs cfg) dir
             (entry_events fs cfg) l)
          (Threaded.scan (Threaded.shouldExclude fs cfg) dir
             (entry_events fs cfg) l')).

(* ===================================================================== *)
(** * What a run has to account for *)
(* ===================================================================== *)

(** What a traversal reaches and has to account for: a regular file
    whose size could be read, with its path, or a directory named
    [.git], with the size computed for it. *)
Inductive reached_item : Type :=
| ReachedFile (path : string) (size : Z)
| ReachedGit (size : Z).

(** The items reached at, or below, an entry of a listing that the loop
    has not excluded: the file itself; nothing below a directory named
    [.git] but the directory as one item (none when a status query
    throws below it); below any other directory, what its own listing
    gives.  [excl] is the exclusion test. *)
Fixpoint reached_below (excl : string -> bool) (path : string) (e : entry)
  : list reached_item :=
  match e with
  | EFile _ (Some size) => [ReachedFile path size]
  | EDir _ _ children =>
      if String.eqb (Path.filename path) GIT then
        match foldM Threaded.gitSizeOfEntry children 0 with
        | inr size => [ReachedGit size]
        | inl _ => []
        end
      else Threaded.scan excl path (reached_below excl) children
  | _ => []
  end.

(** The items reached from the listing of [dir]: those of its entries
    that are not excluded, up to the first one whose status query
    throws. *)
Definition reached (excl : string -> bool) (dir : string)
    (listing : list entry) : list reached_item :=
  Threaded.scan excl dir (reached_below excl) listing.

(** One more hidden item of [size] bytes: [hiddenFiles], [hiddenSize]
    and [totalSize] move, the per-type map and [totalFiles] do not. *)
Definition count_hidden (size : Z) (s : Da.State) : Da.State :=
  {| Da.stats := Da.stats s;
     Da.totalFiles := Da.totalFiles s;
     Da.totalSize := wrap (Da.totalSize s + size);
     Da.hiddenFiles := wrap (Da.hiddenFiles s + 1);
     Da.hiddenSize := wrap (Da.hiddenSize s + size) |}.

(** One more item of [size] bytes under the type [type]: its per-type
    entry, [totalFiles] and [totalSize] move, the hidden counters do
    not. *)
Definition count_shown (type : string) (size : Z) (s : Da.State) : Da.State :=
  {| Da.stats :=
       <[type := FileTypeStats.mk
                   (wrap (FileTypeStats.count
                            (default FileTypeStats.zero
                               (Da.stats s !! type)) + 1))
                   (wrap (FileTypeStats.totalSize
                            (default FileTypeStats.zero
                               (Da.stats s !! type)) + size))]>
         (Da.stats s);
     Da.totalFiles := wrap (Da.totalFiles s + 1);
     Da.totalSize := wrap (Da.totalSize s + size);
     Da.hiddenFiles := Da.hiddenFiles s;
     Da.hiddenSize := Da.hiddenSize s |}.

(** The accounting of one reached item: a regular file that passes the
    size and type filters is counted as hidden when its name starts
    with a period and hidden files are not shown, and under its type
    otherwise; a file that fails a filter is not counted; a [.git]
    directory is counted as hidden, or under [.git] when hidden files
    are shown. *)
Definition account (cfg : Threaded.Config) (s : Da.State)
    (item : reached_item) : Da.State :=
  match item with
  | ReachedFile path size =>
      if Threaded.isWithinSizeThreshold cfg size
         && Threaded.shouldInclude cfg (getFileType path)
      then
        if starts_with_char ch_dot (Path.filename path)
           && negb (Threaded.showHidden cfg)
        then count_hidden size s
        else count_shown (getFileType path) size s
      else s
  | ReachedGit size =>
      if Threaded.showHidden cfg then count_shown GIT size s
      else count_hidden size s
  end.

(* ===================================================================== *)
(** * Inputs used in the examples *)
(* ===================================================================== *)

Definition no_equivalent : string -> string -> option bool :=
  fun _ _ => Some false.

(** [fs::equivalent] on a file system without links: two paths name the
    same file when they are the same string. *)
Definition same_string : string -> string -> option bool :=
  fun a b => Some (String.eqb a b).

Definition da_default : Da.Config :=
  {| Da.excludeDirs := []; Da.includeTypes := ∅; Da.showHidden := false;
     Da.sizeThreshold := defaultThreshold |}.

Definition threaded_default (threads : Z) : Threaded.Config :=
  {| Threaded.excludeDirs := []; Threaded.includeTypes := ∅;
     Threaded.showHidden := false;
     Threaded.sizeThreshold := defaultThreshold;
     Threaded.numThreads := threads |}.

Definition da_hidden (show : bool) : Da.Config :=
  {| Da.excludeDirs := []; Da.includeTypes := ∅; Da.showHidden := show;
     Da.sizeThreshold := defaultThreshold |}.

Definition threaded_hidden (show : bool) : Threaded.Config :=
  {| Threaded.excludeDirs := []; Threaded.includeTypes := ∅;
     Threaded.showHidden := show;
     Threaded.sizeThreshold := defaultThreshold;
     Threaded.numThreads := 1 |}.

Definition threshold_1K_4K : SizeThreshold :=
  {| minSize := 1024; maxSize := 4096 |}.

Definition da_sized (types : gset string) : Da.Config :=
  {| Da.excludeDirs := []; Da.includeTypes := types; Da.showHidden := false;
     Da.sizeThreshold := threshold_1K_4K |}.

Definition threaded_sized (types : gset string) (threads : Z)
  : Threaded.Config :=
  {| Threaded.excludeDirs := []; Threaded.includeTypes := types;
     Threaded.showHidden := false;
     Threaded.sizeThreshold := threshold_1K_4K;
     Threaded.numThreads := threads |}.

(** A type label with a double quote in it: the extension of a file
    whose name ends in a period, the letter a, a double quote and the
    letter b. *)
Definition quoted_label : string := ".a" +:+ String ch_quote "b".

Definition three_huge_files : list entry :=
  [ EFile "a.bin" (Some (2 ^ 63 - 1));
    EFile "b.bin" (Some (2 ^ 63 - 1));
    EFile "c.bin" (Some (2 ^ 63 - 1)) ].

(** Three files of [2^63 - 1] bytes, of three types. *)
Definition three_huge_types : list entry :=
  [ EFile "a.x" (Some (2 ^ 63 - 1));
    EFile "b.y" (Some (2 ^ 63 - 1));
    EFile "c.z" (Some (2 ^ 63 - 1)) ].

(** Three files of 500, 2048 and 5000 bytes, and the thresholds 1024 and
    4096. *)
Definition three_sizes : list entry :=
  [ EFile "small.txt" (Some 500);
    EFile "mid.txt" (Some 2048);
    EFile "big.txt" (Some 5000) ].

(** A directory that holds the file [.env], of 100 bytes. *)
Definition env_only : list entry := [ EFile ".env" (Some 100) ].

(** A small tree: two text files, a hidden file, a [.git] directory. *)
Definition sample_tree : list entry :=
  [ EFile "a.txt" (Some 500);
    EFile ".env" (Some 100);
    EDir "sub" 1 [ EFile "B.TXT" (Some 7) ];
    EDir ".git" 2 [ EFile "x" (Some 900) ] ].

(** A directory [real] that holds one file, and a symbolic link [alias]
    to it: the same directory under two paths. *)
Definition aliased_tree : list entry :=
  [ EDir "real" 7 [ EFile "f.txt" (Some 10) ];
    EDir "alias" 7 [ EFile "f.txt" (Some 10) ] ].

(** A tree with two subdirectories, which several threads process
    concurrently. *)
Definition two_subdirs_tree : list entry :=
  [ EDir "a" 1 [ EFile "x.txt" (Some 1) ];
    EDir "b" 2 [ EFile "y.txt" (Some 2); EFile ".hid" (Some 4) ];
    EFile "z.md" (Some 3) ].

(** A listing that yields the same directory path twice, as no file
    system does. *)
Definition listed_twice : list entry :=
  [ EDir "d" 1 [ EFile "f.txt" (Some 10) ];
    EDir "d" 1 [ EFile "f.txt" (Some 10) ] ].

(** The tree [root/{a/x.txt, b/y.txt}]. *)
Definition a_and_b : list entry :=
  [ EDir "a" 1 [ EFile "x.txt" (Some 3) ];
    EDir "b" 2 [ EFile "y.txt" (Some 5) ] ].

(** A [.git] directory with three files of 900 bytes in all. *)
Definition with_history : list entry :=
  [ EDir ".git" 1
      [ EFile "HEAD" (Some 100);
        EDir "objects" 2 [ EFile "pack" (Some 700) ];
        EFile "config" (Some 100) ] ].

(** A file whose size cannot be read, followed by a readable one. *)
Definition unreadable_then_readable : list entry :=
  [ EFile "gone.txt" None; EFile "next.txt" (Some 5) ].

(** The settings after [-e dir] for every [dir] of a list. *)
Definition da_excluding (dirs : list string) : Da.Config :=
  {| Da.excludeDirs := dirs; Da.includeTypes := ∅; Da.showHidden := false;
     Da.sizeThreshold := defaultThreshold |}.

Definition threaded_excluding (dirs : list string) : Threaded.Config :=
  {| Threaded.excludeDirs := dirs; Threaded.includeTypes := ∅;
     Threaded.showHidden := false;
     Threaded.sizeThreshold := defaultThreshold;
     Threaded.numThreads := 1 |}.

(** A file whose size cannot be read, followed by the hidden file
    [.env], of 100 bytes. *)
Definition unreadable_then_hidden : list entry :=
  [ EFile "gone.txt" None; EFile ".env" (Some 100) ].

(** A tree with hidden files at two levels, files of two types and a
    [.git] directory. *)
Definition hidden_at_two_levels : list entry :=
  [ EFile ".env" (Some 100);
    EFile "a.txt" (Some 500);
    EDir "sub" 1 [ EFile ".profile" (Some 50); EFile "b.txt" (Some 7) ];
    EDir "other" 2 [ EFile ".netrc" (Some 3) ];
    EDir ".git" 3 [ EFile "x" (Some 900) ] ].

(** [fs::equivalent] on a file system where it always throws. *)
Definition equivalent_throws : string -> string -> option bool :=
  fun _ _ => None.

(* ===================================================================== *)
(** * The two programs on small trees *)
(* ===================================================================== *)

(** Bounds on closed numbers. *)
Ltac concrete_range :=
  unfold in_range; repeat split; vm_compute; discriminate.

(** Facts about programs of the multithreaded analyzer that hold by
    their structure. *)
Create HintDb analyzer discriminated.

Example getFileType_examples :
  getFileType "/home/u/.env" = "[dotfile]"
  /\ getFileType "src/Main.CPP" = ".cpp"
  /\ getFileType "Makefile" = "[no extension]"
  /\ getFileType "a/b/" = "[invalid]"
  /\ getFileType "x/.config.JSON" = ".json"
  /\ getFileType "archive.tar.gz" = ".gz"
  /\ getFileType "a." = ".".
Proof. repeat split. Qed.

Example parent_path_examples :
  Path.parent_path "root/b/y.txt" = "root/b"
  /\ Path.parent_path "a/b" = "a"
  /\ Path.parent_path "a/" = "a"
  /\ Path.parent_path "/a" = "/"
  /\ Path.parent_path "/" = "/"
  /\ Path.parent_path "a" = EmptyString
  /\ Path.parent_path EmptyString = EmptyString.
Proof. repeat split. Qed.

(** Excluding [root/b] leaves one file counted, in both programs. *)
Example exclude_directory :
  (exists s, Da.analyze same_string
               {| Da.excludeDirs := ["root/b"]; Da.includeTypes := ∅;
                  Da.showHidden := false;
                  Da.sizeThreshold := defaultThreshold |}
               "root" a_and_b Da.init = inr s
             /\ Da.totalFiles s = 1 /\ Da.totalSize s = 3)
  /\ (let s := fst (Threaded.analyze same_string
                      {| Threaded.excludeDirs := ["root/b"];
                         Threaded.includeTypes := ∅;
                         Threaded.showHidden := false;
                         Threaded.sizeThreshold := defaultThreshold;
                         Threaded.numThreads := 1 |}
                      "root" 0 a_and_b Threaded.init) in
      Threaded.totalFiles s = 1 /\ Threaded.totalSize s = 3).
Proof.
  split; [eexists; split; [reflexivity|]|]; split; by vm_compute.
Qed.

(** A [.git] directory is one blob: hidden by default, one entry of the
    type [.git] when hidden files are shown. *)
Example history_directory :
  Da.analyze no_equivalent (da_hidden false) "root" with_history Da.init
  = inr {| Da.stats := ∅; Da.totalFiles := 0; Da.totalSize := 900;
           Da.hiddenFiles := 1; Da.hiddenSize := 900 |}
  /\ Da.analyze no_equivalent (da_hidden true) "root" with_history Da.init
     = inr {| Da.stats := {[ ".git" := FileTypeStats.mk 1 900 ]};
              Da.totalFiles := 1; Da.totalSize := 900;
              Da.hiddenFiles := 0; Da.hiddenSize := 0 |}
  /\ fst (Threaded.analyze no_equivalent (threaded_hidden false) "root" 0
            with_history Threaded.init)
     = {| Threaded.stats := ∅; Threaded.totalFiles := 0;
          Threaded.totalSize := 900; Threaded.hiddenFiles := 1;
          Threaded.hiddenSize := 900;
          Threaded.processedDirs := {[ "root" ]} |}.
Proof. repeat split; by vm_compute. Qed.

(** In [da.cpp] the error code that a failed [fs::file_size] leaves set
    makes the loop skip the entry that follows; the multithreaded
    program, whose [processFile] has an error code of its own, counts
    it. *)
Example stale_error_code :
  Da.analyze no_equivalent da_default "root" unreadable_then_readable Da.init
  = inr Da.init
  /\ Threaded.totalFiles
       (fst (Threaded.analyze no_equivalent (threaded_default 1) "root" 0
               unreadable_then_readable Threaded.init)) = 1.
Proof. split; by vm_compute. Qed.

(* ===================================================================== *)
(** * Properties of the classification *)
(* ===================================================================== *)

Lemma last_dot_suffix_none (s : string) :
  Path.last_dot_suffix s = None <-> contains ch_dot s = false.
Proof.
  induction s as [|c r IH]; simpl; [tauto|].
  destruct (Path.last_dot_suffix r) as [e|].
  - split; [discriminate|]. intros H. apply orb_false_iff in H as [_ H].
    apply IH in H. discriminate.
  - destruct (Ascii.eqb c ch_dot); simpl; [split; discriminate|].
    split; intros _; [apply IH|]; reflexivity.
Qed.

Lemma last_dot_suffix_some (s e : string) :
  Path.last_dot_suffix s = Some e ->
  exists b x, s = b +:+ String ch_dot x /\ e = String ch_dot x
              /\ contains ch_dot x = false.
Proof.
  revert e. induction s as [|c r IH]; simpl; intros e H; [discriminate|].
  destruct (Path.last_dot_suffix r) as [e'|] eqn:Hr.
  - injection H as <-. destruct (IH e' eq_refl) as (b & x & -> & -> & Hx).
    exists (String c b), x. auto.
  - destruct (Ascii.eqb c ch_dot) eqn:Hc; [|discriminate].
    injection H as <-. apply Ascii.eqb_eq in Hc as ->.
    exists EmptyString, r. repeat split. by apply last_dot_suffix_none.
Qed.

Lemma last_dot_suffix_app (b x : string) :
  contains ch_dot x = false ->
  Path.last_dot_suffix (b +:+ String ch_dot x) = Some (String ch_dot x).
Proof.
  intros Hx. induction b as [|c b IH]; simpl.
  - apply last_dot_suffix_none in Hx. by rewrite Hx.
  - by rewrite IH.
Qed.

Lemma string_length_app (a b : string) :
  String.length (a +:+ b) = (String.length a + String.length b)%nat.
Proof. induction a; simpl; auto. Qed.

Lemma string_map_length f (s : string) :
  String.length (string_map f s) = String.length s.
Proof. induction s; simpl; auto. Qed.

Lemma string_map_empty f (s : string) :
  string_map f s = EmptyString <-> s = EmptyString.
Proof. destruct s; simpl; split; congruence. Qed.

(** The extension, in terms of the file name. *)
Lemma extension_spec (path : string) :
  let f := Path.filename path in
  (Path.extension path = EmptyString /\
   (f = EmptyString \/ f = ".." \/
    exists c r, f = String c r /\ contains ch_dot r = false))
  \/ (exists c b x, f = String c (b +:+ String ch_dot x)
                    /\ f <> ".." /\ contains ch_dot x = false
                    /\ Path.extension path = String ch_dot x).
Proof.
  unfold Path.extension. cbv zeta.
  destruct (Path.filename path) as [|c r] eqn:Hf.
  { left. auto. }
  destruct (String.eqb (String c r) "." || String.eqb (String c r) "..") eqn:E.
  { left. split; [done|]. apply orb_true_iff in E as [E|E]; apply String.eqb_eq in E.
    - right; right. exists c, r. split; [done|]. by injection E as _ ->.
    - by right; left. }
  apply orb_false_iff in E as [_ E2]. apply String.eqb_neq in E2.
  destruct (Path.last_dot_suffix r) as [e|] eqn:Hr; simpl.
  - right. destruct (last_dot_suffix_some _ _ Hr) as (b & x & -> & -> & Hx).
    exists c, b, x. auto.
  - left. split; [done|]. right; right. exists c, r. split; [done|].
    by apply last_dot_suffix_none.
Qed.

Lemma extension_shorter (path : string) :
  Path.filename path <> EmptyString ->
  (String.length (Path.extension path) < String.length (Path.filename path))%nat.
Proof.
  intros Hne. destruct (extension_spec path) as [[-> _]|(c & b & x & Hf & _ & _ & ->)].
  - destruct (Path.filename path); [done|simpl; lia].
  - rewrite Hf. simpl. rewrite string_length_app. simpl. lia.
Qed.

(** The test [filename == ext] of [getFileType] never succeeds. *)
Lemma getFileType_unfold (path : string) :
  getFileType path =
    if String.eqb path EmptyString then INVALID
    else if String.eqb (Path.filename path) EmptyString then INVALID
    else if String.eqb (Path.extension path) EmptyString then
           if starts_with_char ch_dot (Path.filename path)
           then DOTFILE else NO_EXTENSION
    else safeToLower (Path.extension path).
Proof.
  unfold getFileType.
  destruct (String.eqb path EmptyString); [done|].
  destruct (String.eqb (Path.filename path) EmptyString) eqn:Hf; [done|].
  apply String.eqb_neq in Hf.
  assert (Hne : String.eqb (Path.filename path)
                  (safeToLower (Path.extension path)) = false).
  { apply String.eqb_neq. intros E. apply (f_equal String.length) in E.
    unfold safeToLower in E. rewrite string_map_length in E.
    pose proof (extension_shorter path Hf). lia. }
  rewrite Hne.
  destruct (String.eqb (Path.extension path) EmptyString) eqn:He.
  - apply String.eqb_eq in He. rewrite He. simpl.
    by destruct (starts_with_char ch_dot (Path.filename path)).
  - assert (String.eqb (safeToLower (Path.extension path)) EmptyString = false)
      as ->.
    { apply String.eqb_neq. apply String.eqb_neq in He.
      unfold safeToLower. by rewrite string_map_empty. }
    simpl. by destruct (starts_with_char ch_dot (Path.filename path)).
Qed.

Lemma getFileType_threaded (path : string) :
  Threaded.getFileType path = getFileType path.
Proof.
  unfold Threaded.getFileType, getFileType, Threaded.toLower, safeToLower.
  destruct (String.eqb path EmptyString); [done|].
  destruct (String.eqb (Path.filename path) EmptyString); done.
Qed.

Lemma extension_of_suffix (path b x : string) :
  Path.filename path = b +:+ String ch_dot x ->
  b <> EmptyString -> Path.filename path <> ".." ->
  contains ch_dot x = false ->
  Path.extension path = String ch_dot x.
Proof.
  intros Hf Hb Hdd Hx. unfold Path.extension. cbv zeta.
  destruct b as [|c b]; [done|].
  change (String c b +:+ String ch_dot x)
    with (String c (b +:+ String ch_dot x)) in Hf.
  apply String.eqb_neq in Hdd. rewrite Hdd, Hf.
  assert (String.eqb (String c (b +:+ String ch_dot x)) "." = false) as ->.
  { apply String.eqb_neq. intros E. injection E as _ E. by destruct b. }
  simpl. by rewrite last_dot_suffix_app.
Qed.

Lemma extension_no_dot (path : string) c r :
  Path.filename path = String c r -> contains ch_dot r = false ->
  Path.extension path = EmptyString.
Proof.
  intros Hf Hr. unfold Path.extension. cbv zeta. rewrite Hf.
  destruct (_ || _); [done|]. apply last_dot_suffix_none in Hr.
  by rewrite Hr.
Qed.

Lemma filename_nonempty_path (path : string) :
  Path.filename path <> EmptyString -> path <> EmptyString.
Proof. by intros H ->. Qed.

Lemma getFileType_without_period (path : string) :
  Path.filename path <> EmptyString ->
  contains ch_dot (Path.filename path) = false ->
  getFileType path = NO_EXTENSION.
Proof.
  intros Hfe Hd. rewrite getFileType_unfold.
  assert (path <> EmptyString) as Hp%String.eqb_neq
    by by apply filename_nonempty_path.
  destruct (Path.filename path) as [|c r] eqn:Hf; [done|].
  simpl in Hd. apply orb_false_iff in Hd as [Hc Hr].
  rewrite Hp, (extension_no_dot path _ _ Hf Hr). simpl. by rewrite Hc.
Qed.

(** C7. [getFileType] returns [[invalid]] when the path or its file name
    is empty; [[dotfile]] when the file name starts with a period and has
    no further extension (a period followed by a name without period, or
    the name [..]); the lower-cased extension, period included, when the
    file name has one (its suffix from the rightmost period, which is not
    its first character); and [[no extension]] when the file name has no
    period at all.  Lower-casing maps the bytes ['A'..'Z'] and only them.
    The two programs classify alike. *)
Theorem getFileType_classification (path : string) :
  Threaded.getFileType path = getFileType path /\
  (path = EmptyString \/ Path.filename path = EmptyString ->
   getFileType path = "[invalid]") /\
  (forall r, Path.filename path = String ch_dot r ->
             contains ch_dot r = false ->
             getFileType path = "[dotfile]") /\
  (Path.filename path = ".." -> getFileType path = "[dotfile]") /\
  (forall b x, Path.filename path = b +:+ String ch_dot x ->
               b <> EmptyString -> Path.filename path <> ".." ->
               contains ch_dot x = false ->
               getFileType path = String ch_dot (string_map tolower x)) /\
  (Path.filename path <> EmptyString ->
   contains ch_dot (Path.filename path) = false ->
   getFileType path = "[no extension]") /\
  (forall c, tolower c =
             if ((65 <=? N_of_ascii c) && (N_of_ascii c <=? 90))%N
             then ascii_of_N (N_of_ascii c + 32) else c).
Proof.
  split; [apply getFileType_threaded|].
  split.
  { intros [->|Hf]; [done|]. rewrite getFileType_unfold, Hf.
    by destruct (String.eqb path EmptyString). }
  split.
  { intros r Hf Hr. rewrite getFileType_unfold.
    rewrite (extension_no_dot path _ _ Hf Hr), Hf.
    assert (path <> EmptyString) as Hp%String.eqb_neq
      by (apply filename_nonempty_path; by rewrite Hf).
    by rewrite Hp. }
  split.
  { intros Hf. rewrite getFileType_unfold.
    assert (path <> EmptyString) as Hp%String.eqb_neq
      by (apply filename_nonempty_path; by rewrite Hf).
    rewrite Hp. unfold Path.extension. cbv zeta. by rewrite Hf. }
  split.
  { intros b x Hf Hb Hdd Hx. rewrite getFileType_unfold.
    rewrite (extension_of_suffix path b x Hf Hb Hdd Hx).
    assert (Hfe : Path.filename path <> EmptyString)
      by (rewrite Hf; by destruct b).
    assert (path <> EmptyString) as Hp%String.eqb_neq
      by by apply filename_nonempty_path.
    apply String.eqb_neq in Hfe. by rewrite Hp, Hfe. }
  split; [|reflexivity].
  apply getFileType_without_period.
Qed.

Lemma getFileType_classification_witness :
  getFileType "docs/.env" = "[dotfile]"
  /\ getFileType "src/Main.CPP" = ".cpp"
  /\ getFileType "Makefile" = "[no extension]"
  /\ getFileType "docs/" = "[invalid]"
  /\ getFileType "a/.." = "[dotfile]".
Proof.
  split; [|split; [|split; [|split]]].
  - destruct (getFileType_classification "docs/.env") as (_ & _ & H & _).
    apply (H "env"); reflexivity.
  - destruct (getFileType_classification "src/Main.CPP")
      as (_ & _ & _ & _ & H & _).
    apply (H "Main" "CPP"); [reflexivity|discriminate|discriminate|reflexivity].
  - destruct (getFileType_classification "Makefile")
      as (_ & _ & _ & _ & _ & H & _).
    apply H; [discriminate|reflexivity].
  - destruct (getFileType_classification "docs/") as (_ & H & _).
    apply H. right; reflexivity.
  - destruct (getFileType_classification "a/..") as (_ & _ & _ & H & _).
    apply H. reflexivity.
Defined.

Lemma getFileType_no_extension (path : string) :
  getFileType path = NO_EXTENSION <->
  Path.filename path <> EmptyString
  /\ contains ch_dot (Path.filename path) = false.
Proof.
  split.
  - rewrite getFileType_unfold.
    destruct (String.eqb path EmptyString); [discriminate|].
    destruct (String.eqb (Path.filename path) EmptyString) eqn:Hf;
      [discriminate|].
    apply String.eqb_neq in Hf.
    destruct (extension_spec path)
      as [[He Hc]|(c & b & x & _ & _ & _ & He)]; rewrite He; simpl.
    + destruct (starts_with_char ch_dot (Path.filename path)) eqn:Hs;
        [discriminate|]. intros _. split; [done|].
      destruct Hc as [Hc|[Hc|(c & r & Hc & Hr)]]; [done| |].
      * rewrite Hc in Hs. discriminate.
      * rewrite Hc in Hs |- *. simpl in *. by rewrite Hs.
    + discriminate.
  - intros [Hf Hd]. by apply getFileType_without_period.
Qed.

Lemma shouldInclude_singleton_Da (cfg : Da.Config) (key fileType : string) :
  Da.includeTypes cfg = {[ key ]} ->
  Da.shouldInclude cfg fileType = true <-> fileType = key.
Proof.
  intros H. unfold Da.shouldInclude. rewrite H.
  destruct (decide (({[ key ]} : gset string) = ∅)) as [E|_].
  - by apply non_empty_singleton_L in E.
  - by rewrite bool_decide_eq_true, elem_of_singleton.
Qed.

Lemma shouldInclude_singleton_Threaded (cfg : Threaded.Config)
    (key fileType : string) :
  Threaded.includeTypes cfg = {[ key ]} ->
  Threaded.shouldInclude cfg fileType = true <-> fileType = key.
Proof.
  intros H. unfold Threaded.shouldInclude. rewrite H.
  destruct (decide (({[ key ]} : gset string) = ∅)) as [E|_].
  - by apply non_empty_singleton_L in E.
  - by rewrite bool_decide_eq_true, elem_of_singleton.
Qed.

(** C10. [addIncludeType] inserts the label [[no extension]] for the empty
    string and the string itself otherwise, also through the forwarding
    loop of [main]; an analyzer whose only include type was added as the
    empty string admits a path exactly when it is classified
    [[no extension]], that is when its file name is not empty and holds no
    period. *)
Theorem addIncludeType_empty_selects_no_extension :
  (forall inc : gset string,
     addIncludeType EmptyString inc = {[ "[no extension]" ]} ∪ inc) /\
  (forall (t : string) (inc : gset string),
     t <> EmptyString -> addIncludeType t inc = {[ t ]} ∪ inc) /\
  main_includeTypes [EmptyString] = {[ "[no extension]" ]} /\
  (forall (cfg : Da.Config) (path : string),
     Da.includeTypes cfg = addIncludeType EmptyString ∅ ->
     (Da.shouldInclude cfg (getFileType path) = true <->
      getFileType path = "[no extension]") /\
     (Da.shouldInclude cfg (getFileType path) = true <->
      Path.filename path <> EmptyString
      /\ contains ch_dot (Path.filename path) = false)) /\
  (forall (cfg : Threaded.Config) (path : string),
     Threaded.includeTypes cfg = addIncludeType EmptyString ∅ ->
     (Threaded.shouldInclude cfg (Threaded.getFileType path) = true <->
      Threaded.getFileType path = "[no extension]") /\
     (Threaded.shouldInclude cfg (Threaded.getFileType path) = true <->
      Path.filename path <> EmptyString
      /\ contains ch_dot (Path.filename path) = false)).
Proof.
  assert (Hset : addIncludeType EmptyString ∅ = {[ NO_EXTENSION ]}).
  { unfold addIncludeType. simpl. set_solver. }
  split; [reflexivity|].
  split.
  { intros t inc Ht. unfold addIncludeType.
    apply String.eqb_neq in Ht. by rewrite Ht. }
  split.
  { unfold main_includeTypes, addIncludeType. simpl. set_solver. }
  split.
  - intros cfg path H. rewrite Hset in H.
    pose proof (shouldInclude_singleton_Da cfg _ (getFileType path) H) as E.
    split; [exact E|]. rewrite E. apply getFileType_no_extension.
  - intros cfg path H. rewrite Hset in H. rewrite getFileType_threaded.
    pose proof (shouldInclude_singleton_Threaded cfg _ (getFileType path) H)
      as E.
    split; [exact E|]. rewrite E. apply getFileType_no_extension.
Qed.

Lemma addIncludeType_empty_selects_no_extension_witness :
  addIncludeType ".cpp" ∅ = {[ ".cpp" ]} ∪ ∅
  /\ (Da.shouldInclude
        {| Da.excludeDirs := []; Da.includeTypes := addIncludeType "" ∅;
           Da.showHidden := false; Da.sizeThreshold := defaultThreshold |}
        (getFileType "src/Makefile") = true <->
      getFileType "src/Makefile" = "[no extension]")
  /\ (Threaded.shouldInclude
        {| Threaded.excludeDirs := []; 
           Threaded.includeTypes := addIncludeType "" ∅;
           Threaded.showHidden := false;
           Threaded.sizeThreshold := defaultThreshold;
           Threaded.numThreads := 1 |}
        (Threaded.getFileType "src/a.txt") = true <->
      Threaded.getFileType "src/a.txt" = "[no extension]").
Proof.
  destruct addIncludeType_empty_selects_no_extension
    as (_ & H2 & _ & H4 & H5).
  split; [apply H2; discriminate|].
  split.
  - apply H4. reflexivity.
  - apply H5. reflexivity.
Defined.

(* ===================================================================== *)
(** * Overflow of the per-type counters *)
(* ===================================================================== *)

Lemma wrap_small (z : Z) : in_range z -> wrap z = z.
Proof. unfold in_range, wrap, SIZE_MAX. intros H. apply Z.mod_small. lia. Qed.

Lemma wrap_in_range (z : Z) : in_range (wrap z).
Proof.
  unfold in_range, wrap, SIZE_MAX.
  pose proof (Z.mod_pos_bound z SIZE_MOD ltac:(reflexivity)). lia.
Qed.

#[local] Hint Resolve wrap_in_range : analyzer.

(** In [da.cpp], [update] throws exactly when a counter would leave the
    range of [size_t], and otherwise adds without wrapping. *)
Lemma Da_update_checked (st : FileTypeStats.t) (size : Z) :
  in_range (FileTypeStats.count st) ->
  in_range (FileTypeStats.totalSize st) ->
  in_range size ->
  (FileTypeStats.count st + 1 <= SIZE_MAX
   /\ FileTypeStats.totalSize st + size <= SIZE_MAX ->
   Da.update st size =
     ({| FileTypeStats.count := FileTypeStats.count st + 1;
         FileTypeStats.totalSize := FileTypeStats.totalSize st + size |},
      None))
  /\ (FileTypeStats.count st + 1 > SIZE_MAX
      \/ FileTypeStats.totalSize st + size > SIZE_MAX ->
      exists what, snd (Da.update st size) = Some (overflow_error what)).
Proof.
  intros Hc Ht Hs. unfold Da.update. split.
  - intros [H1 H2].
    destruct (Z.eqb_spec (FileTypeStats.count st) SIZE_MAX) as [E|_]; [lia|].
    simpl. rewrite (wrap_small (SIZE_MAX - size)) by (unfold in_range in *; lia).
    destruct (Z.gtb_spec (FileTypeStats.totalSize st) (SIZE_MAX - size));
      [lia|].
    rewrite !wrap_small by (unfold in_range in *; lia). done.
  - intros H.
    destruct (Z.eqb_spec (FileTypeStats.count st) SIZE_MAX) as [E|NE];
      [eexists; reflexivity|].
    simpl. rewrite (wrap_small (SIZE_MAX - size)) by (unfold in_range in *; lia).
    destruct (Z.gtb_spec (FileTypeStats.totalSize st) (SIZE_MAX - size));
      [eexists; reflexivity|].
    unfold in_range in *. lia.
Qed.

(** C6, at the failing input.  The multithreaded [update] wraps both
    counters silently where the [update] of [da.cpp] throws
    [std::overflow_error]: on a full count, on a total that leaves the
    range, and in a whole run over three files of [2^63 - 1] bytes of one
    type. *)
Theorem Threaded_update_wraps_silently :
  Threaded.update {| FileTypeStats.count := SIZE_MAX;
                     FileTypeStats.totalSize := 0 |} 0
  = {| FileTypeStats.count := 0; FileTypeStats.totalSize := 0 |}
  /\ Threaded.update {| FileTypeStats.count := 2;
                        FileTypeStats.totalSize := 2 ^ 64 - 2 |} (2 ^ 63 - 1)
     = {| FileTypeStats.count := 3; FileTypeStats.totalSize := 2 ^ 63 - 3 |}
  /\ snd (Da.update {| FileTypeStats.count := SIZE_MAX;
                       FileTypeStats.totalSize := 0 |} 0)
     = Some (overflow_error "File count overflow")
  /\ snd (Da.update {| FileTypeStats.count := 2;
                       FileTypeStats.totalSize := 2 ^ 64 - 2 |} (2 ^ 63 - 1))
     = Some (overflow_error "Total size overflow")
  /\ Threaded.stats
       (fst (Threaded.analyze no_equivalent (threaded_default 1) "root" 0
               three_huge_files Threaded.init)) !! ".bin"
     = Some {| FileTypeStats.count := 3;
               FileTypeStats.totalSize := 2 ^ 63 - 3 |}.
Proof. repeat split; vm_compute; reflexivity. Qed.

(* ===================================================================== *)
(** * CSV escaping *)
(* ===================================================================== *)

Lemma append_cons (c : ascii) (a b : string) :
  String c a +:+ b = String c (a +:+ b).
Proof. reflexivity. Qed.

Lemma append_nil (b : string) : EmptyString +:+ b = b.
Proof. reflexivity. Qed.

Lemma string_app_assoc (a b c : string) : (a +:+ b) +:+ c = a +:+ (b +:+ c).
Proof.
  induction a as [|x a IH]; [done|]. by rewrite !append_cons, IH.
Qed.

Lemma at_delimiter_not_quote (rest : string) :
  at_delimiter rest = true ->
  match rest with
  | EmptyString => True
  | String c _ => Ascii.eqb c ch_quote = false
  end.
Proof.
  destruct rest as [|c r]; [done|]. simpl.
  intros [H|H]%orb_true_iff; apply Ascii.eqb_eq in H; by subst.
Qed.

Lemma read_quoted_double_quotes (str rest : string) :
  at_delimiter rest = true ->
  read_quoted (Threaded.double_quotes str +:+ String ch_quote rest)
  = Some (str, rest).
Proof.
  intros Hd. induction str as [|c r IH].
  - simpl Threaded.double_quotes. rewrite append_nil. simpl.
    pose proof (at_delimiter_not_quote rest Hd) as H.
    destruct rest as [|c r]; [done|]. by rewrite H.
  - simpl Threaded.double_quotes.
    destruct (Ascii.eqb c ch_quote) eqn:E.
    + apply Ascii.eqb_eq in E as ->. rewrite !append_cons.
      simpl. by rewrite IH.
    + rewrite append_cons. simpl. by rewrite E, IH.
Qed.

Lemma read_plain_verbatim (str rest : string) :
  contains ch_comma str = false -> contains ch_quote str = false ->
  contains ch_lf str = false -> contains ch_cr str = false ->
  at_delimiter rest = true ->
  read_plain (str +:+ rest) = Some (str, rest).
Proof.
  intros H1 H2 H3 H4 Hd. induction str as [|c r IH].
  - rewrite append_nil. destruct rest as [|c r]; [done|].
    simpl in Hd. simpl. by rewrite Hd.
  - simpl in H1, H2, H3, H4.
    apply orb_false_iff in H1 as [H1 H1'], H2 as [H2 H2'], H3 as [H3 H3'],
      H4 as [H4 H4'].
    rewrite append_cons. simpl. by rewrite H1, H2, H3, H4, IH.
Qed.

(** The multithreaded [escapeCSV] can be read back: whatever the label,
    the reader recovers it, and what follows it, from the field
    written. *)
Lemma Threaded_escapeCSV_roundtrip (str rest : string) :
  at_delimiter rest = true ->
  read_field (Threaded.escapeCSV str +:+ rest) = Some (str, rest).
Proof.
  intros Hd. unfold Threaded.escapeCSV.
  destruct (contains ch_comma str || contains ch_quote str
            || contains ch_lf str || contains ch_cr str) eqn:E.
  - rewrite append_cons, string_app_assoc, append_cons, append_nil.
    simpl. by rewrite read_quoted_double_quotes, Hd.
  - apply orb_false_iff in E as [E H4]. apply orb_false_iff in E as [E H3].
    apply orb_false_iff in E as [H1 H2].
    pose proof (read_plain_verbatim str rest H1 H2 H3 H4 Hd) as Hp.
    destruct str as [|c r].
    + rewrite append_nil in *. destruct rest as [|c r]; [done|].
      pose proof (at_delimiter_not_quote _ Hd) as Hq. simpl in Hq.
      unfold read_field. by rewrite Hq.
    + simpl in H2. apply orb_false_iff in H2 as [H2 _].
      rewrite append_cons in *.
      unfold read_field. by rewrite H2.
Qed.

(** The [escapeCSV] of [da.cpp] wraps the field in quotes and leaves every
    character of it as it is. *)
Lemma Da_escapeCSV_never_doubles (str : string) :
  Da.escapeCSV str = str
  \/ Da.escapeCSV str = String ch_quote (str +:+ String ch_quote EmptyString).
Proof.
  unfold Da.escapeCSV. destruct (_ || _); [right|by left].
  do 2 f_equal. induction str as [|c r IH]; [done|]. simpl.
  rewrite IH. destruct (Ascii.eqb c ch_quote) eqn:E; [|done].
  by apply Ascii.eqb_eq in E as ->.
Qed.

(** C5, at the failing input.  For the label [quoted_label], which holds
    one double quote, [da.cpp] writes the label between two quotes with
    the inner quote left single, and a row that starts with this field
    cannot be read back; the multithreaded program writes the inner quote
    twice and the label is recovered. *)
Theorem Da_escapeCSV_quote_not_doubled :
  Da.escapeCSV quoted_label
  = String ch_quote (quoted_label +:+ String ch_quote EmptyString)
  /\ read_field (Da.escapeCSV quoted_label +:+ ",1,10")
     = None
  /\ Threaded.escapeCSV quoted_label
     = String ch_quote
         (".a" +:+ String ch_quote (String ch_quote "b")
          +:+ String ch_quote EmptyString)
  /\ read_field (Threaded.escapeCSV quoted_label +:+ ",1,10")
     = Some (quoted_label, ",1,10").
Proof. repeat split; vm_compute; reflexivity. Qed.

(* ===================================================================== *)
(** * The filter gates and the hidden files *)
(* ===================================================================== *)

(** C9. The size test and the type test are two separate predicates, one
    of the size alone and one of the type alone; a regular file that
    fails either of them leaves the analyzer as it was, in both programs,
    also when it passes the other; and of three files of 500, 2048 and
    5000 bytes under the thresholds 1024 and 4096 only the second is
    counted, with or without an include set that holds their type. *)
Theorem filters_are_independent_gates :
  (forall (cfg : Da.Config) (size : Z),
     Da.isWithinSizeThreshold cfg size = true <->
     minSize (Da.sizeThreshold cfg) <= size <= maxSize (Da.sizeThreshold cfg))
  /\ (forall (cfg : Threaded.Config) (size : Z),
     Threaded.isWithinSizeThreshold cfg size = true <->
     minSize (Threaded.sizeThreshold cfg) <= size
       <= maxSize (Threaded.sizeThreshold cfg))
  /\ (forall (cfg : Da.Config) (type : string),
     Da.shouldInclude cfg type = true <->
     Da.includeTypes cfg = ∅ \/ type ∈ Da.includeTypes cfg)
  /\ (forall (cfg : Threaded.Config) (type : string),
     Threaded.shouldInclude cfg type = true <->
     Threaded.includeTypes cfg = ∅ \/ type ∈ Threaded.includeTypes cfg)
  /\ (forall (cfg : Da.Config) (path : string) (size : Z) (s : Da.State),
     Da.isWithinSizeThreshold cfg size = false
     \/ Da.shouldInclude cfg (getFileType path) = false ->
     Da.analyzeFile cfg path (Some size) s = (s, false))
  /\ (forall (cfg : Threaded.Config) (path : string) (size : Z)
        (s : Threaded.State),
     Threaded.isWithinSizeThreshold cfg size = false
     \/ Threaded.shouldInclude cfg (Threaded.getFileType path) = false ->
     Threaded.processFile cfg path (Some size) = Threaded.Skip
     /\ Threaded.run (Threaded.processFile cfg path (Some size)) s = (s, []))
  /\ (forall types : gset string,
     types = ∅ \/ types = {[ ".txt" ]} ->
     (exists s, Da.analyze no_equivalent (da_sized types) "root"
                  three_sizes Da.init = inr s
                /\ Da.totalFiles s = 1 /\ Da.totalSize s = 2048
                /\ Da.stats s = {[ ".txt" := FileTypeStats.mk 1 2048 ]})
     /\ (forall threads,
           let s := fst (Threaded.analyze no_equivalent
                           (threaded_sized types threads) "root" 0
                           three_sizes Threaded.init) in
           Threaded.totalFiles s = 1 /\ Threaded.totalSize s = 2048
           /\ Threaded.stats s = {[ ".txt" := FileTypeStats.mk 1 2048 ]})).
Proof.
  split.
  { intros cfg size. unfold Da.isWithinSizeThreshold.
    rewrite andb_true_iff, !Z.leb_le. tauto. }
  split.
  { intros cfg size. unfold Threaded.isWithinSizeThreshold.
    rewrite andb_true_iff, !Z.leb_le. tauto. }
  split.
  { intros cfg type. unfold Da.shouldInclude.
    destruct (decide (Da.includeTypes cfg = ∅)) as [E|NE]; [tauto|].
    rewrite bool_decide_eq_true. tauto. }
  split.
  { intros cfg type. unfold Threaded.shouldInclude.
    destruct (decide (Threaded.includeTypes cfg = ∅)) as [E|NE]; [tauto|].
    rewrite bool_decide_eq_true. tauto. }
  split.
  { intros cfg path size s [H|H]; unfold Da.analyzeFile.
    - by rewrite H.
    - rewrite H. by destruct (Da.isWithinSizeThreshold cfg size). }
  split.
  { intros cfg path size s Hor.
    assert (E : Threaded.processFile cfg path (Some size) = Threaded.Skip).
    { destruct Hor as [H|H]; unfold Threaded.processFile.
      - by rewrite H.
      - rewrite H. by destruct (Threaded.isWithinSizeThreshold cfg size). }
    by rewrite E. }
  intros types Htypes. split.
  - destruct Htypes as [->| ->]; eexists; split; try reflexivity;
      repeat split; vm_compute; reflexivity.
  - intros threads. cbv zeta.
    unfold Threaded.analyze, Threaded.processDirectory,
      Threaded.directoryTask.
    set (subDirs := Threaded.scan _ _ (Threaded.visitSubDir _ _) _).
    assert (subDirs = []) as -> by reflexivity.
    rewrite andb_false_r.
    destruct Htypes as [->| ->]; repeat split; vm_compute; reflexivity.
Qed.

Lemma filters_are_independent_gates_witness :
  Da.analyzeFile (da_sized {[ ".txt" ]}) "root/small.txt" (Some 500) Da.init
  = (Da.init, false)
  /\ Threaded.processFile (threaded_sized {[ ".txt" ]} 4) "root/big.txt"
       (Some 5000) = Threaded.Skip
  /\ exists s, Da.analyze no_equivalent (da_sized ∅) "root" three_sizes
                 Da.init = inr s /\ Da.totalFiles s = 1.
Proof.
  destruct filters_are_independent_gates as (_ & _ & _ & _ & H5 & H6 & H7).
  split; [apply H5; left; reflexivity|].
  split; [apply (H6 _ _ _ Threaded.init); left; reflexivity|].
  destruct (H7 ∅ (or_introl eq_refl)) as [(s & Hs & Ht & _) _].
  exists s; auto.
Defined.

(** The branch for one regular file that passes both gates and whose
    name starts with a period, in one call of the loop body of [da.cpp]
    and of [processFile]: when hidden files are not shown, both
    programs increment [hiddenFiles], add its size to [hiddenSize] and
    to [totalSize], and leave the per-type map and [totalFiles] as they
    were; when hidden
    files are shown, both programs treat it as they treat any file of
    the same type and size: the hidden counters stay as they were, its
    type entry gets one more file and its size, and [totalFiles] and
    [totalSize] grow by one and by its size.  The file [.env] of 100
    bytes gives [hiddenFiles = 1], [hiddenSize = 100] and no type entry
    in the first case, and the entry [[dotfile]] with one file of 100
    bytes and [totalFiles = 1] in the second. *)
Theorem hidden_file_accounting :
  (forall (cfg : Da.Config) (path : string) (size : Z) (s : Da.State),
     Da.isWithinSizeThreshold cfg size = true ->
     Da.shouldInclude cfg (getFileType path) = true ->
     starts_with_char ch_dot (Path.filename path) = true ->
     (Da.showHidden cfg = false ->
      Da.analyzeFile cfg path (Some size) s =
        ({| Da.stats := Da.stats s;
            Da.totalFiles := Da.totalFiles s;
            Da.totalSize := wrap (Da.totalSize s + size);
            Da.hiddenFiles := wrap (Da.hiddenFiles s + 1);
            Da.hiddenSize := wrap (Da.hiddenSize s + size) |}, false))
     /\ (Da.showHidden cfg = true ->
         (forall path', getFileType path' = getFileType path ->
                        Da.analyzeFile cfg path' (Some size) s
                        = Da.analyzeFile cfg path (Some size) s)
         /\ Da.hiddenFiles (fst (Da.analyzeFile cfg path (Some size) s))
            = Da.hiddenFiles s
         /\ Da.hiddenSize (fst (Da.analyzeFile cfg path (Some size) s))
            = Da.hiddenSize s
         /\ (forall st,
               st = default FileTypeStats.zero
                      (Da.stats s !! getFileType path) ->
               in_range (FileTypeStats.count st) ->
               in_range (FileTypeStats.totalSize st) ->
               in_range size ->
               FileTypeStats.count st + 1 <= SIZE_MAX ->
               FileTypeStats.totalSize st + size <= SIZE_MAX ->
               Da.analyzeFile cfg path (Some size) s =
                 ({| Da.stats :=
                       <[getFileType path :=
                           FileTypeStats.mk (FileTypeStats.count st + 1)
                             (FileTypeStats.totalSize st + size)]>
                         (Da.stats s);
                     Da.totalFiles := wrap (Da.totalFiles s + 1);
                     Da.totalSize := wrap (Da.totalSize s + size);
                     Da.hiddenFiles := Da.hiddenFiles s;
                     Da.hiddenSize := Da.hiddenSize s |}, false))))
  /\ (forall (cfg : Threaded.Config) (path : string) (size : Z)
        (s : Threaded.State),
     Threaded.isWithinSizeThreshold cfg size = true ->
     Threaded.shouldInclude cfg (Threaded.getFileType path) = true ->
     starts_with_char ch_dot (Path.filename path) = true ->
     (Threaded.showHidden cfg = false ->
      fst (Threaded.run (Threaded.processFile cfg path (Some size)) s) =
        {| Threaded.stats := Threaded.stats s;
           Threaded.totalFiles := Threaded.totalFiles s;
           Threaded.totalSize := wrap (Threaded.totalSize s + size);
           Threaded.hiddenFiles := wrap (Threaded.hiddenFiles s + 1);
           Threaded.hiddenSize := wrap (Threaded.hiddenSize s + size);
           Threaded.processedDirs := Threaded.processedDirs s |})
     /\ (Threaded.showHidden cfg = true ->
         (forall path',
            Threaded.getFileType path' = Threaded.getFileType path ->
            Threaded.processFile cfg path' (Some size)
            = Threaded.processFile cfg path (Some size))
         /\ fst (Threaded.run (Threaded.processFile cfg path (Some size)) s) =
            {| Threaded.stats :=
                 <[Threaded.getFileType path :=
                     FileTypeStats.mk
                       (wrap (FileTypeStats.count
                                (default FileTypeStats.zero
                                   (Threaded.stats s
                                      !! Threaded.getFileType path)) + 1))
                       (wrap (FileTypeStats.totalSize
                                (default FileTypeStats.zero
                                   (Threaded.stats s
                                      !! Threaded.getFileType path)) + size))]>
                   (Threaded.stats s);
               Threaded.totalFiles := wrap (Threaded.totalFiles s + 1);
               Threaded.totalSize := wrap (Threaded.totalSize s + size);
               Threaded.hiddenFiles := Threaded.hiddenFiles s;
               Threaded.hiddenSize := Threaded.hiddenSize s;
               Threaded.processedDirs := Threaded.processedDirs s |}))
  /\ Da.analyze no_equivalent (da_hidden false) "root" env_only Da.init
     = inr {| Da.stats := ∅; Da.totalFiles := 0; Da.totalSize := 100;
              Da.hiddenFiles := 1; Da.hiddenSize := 100 |}
  /\ Da.analyze no_equivalent (da_hidden true) "root" env_only Da.init
     = inr {| Da.stats := {[ "[dotfile]" := FileTypeStats.mk 1 100 ]};
              Da.totalFiles := 1; Da.totalSize := 100;
              Da.hiddenFiles := 0; Da.hiddenSize := 0 |}
  /\ fst (Threaded.analyze no_equivalent (threaded_hidden false) "root" 0
            env_only Threaded.init)
     = {| Threaded.stats := ∅; Threaded.totalFiles := 0;
          Threaded.totalSize := 100; Threaded.hiddenFiles := 1;
          Threaded.hiddenSize := 100;
          Threaded.processedDirs := {[ "root" ]} |}
  /\ fst (Threaded.analyze no_equivalent (threaded_hidden true) "root" 0
            env_only Threaded.init)
     = {| Threaded.stats := {[ "[dotfile]" := FileTypeStats.mk 1 100 ]};
          Threaded.totalFiles := 1; Threaded.totalSize := 100;
          Threaded.hiddenFiles := 0; Threaded.hiddenSize := 0;
          Threaded.processedDirs := {[ "root" ]} |}.
Proof.
  split.
  { intros cfg path size s Hw Hi Hd. split.
    - intros Hh. unfold Da.analyzeFile. by rewrite Hw, Hi, Hd, Hh.
    - intros Hh.
      assert (Hun : forall p, getFileType p = getFileType path ->
                Da.analyzeFile cfg p (Some size) s =
                match Da.updateStats (getFileType path) size s with
                | (s1, Some _) => (s1, false)
                | (s1, None) =>
                    (Da.addTotalSize size (Da.incTotalFiles s1), false)
                end).
      { intros p Hp. unfold Da.analyzeFile.
        rewrite Hw, Hp, Hi, Hh, andb_false_r. done. }
      split; [intros p Hp; by rewrite (Hun p Hp), (Hun path eq_refl)|].
      rewrite (Hun path eq_refl). unfold Da.updateStats.
      split; [|split].
      + by destruct (Da.update _ size) as [st [x|]].
      + by destruct (Da.update _ size) as [st [x|]].
      + intros st -> Hc Ht Hs Hc1 Ht1.
        destruct (Da_update_checked _ size Hc Ht Hs) as [Hok _].
        by rewrite (Hok (conj Hc1 Ht1)). }
  split.
  { intros cfg path size s Hw Hi Hd. split.
    - intros Hh. unfold Threaded.processFile. by rewrite Hw, Hi, Hd, Hh.
    - intros Hh. split.
      + intros p Hp. unfold Threaded.processFile.
        by rewrite Hw, Hp, Hi, Hh, !andb_false_r.
      + unfold Threaded.processFile.
        by rewrite Hw, Hi, Hh, andb_false_r. }
  repeat split; vm_compute; reflexivity.
Qed.

Lemma hidden_file_accounting_witness :
  Da.analyzeFile (da_hidden false) "root/.env" (Some 100) Da.init
  = ({| Da.stats := ∅; Da.totalFiles := 0; Da.totalSize := wrap (0 + 100);
        Da.hiddenFiles := wrap (0 + 1); Da.hiddenSize := wrap (0 + 100) |},
     false)
  /\ Da.analyzeFile (da_hidden true) "root/.env" (Some 100) Da.init
     = ({| Da.stats := <[ "[dotfile]" := FileTypeStats.mk (0 + 1) (0 + 100) ]> ∅;
           Da.totalFiles := wrap (0 + 1); Da.totalSize := wrap (0 + 100);
           Da.hiddenFiles := 0; Da.hiddenSize := 0 |}, false)
  /\ Threaded.hiddenFiles
       (fst (Threaded.run
               (Threaded.processFile (threaded_hidden false) "root/.env"
                  (Some 100)) Threaded.init)) = 1.
Proof.
  destruct hidden_file_accounting as (HDa & HTh & _).
  split; [|split].
  - destruct (HDa (da_hidden false) "root/.env" 100 Da.init
                eq_refl eq_refl eq_refl) as [H _].
    apply (H eq_refl).
  - destruct (HDa (da_hidden true) "root/.env" 100 Da.init
                eq_refl eq_refl eq_refl) as [_ H].
    destruct (H eq_refl) as (_ & _ & _ & H').
    apply (H' FileTypeStats.zero); try reflexivity;
      concrete_range.
  - destruct (HTh (threaded_hidden false) "root/.env" 100 Threaded.init
                eq_refl eq_refl eq_refl) as [H _].
    rewrite (H eq_refl). reflexivity.
Defined.

(* ===================================================================== *)
(** * Closed accounting *)
(* ===================================================================== *)

Lemma wrap_wrap (z : Z) : wrap (wrap z) = wrap z.
Proof. unfold wrap. apply Z.mod_mod. discriminate. Qed.

Lemma wrap_add_l (a b : Z) : wrap (wrap a + b) = wrap (a + b).
Proof. unfold wrap. apply Zplus_mod_idemp_l. Qed.

Lemma wrap_add_r (a b : Z) : wrap (a + wrap b) = wrap (a + b).
Proof. unfold wrap. apply Zplus_mod_idemp_r. Qed.

Lemma wrap_eq_add (a b c : Z) : wrap a = wrap b -> wrap (a + c) = wrap (b + c).
Proof.
  intros H. rewrite <- (wrap_add_l a), <- (wrap_add_l b). by rewrite H.
Qed.

Lemma sum_sizes_insert (m : gmap string FileTypeStats.t) k v :
  sum_sizes (<[k := v]> m) =
  sum_sizes m - FileTypeStats.totalSize (default FileTypeStats.zero (m !! k))
  + FileTypeStats.totalSize v.
Proof.
  unfold sum_sizes. destruct (m !! k) as [old|] eqn:Hk; simpl.
  - rewrite <- (insert_delete_eq m).
    rewrite map_fold_insert_L; [|intros; lia|apply lookup_delete_eq].
    rewrite (map_fold_delete_L _ _ k old m); [lia|intros; lia|done].
  - rewrite map_fold_insert_L; [lia|intros; lia|done].
Qed.

(** Induction on a tree of entries. *)
Lemma entry_nested_ind (P : entry -> Prop) :
  (forall n sz, P (EFile n sz)) ->
  (forall n i children, Forall P children -> P (EDir n i children)) ->
  (forall n, P (EOther n)) ->
  (forall n, P (EThrow n)) ->
  forall e, P e.
Proof.
  intros HF HD HO HT. fix IH 1. intros [n sz|n i children|n|n].
  - apply HF.
  - apply HD. induction children as [|c cs IHcs]; constructor.
    + apply IH.
    + exact IHcs.
  - apply HO.
  - apply HT.
Qed.

Lemma Da_loop_preserves (I : Da.State -> Prop)
    (body : entry -> Da.State -> exn + (Da.State * bool)) (es : list entry) :
  Forall (fun e => forall s s' ec, I s -> body e s = inr (s', ec) -> I s') es ->
  forall ec s s', I s -> Da.loop body es ec s = inr s' -> I s'.
Proof.
  induction 1 as [|e es He _ IH]; intros ec s s' Hs Hrun; simpl in Hrun.
  - by injection Hrun as <-.
  - destruct ec; [by eapply IH|].
    destruct (body e s) as [x|[s1 ec1]] eqn:Hb; [discriminate|].
    eapply IH; [|exact Hrun]. eapply He; eauto.
Qed.

Lemma Da_update_totalSize (st : FileTypeStats.t) (size : Z) :
  let '(st', err) := Da.update st size in
  wrap (FileTypeStats.totalSize st') =
  wrap (FileTypeStats.totalSize st
        + match err with None => size | Some _ => 0 end).
Proof.
  unfold Da.update.
  destruct (FileTypeStats.count st =? SIZE_MAX); simpl.
  { by rewrite Z.add_0_r. }
  destruct (FileTypeStats.totalSize st >? wrap (SIZE_MAX - size)); simpl.
  - by rewrite Z.add_0_r.
  - apply wrap_wrap.
Qed.

Lemma Da_updateStats_sum (key : string) (size : Z) (s : Da.State) :
  let '(s1, err) := Da.updateStats key size s in
  wrap (sum_sizes (Da.stats s1)) =
  wrap (sum_sizes (Da.stats s)
        + match err with None => size | Some _ => 0 end)
  /\ Da.totalFiles s1 = Da.totalFiles s /\ Da.totalSize s1 = Da.totalSize s
  /\ Da.hiddenFiles s1 = Da.hiddenFiles s
  /\ Da.hiddenSize s1 = Da.hiddenSize s.
Proof.
  unfold Da.updateStats.
  pose proof (Da_update_totalSize
                (default FileTypeStats.zero (Da.stats s !! key)) size) as H.
  destruct (Da.update _ size) as [st' err]. simpl.
  split; [|done]. rewrite sum_sizes_insert.
  set (old := FileTypeStats.totalSize _) in *.
  set (d := match err with None => size | Some _ => 0 end) in *.
  replace (sum_sizes (Da.stats s) - old + FileTypeStats.totalSize st')
    with ((sum_sizes (Da.stats s) - old) + FileTypeStats.totalSize st') by lia.
  rewrite <- wrap_add_r, H, wrap_add_r. f_equal. lia.
Qed.

Lemma Da_accounted_counted (key : string) (size : Z) (s s1 : Da.State) :
  Da_accounted s -> Da.updateStats key size s = (s1, None) ->
  Da_accounted (Da.addTotalSize size (Da.incTotalFiles s1)).
Proof.
  intros [Hs Hr] Hu. pose proof (Da_updateStats_sum key size s) as H.
  rewrite Hu in H. destruct H as (Hsum & _ & Ht & _ & Hh).
  split; [|apply wrap_in_range]. simpl. rewrite Hh, Ht, wrap_wrap.
  rewrite <- wrap_add_l, Hsum, wrap_add_l.
  replace (sum_sizes (Da.stats s) + size + Da.hiddenSize s)
    with (sum_sizes (Da.stats s) + Da.hiddenSize s + size) by lia.
  by apply wrap_eq_add.
Qed.

Lemma Da_accounted_failed (key : string) (size : Z) (s s1 : Da.State) x :
  Da_accounted s -> Da.updateStats key size s = (s1, Some x) ->
  Da_accounted s1.
Proof.
  intros [Hs Hr] Hu. pose proof (Da_updateStats_sum key size s) as H.
  rewrite Hu in H. destruct H as (Hsum & _ & Ht & _ & Hh).
  split; [|by rewrite Ht]. rewrite Hh, Ht, <- Hs.
  rewrite <- wrap_add_l, Hsum, wrap_add_l. f_equal. lia.
Qed.

Lemma Da_accounted_hidden (size : Z) (s : Da.State) :
  Da_accounted s -> Da_accounted (Da.addTotalSize size (Da.addHidden size s)).
Proof.
  intros [Hs Hr]. split; [|apply wrap_in_range]. simpl.
  rewrite wrap_wrap, wrap_add_r.
  replace (sum_sizes (Da.stats s) + (Da.hiddenSize s + size))
    with (sum_sizes (Da.stats s) + Da.hiddenSize s + size) by lia.
  by apply wrap_eq_add.
Qed.

Lemma Da_analyzeFile_accounted cfg path size (s : Da.State) :
  Da_accounted s -> Da_accounted (fst (Da.analyzeFile cfg path size s)).
Proof.
  intros Hs. unfold Da.analyzeFile. destruct size as [size|]; [|done].
  destruct (negb (Da.isWithinSizeThreshold cfg size)); [done|].
  destruct (negb (Da.shouldInclude cfg (getFileType path))); [done|].
  destruct (_ && _); [by apply Da_accounted_hidden|].
  destruct (Da.updateStats _ size s) as [s1 [x|]] eqn:Hu; simpl.
  - by eapply Da_accounted_failed.
  - by eapply Da_accounted_counted.
Qed.

Lemma Da_analyzeGit_accounted cfg children (s s' : Da.State) :
  Da_accounted s -> Da.analyzeGit cfg children s = inr s' -> Da_accounted s'.
Proof.
  intros Hs. unfold Da.analyzeGit.
  destruct (Da.calculateDirectorySize children) as [x|gitSize];
    [discriminate|].
  destruct (Da.showHidden cfg).
  - destruct (Da.updateStats GIT gitSize s) as [s1 [x|]] eqn:Hu;
      [discriminate|].
    intros [= <-]. by eapply Da_accounted_counted.
  - intros [= <-]. by apply Da_accounted_hidden.
Qed.

Lemma Da_analyzeEntry_accounted fs cfg (e : entry) :
  forall dir s s' ec,
    Da_accounted s -> Da.analyzeEntry fs cfg dir e s = inr (s', ec) ->
    Da_accounted s'.
Proof.
  induction e as [n sz|n i children IH|n|n] using entry_nested_ind;
    intros dir s s' ec Hs; simpl;
    destruct (Da.shouldExclude fs cfg _); try (by intros [= <- <-]);
    try discriminate.
  - intros [= H]. pose proof (Da_analyzeFile_accounted cfg
      (Path.append dir n) sz s Hs) as Ha. by rewrite H in Ha.
  - destruct (String.eqb _ GIT).
    + destruct (Da.analyzeGit cfg children s) as [x|s1] eqn:Hg;
        [discriminate|]. intros [= <- <-]. by eapply Da_analyzeGit_accounted.
    + destruct (Da.loop _ children false s) as [x|s1] eqn:Hl;
        [discriminate|]. intros [= <- <-].
      eapply (Da_loop_preserves Da_accounted); [|exact Hs|exact Hl].
      eapply Forall_impl; [exact IH|]. simpl. intros e He s0 s0' ec0.
      apply He.
Qed.

Lemma Da_analyze_accounted fs cfg path listing (s s' : Da.State) :
  Da_accounted s -> Da.analyze fs cfg path listing s = inr s' ->
  Da_accounted s'.
Proof.
  intros Hs Hrun. unfold Da.analyze in Hrun.
  eapply (Da_loop_preserves Da_accounted); [|exact Hs|exact Hrun].
  apply Forall_forall. intros e _ s0 s0' ec0.
  apply Da_analyzeEntry_accounted.
Qed.

Lemma wrap_sub_l (a b : Z) : wrap (wrap a - b) = wrap (a - b).
Proof. unfold wrap. apply Zminus_mod_idemp_l. Qed.

Lemma wrap_sub_r (a b : Z) : wrap (a - wrap b) = wrap (a - b).
Proof. unfold wrap. apply Zminus_mod_idemp_r. Qed.

Lemma apply_imbalance (a : Threaded.action) (s : Threaded.State) :
  wrap (imbalance (Threaded.apply a s)) = wrap (imbalance s + bal a).
Proof.
  unfold imbalance. destruct a as [z| |z|key z]; simpl.
  - replace (wrap (Threaded.totalSize s + z) - Threaded.hiddenSize s
             - sum_sizes (Threaded.stats s))
      with (wrap (Threaded.totalSize s + z)
            - (Threaded.hiddenSize s + sum_sizes (Threaded.stats s))) by lia.
    rewrite wrap_sub_l. f_equal. lia.
  - f_equal. lia.
  - replace (Threaded.totalSize s - wrap (Threaded.hiddenSize s + z)
             - sum_sizes (Threaded.stats s))
      with (Threaded.totalSize s - sum_sizes (Threaded.stats s)
            - wrap (Threaded.hiddenSize s + z)) by lia.
    rewrite wrap_sub_r. f_equal. lia.
  - rewrite sum_sizes_insert. simpl.
    set (old := FileTypeStats.totalSize _).
    replace (Threaded.totalSize s - Threaded.hiddenSize s
             - (sum_sizes (Threaded.stats s) - old + wrap (old + z)))
      with (Threaded.totalSize s - Threaded.hiddenSize s
            - sum_sizes (Threaded.stats s) + old - wrap (old + z)) by lia.
    rewrite wrap_sub_r. f_equal. lia.
Qed.

Lemma apply_totalSize_in_range (a : Threaded.action) (s : Threaded.State) :
  in_range (Threaded.totalSize s) ->
  in_range (Threaded.totalSize (Threaded.apply a s)).
Proof. destruct a; simpl; auto with analyzer. Qed.

(** One step keeps the balance between the state and what is left to
    do. *)
Lemma step_balance s p l s' p' :
  Threaded.step s p l s' p' ->
  claims_balanced p ->
  claims_balanced p'
  /\ wrap (imbalance s' + pending p') = wrap (imbalance s + pending p)
  /\ (in_range (Threaded.totalSize s) -> in_range (Threaded.totalSize s')).
Proof.
  induction 1 as [s a|s p l s' p' q _ IH|s q|s p l s' p' q _ IH
                  |s p q l s' q' _ IH|s|s path i body Hin
                  |s path i body Hnin]; simpl; intros Hb.
  - split; [done|]. split; [|apply apply_totalSize_in_range].
    rewrite Z.add_0_r. apply apply_imbalance.
  - destruct Hb as [Hp Hq]. destruct (IH Hp) as (Hp' & He & Hr).
    split; [done|]. split; [|done].
    rewrite !Z.add_assoc. by apply wrap_eq_add.
  - destruct Hb as [_ Hq]. split; [done|]. split; [|done]. f_equal; lia.
  - destruct Hb as [Hp Hq]. destruct (IH Hp) as (Hp' & He & Hr).
    split; [done|]. split; [|done].
    rewrite !Z.add_assoc. by apply wrap_eq_add.
  - destruct Hb as [Hp Hq]. destruct (IH Hq) as (Hq' & He & Hr).
    split; [done|]. split; [|done].
    replace (imbalance s' + (pending p + pending q'))
      with (imbalance s' + pending q' + pending p) by lia.
    replace (imbalance s + (pending p + pending q))
      with (imbalance s + pending q + pending p) by lia.
    by apply wrap_eq_add.
  - split; [done|]. split; [|done]. f_equal; lia.
  - destruct Hb as [Hz _]. split; [done|]. split; [|done].
    by rewrite Hz.
  - destruct Hb as [_ Hb]. split; [done|]. split; [|done]. done.
Qed.

Lemma steps_balance s p tr s' p' :
  Threaded.steps s p tr s' p' ->
  claims_balanced p ->
  claims_balanced p'
  /\ wrap (imbalance s' + pending p') = wrap (imbalance s + pending p)
  /\ (in_range (Threaded.totalSize s) -> in_range (Threaded.totalSize s')).
Proof.
  induction 1 as [s p|s p l s1 p1 tr s2 p2 Hstep _ IH]; intros Hb.
  - done.
  - destruct (step_balance _ _ _ _ _ Hstep Hb) as (Hb1 & He1 & Hr1).
    destruct (IH Hb1) as (Hb2 & He2 & Hr2).
    split; [done|]. split; [by rewrite He2|auto].
Qed.

Lemma pending_seq_all (ps : list Threaded.prog) :
  pending (Threaded.seq_all ps) = pending_list ps.
Proof. induction ps as [|p ps IH]; simpl; [done|by rewrite IH]. Qed.

Lemma pending_par_all (ps : list Threaded.prog) :
  pending (Threaded.par_all ps) = pending_list ps.
Proof. induction ps as [|p ps IH]; simpl; [done|by rewrite IH]. Qed.

Lemma claims_balanced_seq_all (ps : list Threaded.prog) :
  Forall claims_balanced ps -> claims_balanced (Threaded.seq_all ps).
Proof. induction 1; simpl; auto. Qed.

Lemma claims_balanced_par_all (ps : list Threaded.prog) :
  Forall claims_balanced ps -> claims_balanced (Threaded.par_all ps).
Proof. induction 1; simpl; auto. Qed.

#[local] Hint Resolve claims_balanced_seq_all claims_balanced_par_all
  : analyzer.

Lemma pending_list_cons (p : Threaded.prog) (ps : list Threaded.prog) :
  pending_list (p :: ps) = pending p + pending_list ps.
Proof. reflexivity. Qed.

Lemma pending_list_app (ps qs : list Threaded.prog) :
  pending_list (ps ++ qs) = pending_list ps + pending_list qs.
Proof. induction ps as [|p ps IH]; simpl; [done|rewrite IH; lia]. Qed.

(** A property of the task of every entry holds of the whole listing. *)
Lemma scan_pending ex dir (visit : string -> entry -> list Threaded.prog) es :
  Forall (fun e => forall path, pending_list (visit path e) = 0) es ->
  pending_list (Threaded.scan ex dir visit es) = 0.
Proof.
  induction 1 as [|e es He _ IH]; simpl; [done|].
  destruct (ex _); [done|].
  destruct e; try done; by rewrite pending_list_app, He, IH.
Qed.

Lemma scan_Forall {A} (Q : A -> Prop) ex dir
    (visit : string -> entry -> list A) es :
  Forall (fun e => forall path, Forall Q (visit path e)) es ->
  Forall Q (Threaded.scan ex dir visit es).
Proof.
  induction 1 as [|e es He _ IH]; simpl; [done|].
  destruct (ex _); [done|].
  destruct e; try done; apply Forall_app; auto.
Qed.

Lemma processFile_balanced cfg path size :
  pending (Threaded.processFile cfg path size) = 0
  /\ claims_balanced (Threaded.processFile cfg path size).
Proof.
  unfold Threaded.processFile. destruct size as [size|]; [|done].
  destruct (negb _); [done|]. destruct (negb _); [done|].
  destruct (_ && _); simpl; split; auto; lia.
Qed.

Lemma processGit_balanced cfg children :
  pending_list (Threaded.processGit cfg children) = 0
  /\ Forall claims_balanced (Threaded.processGit cfg children).
Proof.
  unfold Threaded.processGit.
  destruct (foldM _ children 0) as [x|g]; [done|].
  destruct (Threaded.showHidden cfg); simpl;
    (split; [lia|repeat constructor]).
Qed.

Lemma directoryTask_balanced fs cfg dirPath ident listing subDirs :
  pending_list subDirs = 0 -> Forall claims_balanced subDirs ->
  pending (Threaded.directoryTask fs cfg dirPath ident listing subDirs) = 0
  /\ claims_balanced
       (Threaded.directoryTask fs cfg dirPath ident listing subDirs).
Proof.
  intros Hp Hc. unfold Threaded.directoryTask.
  set (git := Threaded.scan _ _ (Threaded.visitGit cfg) listing).
  set (files := Threaded.scan _ _ (Threaded.visitFile cfg) listing).
  assert (Hgit : pending_list git = 0 /\ Forall claims_balanced git).
  { split; [apply scan_pending|apply scan_Forall]; apply Forall_forall;
      intros e _ path; destruct e; simpl; try done;
      destruct (String.eqb _ GIT); try done; apply processGit_balanced. }
  assert (Hfiles : pending_list files = 0 /\ Forall claims_balanced files).
  { split; [apply scan_pending|apply scan_Forall]; apply Forall_forall;
      intros e _ path; destruct e; simpl; try done.
    - destruct (processFile_balanced cfg path size) as [-> _]. done.
    - constructor; [apply processFile_balanced|done]. }
  destruct Hgit as [Hg1 Hg2], Hfiles as [Hf1 Hf2].
  assert (Hsub : pending (if (Threaded.numThreads cfg >? 1)
                             && (Z.of_nat (length subDirs) >? 1)
                          then Threaded.par_all subDirs
                          else Threaded.seq_all subDirs) = 0
                 /\ claims_balanced
                      (if (Threaded.numThreads cfg >? 1)
                          && (Z.of_nat (length subDirs) >? 1)
                       then Threaded.par_all subDirs
                       else Threaded.seq_all subDirs)).
  { destruct (_ && _).
    - by rewrite pending_par_all; auto with analyzer.
    - by rewrite pending_seq_all; auto with analyzer. }
  destruct Hsub as [Hs1 Hs2].
  assert (pending (Threaded.Seq (Threaded.seq_all git)
            (Threaded.Seq (Threaded.seq_all files)
               (if (Threaded.numThreads cfg >? 1)
                   && (Z.of_nat (length subDirs) >? 1)
                then Threaded.par_all subDirs
                else Threaded.seq_all subDirs))) = 0) as Hbody.
  { simpl. rewrite !pending_seq_all, Hg1, Hf1, Hs1. done. }
  simpl in *. repeat split; auto with analyzer.
Qed.

Lemma visitSubDir_dir fs cfg path n i children :
  Threaded.visitSubDir fs cfg path (EDir n i children) =
  if String.eqb (Path.filename path) GIT then []
  else [Threaded.directoryTask fs cfg path i children
          (Threaded.scan (Threaded.shouldExclude fs cfg) path
             (Threaded.visitSubDir fs cfg) children)].
Proof. reflexivity. Qed.

Lemma visitSubDir_balanced fs cfg (e : entry) :
  forall path,
    pending_list (Threaded.visitSubDir fs cfg path e) = 0
    /\ Forall claims_balanced (Threaded.visitSubDir fs cfg path e).
Proof.
  induction e as [n sz|n i children IH|n|n] using entry_nested_ind;
    intros path; try done.
  rewrite visitSubDir_dir.
  destruct (String.eqb _ GIT); [done|].
  destruct (directoryTask_balanced fs cfg path i children
              (Threaded.scan (Threaded.shouldExclude fs cfg) path
                 (Threaded.visitSubDir fs cfg) children)) as [Hp Hc].
  - apply scan_pending. eapply Forall_impl; [exact IH|].
    intros e He p. apply He.
  - apply scan_Forall. eapply Forall_impl; [exact IH|].
    intros e He p. apply He.
  - rewrite pending_list_cons, Hp.
    split; [done|]. by constructor.
Qed.

Lemma processDirectory_balanced fs cfg dirPath ident listing :
  pending (Threaded.processDirectory fs cfg dirPath ident listing) = 0
  /\ claims_balanced
       (Threaded.processDirectory fs cfg dirPath ident listing).
Proof.
  unfold Threaded.processDirectory. apply directoryTask_balanced.
  - apply scan_pending. apply Forall_forall. intros e _ p.
    apply visitSubDir_balanced.
  - apply scan_Forall. apply Forall_forall. intros e _ p.
    apply visitSubDir_balanced.
Qed.

(** Every execution of [processDirectory] that runs to its end, under
    any schedule, carries a balanced state to a balanced state. *)
Lemma Threaded_processDirectory_accounted fs cfg dirPath ident listing
    s tr s' :
  Threaded_accounted s ->
  Threaded.steps s (Threaded.processDirectory fs cfg dirPath ident listing)
    tr s' Threaded.Skip ->
  Threaded_accounted s'.
Proof.
  intros [Hs Hr] Hrun.
  destruct (processDirectory_balanced fs cfg dirPath ident listing)
    as [Hp Hc].
  destruct (steps_balance _ _ _ _ _ Hrun Hc) as (_ & He & Hr').
  rewrite Hp in He. simpl in He. rewrite !Z.add_0_r in He.
  split; [|auto].
  assert (Hi : wrap (imbalance s) = 0).
  { unfold imbalance.
    replace (Threaded.totalSize s - Threaded.hiddenSize s
             - sum_sizes (Threaded.stats s))
      with (Threaded.totalSize s
            - (sum_sizes (Threaded.stats s) + Threaded.hiddenSize s)) by lia.
    rewrite <- wrap_sub_l, <- wrap_sub_r, Hs, wrap_sub_r, wrap_sub_l.
    rewrite Z.sub_diag. reflexivity. }
  rewrite Hi in He. unfold imbalance in He.
  set (t := Threaded.totalSize s') in *.
  set (rest := sum_sizes (Threaded.stats s') + Threaded.hiddenSize s').
  replace (t - Threaded.hiddenSize s' - sum_sizes (Threaded.stats s'))
    with (t - rest) in He by (unfold rest; lia).
  replace rest with (t - (t - rest)) by lia.
  rewrite <- wrap_sub_r, He, Z.sub_0_r. done.
Qed.

Lemma steps_trans s p t1 s1 p1 t2 s2 p2 :
  Threaded.steps s p t1 s1 p1 -> Threaded.steps s1 p1 t2 s2 p2 ->
  Threaded.steps s p (t1 ++ t2) s2 p2.
Proof.
  induction 1 as [s p|s p l s1 p1 tr s3 p3 Hstep _ IH]; intros H2; [done|].
  rewrite <- app_assoc. econstructor; eauto.
Qed.

Lemma steps_one s p l s' p' :
  Threaded.step s p l s' p' -> Threaded.steps s p l s' p'.
Proof.
  intros H. rewrite <- (app_nil_r l). econstructor; [exact H|constructor].
Qed.

Lemma steps_seq s p t s' p' q :
  Threaded.steps s p t s' p' ->
  Threaded.steps s (Threaded.Seq p q) t s' (Threaded.Seq p' q).
Proof.
  induction 1; [constructor|].
  econstructor; [apply Threaded.step_seq|]; eauto.
Qed.

Lemma steps_par_l s p t s' p' q :
  Threaded.steps s p t s' p' ->
  Threaded.steps s (Threaded.Par p q) t s' (Threaded.Par p' q).
Proof.
  induction 1; [constructor|].
  econstructor; [apply Threaded.step_par_l|]; eauto.
Qed.

Lemma steps_par_r s p q t s' q' :
  Threaded.steps s q t s' q' ->
  Threaded.steps s (Threaded.Par p q) t s' (Threaded.Par p q').
Proof.
  induction 1; [constructor|].
  econstructor; [apply Threaded.step_par_r|]; eauto.
Qed.

(** [run] is one of the executions: every call can run to its end. *)
Lemma run_steps (p : Threaded.prog) :
  forall s, Threaded.steps s p (snd (Threaded.run p s))
              (fst (Threaded.run p s)) Threaded.Skip.
Proof.
  induction p as [|a|p IHp q IHq|p IHp q IHq|path i body IH]; intros s;
    simpl.
  - constructor.
  - apply steps_one. constructor.
  - specialize (IHp s). destruct (Threaded.run p s) as [s1 t1].
    specialize (IHq s1). destruct (Threaded.run q s1) as [s2 t2]. simpl in *.
    eapply steps_trans; [apply steps_seq, IHp|].
    change t2 with ([] ++ t2). econstructor; [constructor|exact IHq].
  - specialize (IHp s). destruct (Threaded.run p s) as [s1 t1].
    specialize (IHq s1). destruct (Threaded.run q s1) as [s2 t2]. simpl in *.
    eapply steps_trans; [apply steps_par_l, IHp|].
    rewrite <- (app_nil_r t2).
    eapply steps_trans; [apply steps_par_r, IHq|].
    apply steps_one. constructor.
  - destruct (decide (path ∈ Threaded.processedDirs s)) as [Hin|Hnin]; simpl.
    + apply steps_one. by constructor.
    + specialize (IH (Threaded.claim path s)).
      destruct (Threaded.run body _) as [s1 t1]. simpl in *.
      change (Threaded.Claimed path i :: t1)
        with ([Threaded.Claimed path i] ++ t1).
      econstructor; [by constructor|exact IH].
Qed.

Lemma accounted_exact (sum hidden total : Z) :
  wrap (sum + hidden) = wrap total -> in_range total ->
  wrap (sum + hidden) = total
  /\ (in_range (sum + hidden) -> sum + hidden = total).
Proof.
  intros H Hr. rewrite (wrap_small total Hr) in H. split; [done|].
  intros Hs. by rewrite (wrap_small _ Hs) in H.
Qed.

(** C1, as amended.  After every completed run of either program, under
    every schedule of the multithreaded one, the sum over all type keys
    of the per-type totals plus [hiddenSize] equals [totalSize] modulo
    [2^64], the width of the counters, and equals it exactly whenever
    that sum is below [2^64]; the multithreaded program always has a
    completed run; a regular file whose size cannot be read, or that
    fails the size or the type filter, changes no counter. *)
Theorem closed_accounting_modulo :
  (forall fs (cfg : Da.Config) path listing s',
     Da.analyze fs cfg path listing Da.init = inr s' ->
     wrap (sum_sizes (Da.stats s') + Da.hiddenSize s') = Da.totalSize s'
     /\ (in_range (sum_sizes (Da.stats s') + Da.hiddenSize s') ->
         sum_sizes (Da.stats s') + Da.hiddenSize s' = Da.totalSize s'))
  /\ (forall fs (cfg : Threaded.Config) path ident listing s0 tr s',
     Threaded.analyze_runs fs cfg path ident listing s0 tr s' ->
     wrap (sum_sizes (Threaded.stats s') + Threaded.hiddenSize s')
     = Threaded.totalSize s'
     /\ (in_range (sum_sizes (Threaded.stats s') + Threaded.hiddenSize s') ->
         sum_sizes (Threaded.stats s') + Threaded.hiddenSize s'
         = Threaded.totalSize s'))
  /\ (forall fs (cfg : Threaded.Config) path ident listing s0,
     exists tr s', Threaded.analyze_runs fs cfg path ident listing s0 tr s')
  /\ (forall (cfg : Da.Config) path size s,
     size = None
     \/ (exists z, size = Some z
                   /\ (Da.isWithinSizeThreshold cfg z = false
                       \/ Da.shouldInclude cfg (getFileType path) = false)) ->
     fst (Da.analyzeFile cfg path size s) = s)
  /\ (forall (cfg : Threaded.Config) path size,
     size = None
     \/ (exists z, size = Some z
                   /\ (Threaded.isWithinSizeThreshold cfg z = false
                       \/ Threaded.shouldInclude cfg
                            (Threaded.getFileType path) = false)) ->
     Threaded.processFile cfg path size = Threaded.Skip).
Proof.
  split.
  { intros fs cfg path listing s' Hrun.
    assert (Hinit : Da_accounted Da.init).
    { split; [reflexivity|concrete_range]. }
    destruct (Da_analyze_accounted fs cfg path listing _ _ Hinit Hrun)
      as [H Hr].
    by apply accounted_exact. }
  split.
  { intros fs cfg path ident listing s0 tr s' Hrun.
    assert (Hinit : Threaded_accounted (Threaded.reset s0)).
    { split; [reflexivity|concrete_range]. }
    destruct (Threaded_processDirectory_accounted fs cfg path ident listing
                _ _ _ Hinit Hrun) as [H Hr].
    by apply accounted_exact. }
  split.
  { intros fs cfg path ident listing s0. do 2 eexists. apply run_steps. }
  split.
  { intros cfg path size s [->|(z & -> & [H|H])]; unfold Da.analyzeFile.
    - done.
    - by rewrite H.
    - rewrite H. by destruct (Da.isWithinSizeThreshold cfg z). }
  intros cfg path size [->|(z & -> & [H|H])]; unfold Threaded.processFile.
  - done.
  - by rewrite H.
  - rewrite H. by destruct (Threaded.isWithinSizeThreshold cfg z).
Qed.

Lemma closed_accounting_modulo_witness :
  (exists s', Da.analyze no_equivalent da_default "root" sample_tree Da.init
              = inr s'
              /\ sum_sizes (Da.stats s') + Da.hiddenSize s' = Da.totalSize s')
  /\ fst (Da.analyzeFile (da_sized ∅) "root/big.txt" (Some 5000) Da.init)
     = Da.init.
Proof.
  destruct closed_accounting_modulo as (HDa & _ & _ & Hskip & _).
  split.
  - exists {| Da.stats := {[ ".txt" := FileTypeStats.mk 2 507 ]};
              Da.totalFiles := 2; Da.totalSize := 1507;
              Da.hiddenFiles := 2; Da.hiddenSize := 1000 |}.
    split; [reflexivity|].
    apply (HDa no_equivalent da_default "root" sample_tree);
      [reflexivity|].
    concrete_range.
  - apply Hskip. right. exists 5000. split; [reflexivity|].
    left. reflexivity.
Defined.

(** C1 as stated fails: three files of [2^63 - 1] bytes of three types
    give per-type totals whose sum is [3 * (2^63 - 1)], while [totalSize]
    has wrapped to [2^63 - 3], in both programs. *)
Lemma closed_accounting_exact_fails :
  (exists s, Da.analyze no_equivalent da_default "root" three_huge_types
               Da.init = inr s
             /\ sum_sizes (Da.stats s) + Da.hiddenSize s = 3 * (2 ^ 63 - 1)
             /\ Da.totalSize s = 2 ^ 63 - 3
             /\ sum_sizes (Da.stats s) + Da.hiddenSize s <> Da.totalSize s)
  /\ (exists tr s,
        Threaded.analyze_runs no_equivalent (threaded_default 1) "root" 0
          three_huge_types Threaded.init tr s
        /\ sum_sizes (Threaded.stats s) + Threaded.hiddenSize s
           = 3 * (2 ^ 63 - 1)
        /\ Threaded.totalSize s = 2 ^ 63 - 3
        /\ sum_sizes (Threaded.stats s) + Threaded.hiddenSize s
           <> Threaded.totalSize s).
Proof.
  split.
  - eexists. split; [reflexivity|]. repeat split; by vm_compute.
  - do 2 eexists. split; [apply run_steps|]. repeat split; by vm_compute.
Qed.

(* ===================================================================== *)
(** * The set of processed directories *)
(* ===================================================================== *)

Lemma claimed_paths_app (t1 t2 : list Threaded.event) :
  claimed_paths (t1 ++ t2) = claimed_paths t1 ++ claimed_paths t2.
Proof.
  induction t1 as [|[a|path i] t1 IH]; simpl; [done|done|by rewrite IH].
Qed.

Lemma apply_processedDirs (a : Threaded.action) (s : Threaded.State) :
  Threaded.processedDirs (Threaded.apply a s) = Threaded.processedDirs s.
Proof. by destruct a. Qed.

Lemma no_claims (D : gset string) :
  D = list_to_set (claimed_paths []) ∪ D
  /\ NoDup (claimed_paths [])
  /\ (forall x, x ∈ claimed_paths [] -> x ∉ D).
Proof.
  simpl. split; [by rewrite union_empty_l_L|]. split; [constructor|].
  intros x Hx. by apply elem_of_nil in Hx.
Qed.

(** A step claims at most one directory, one that was not yet in
    [processedDirs], and inserts it there. *)
Lemma step_claims s p l s' p' :
  Threaded.step s p l s' p' ->
  Threaded.processedDirs s'
  = list_to_set (claimed_paths l) ∪ Threaded.processedDirs s
  /\ NoDup (claimed_paths l)
  /\ (forall x, x ∈ claimed_paths l -> x ∉ Threaded.processedDirs s).
Proof.
  induction 1 as [s a|s p l s' p' q _ IH|s q|s p l s' p' q _ IH
                  |s p q l s' q' _ IH|s|s path i body Hin
                  |s path i body Hnin]; try exact IH; try apply no_claims.
  - rewrite apply_processedDirs. apply no_claims.
  - simpl. split; [by rewrite union_empty_r_L|].
    split; [apply NoDup_singleton|].
    intros x Hx. apply list_elem_of_singleton in Hx. by subst.
Qed.

Lemma steps_claims s p tr s' p' :
  Threaded.steps s p tr s' p' ->
  Threaded.processedDirs s'
  = list_to_set (claimed_paths tr) ∪ Threaded.processedDirs s
  /\ NoDup (claimed_paths tr)
  /\ (forall x, x ∈ claimed_paths tr -> x ∉ Threaded.processedDirs s).
Proof.
  induction 1 as [s p|s p l s1 p1 tr s2 p2 Hstep _ IH];
    [apply no_claims|].
  destruct (step_claims _ _ _ _ _ Hstep) as (Hl1 & Hl2 & Hl3).
  destruct IH as (Ht1 & Ht2 & Ht3).
  rewrite claimed_paths_app. split; [|split].
  - rewrite Ht1, Hl1, list_to_set_app_L.
    apply set_eq. intros x. rewrite !elem_of_union. tauto.
  - apply NoDup_app. split; [done|]. split; [|done].
    intros x Hx Hx'. apply (Ht3 x Hx'). rewrite Hl1.
    apply elem_of_union_l. by apply elem_of_list_to_set.
  - intros x [Hx|Hx]%elem_of_app; [by apply Hl3|].
    intros Hin. apply (Ht3 x Hx). rewrite Hl1. by apply elem_of_union_r.
Qed.

(** C3, as amended.  In the multithreaded program [processedDirs] holds
    the path strings of the directories claimed so far.  The first step
    of [processDirectory] is the claim: when the path string is already
    there the call ends at once and leaves the state as it was; when it
    is not, the path is inserted in the same step, before anything of
    the listing takes place.  In every execution of [analyze], under
    every schedule, no path string is claimed twice, and the set holds
    at the end exactly the paths claimed.  (The identity of the
    directory plays no part; [da.cpp] keeps no such set.) *)
Theorem processedDirs_deduplicates_path_strings :
  (forall fs (cfg : Threaded.Config) path ident listing s,
     path ∈ Threaded.processedDirs s ->
     Threaded.run (Threaded.processDirectory fs cfg path ident listing) s
     = (s, [])
     /\ forall l s' p',
          Threaded.step s
            (Threaded.processDirectory fs cfg path ident listing) l s' p' ->
          l = [] /\ s' = s /\ p' = Threaded.Skip)
  /\ (forall fs (cfg : Threaded.Config) path ident listing s,
     path ∉ Threaded.processedDirs s ->
     forall l s' p',
       Threaded.step s
         (Threaded.processDirectory fs cfg path ident listing) l s' p' ->
       l = [Threaded.Claimed path ident]
       /\ s' = Threaded.claim path s
       /\ Threaded.processedDirs s' = {[ path ]} ∪ Threaded.processedDirs s)
  /\ (forall fs (cfg : Threaded.Config) path ident listing s0 tr s',
     Threaded.analyze_runs fs cfg path ident listing s0 tr s' ->
     NoDup (claimed_paths tr)
     /\ forall x, x ∈ Threaded.processedDirs s' <-> x ∈ claimed_paths tr).
Proof.
  split; [|split].
  - intros fs cfg path ident listing s Hin. split.
    + unfold Threaded.processDirectory, Threaded.directoryTask.
      cbn [Threaded.run]. by rewrite decide_True.
    + intros l s' p' Hstep.
      unfold Threaded.processDirectory, Threaded.directoryTask in Hstep.
      inversion Hstep; subst; [done|contradiction].
  - intros fs cfg path ident listing s Hnin l s' p' Hstep.
    unfold Threaded.processDirectory, Threaded.directoryTask in Hstep.
    inversion Hstep; subst; [contradiction|done].
  - intros fs cfg path ident listing s0 tr s' Hrun.
    destruct (steps_claims _ _ _ _ _ Hrun) as (H1 & H2 & _).
    split; [done|]. intros x. rewrite H1. simpl.
    rewrite union_empty_r_L. apply elem_of_list_to_set.
Qed.

Lemma processedDirs_deduplicates_path_strings_witness :
  Threaded.run
    (Threaded.processDirectory no_equivalent (threaded_default 4)
       "root/sub" 1 sample_tree)
    (Threaded.claim "root/sub" Threaded.init)
  = (Threaded.claim "root/sub" Threaded.init, [])
  /\ NoDup (claimed_paths
              (snd (Threaded.analyze no_equivalent (threaded_default 4)
                      "root" 0 aliased_tree Threaded.init))).
Proof.
  destruct processedDirs_deduplicates_path_strings as (H1 & _ & H3).
  split.
  - apply H1. apply elem_of_union_l, elem_of_singleton. reflexivity.
  - eapply (H3 no_equivalent (threaded_default 4) "root" 0%nat aliased_tree
              Threaded.init).
    apply run_steps.
Defined.

(** A path string that is dispatched a second time is not processed
    again. *)
Example same_path_processed_once :
  well_formed listed_twice = false
  /\ (let r := Threaded.analyze no_equivalent (threaded_default 1) "root" 0
                 listed_twice Threaded.init in
      claimed_paths (snd r) = ["root"; "root/d"]
      /\ Threaded.totalFiles (fst r) = 1).
Proof. repeat split; by vm_compute. Qed.

(** C3 as stated fails: the directory of identity 7, reachable as
    [root/real] and through the link [root/alias], is claimed and
    processed under both paths in one run, and its file is counted
    twice; [da.cpp], which keeps no set, counts it twice as well. *)
Lemma aliased_directory_processed_twice :
  (exists tr s,
     Threaded.analyze_runs no_equivalent (threaded_default 1) "root" 0
       aliased_tree Threaded.init tr s
     /\ claimed_paths tr = ["root"; "root/real"; "root/alias"]
     /\ claimed_idents tr = [0%nat; 7%nat; 7%nat]
     /\ ~ NoDup (claimed_idents tr)
     /\ Threaded.totalFiles s = 2)
  /\ (exists s, Da.analyze no_equivalent da_default "root" aliased_tree
                  Da.init = inr s
                /\ Da.totalFiles s = 2).
Proof.
  split.
  - do 2 eexists. split; [apply run_steps|].
    split; [by vm_compute|]. split; [by vm_compute|].
    split; [|by vm_compute].
    intros H. vm_compute in H. inversion H as [|x l Hn Hd]; subst.
    inversion Hd as [|y l' Hn' _]; subst. apply Hn'. constructor.
  - eexists. split; [reflexivity|]. by vm_compute.
Qed.

(* ===================================================================== *)
(** * Invariance under the number of worker threads *)
(* ===================================================================== *)

Lemma update_update_comm (st : FileTypeStats.t) (z1 z2 : Z) :
  Threaded.update (Threaded.update st z1) z2
  = Threaded.update (Threaded.update st z2) z1.
Proof.
  unfold Threaded.update. simpl. f_equal.
  rewrite !wrap_add_l. f_equal. lia.
Qed.

Lemma stats_update_comm (m : gmap string FileTypeStats.t) k1 z1 k2 z2 :
  <[k1 := Threaded.update
            (default FileTypeStats.zero
               (<[k2 := Threaded.update
                         (default FileTypeStats.zero (m !! k2)) z2]> m
                !! k1)) z1]>
    (<[k2 := Threaded.update (default FileTypeStats.zero (m !! k2)) z2]> m)
  = <[k2 := Threaded.update
              (default FileTypeStats.zero
                 (<[k1 := Threaded.update
                           (default FileTypeStats.zero (m !! k1)) z1]> m
                  !! k2)) z2]>
      (<[k1 := Threaded.update (default FileTypeStats.zero (m !! k1)) z1]> m).
Proof.
  destruct (decide (k1 = k2)) as [->|Hne].
  - rewrite !lookup_insert_eq, !insert_insert_eq. simpl.
    by rewrite update_update_comm.
  - rewrite (lookup_insert_ne _ k2 k1) by done.
    rewrite (lookup_insert_ne _ k1 k2) by done.
    by apply insert_insert_ne.
Qed.

(** Two operations of two threads give the same state in either
    order. *)
Lemma effect_comm (e1 e2 : Threaded.event) (s : Threaded.State) :
  Threaded.effect e1 (Threaded.effect e2 s)
  = Threaded.effect e2 (Threaded.effect e1 s).
Proof.
  destruct e1 as [[z1| |z1|k1 z1]|p1 i1], e2 as [[z2| |z2|k2 z2]|p2 i2];
    simpl; try reflexivity; unfold Threaded.claim; simpl; f_equal.
  - rewrite !wrap_add_l. f_equal. lia.
  - rewrite !wrap_add_l. f_equal. lia.
  - apply stats_update_comm.
  - apply set_eq. intros x. rewrite !elem_of_union. tauto.
Qed.

Lemma effects_app (t1 t2 : list Threaded.event) (s : Threaded.State) :
  effects (t1 ++ t2) s = effects t2 (effects t1 s).
Proof. apply fold_left_app. Qed.

Lemma effects_perm (t1 t2 : list Threaded.event) :
  Permutation t1 t2 -> forall s, effects t1 s = effects t2 s.
Proof.
  induction 1 as [|x l l' _ IH|x y l|l l' l'' _ IH1 _ IH2]; intros s.
  - done.
  - apply IH.
  - unfold effects. simpl. by rewrite effect_comm.
  - by rewrite IH1.
Qed.

Lemma claimed_paths_perm (t1 t2 : list Threaded.event) :
  Permutation t1 t2 -> Permutation (claimed_paths t1) (claimed_paths t2).
Proof.
  induction 1 as [|x l l' _ IH|x y l|l l' l'' _ IH1 _ IH2].
  - done.
  - destruct x; simpl; [done|by constructor].
  - destruct x, y; simpl; try done. apply perm_swap.
  - by etransitivity.
Qed.

(** As long as no pending claim can fail, a step performs one of the
    operations that were pending. *)
Lemma step_perm s p l s' p' :
  Threaded.step s p l s' p' ->
  (forall x, x ∈ claimed_paths (acts p) -> x ∉ Threaded.processedDirs s) ->
  Permutation (acts p) (l ++ acts p') /\ s' = effects l s.
Proof.
  induction 1 as [s a|s p l s' p' q _ IH|s q|s p l s' p' q _ IH
                  |s p q l s' q' _ IH|s|s path i body Hin
                  |s path i body Hnin]; simpl; intros Hf.
  - done.
  - destruct IH as [IH ->].
    { intros x Hx. apply Hf. rewrite claimed_paths_app.
      by apply elem_of_app; left. }
    split; [|done]. rewrite app_assoc. by apply Permutation_app_tail.
  - done.
  - destruct IH as [IH ->].
    { intros x Hx. apply Hf. rewrite claimed_paths_app.
      by apply elem_of_app; left. }
    split; [|done]. rewrite app_assoc. by apply Permutation_app_tail.
  - destruct IH as [IH ->].
    { intros x Hx. apply Hf. rewrite claimed_paths_app.
      by apply elem_of_app; right. }
    split; [|done].
    etransitivity; [apply Permutation_app_head, IH|].
    apply Permutation_app_swap_app.
  - done.
  - exfalso. apply (Hf path); [apply elem_of_cons; by left|done].
  - done.
Qed.

Lemma step_claims_fresh s p l s' p' :
  Threaded.step s p l s' p' -> claims_fresh s p -> claims_fresh s' p'.
Proof.
  intros Hstep [Hnd Hf].
  destruct (step_perm _ _ _ _ _ Hstep Hf) as [Hperm _].
  destruct (step_claims _ _ _ _ _ Hstep) as (Hd & _ & _).
  apply claimed_paths_perm in Hperm. rewrite claimed_paths_app in Hperm.
  assert (Hnd2 : NoDup (claimed_paths l ++ claimed_paths (acts p')))
    by by rewrite <- Hperm.
  apply NoDup_app in Hnd2 as (_ & Hdisj & Hnd').
  split; [done|]. intros x Hx. rewrite Hd.
  intros [Hin|Hin]%elem_of_union.
  - apply elem_of_list_to_set in Hin. by apply (Hdisj x).
  - apply (Hf x); [|done]. rewrite Hperm. apply elem_of_app. by right.
Qed.

(** An execution from a state in which no pending claim can fail
    performs pending operations only, and its state is their effect. *)
Lemma steps_perm s p tr s' p' :
  Threaded.steps s p tr s' p' -> claims_fresh s p ->
  Permutation (acts p) (tr ++ acts p') /\ s' = effects tr s.
Proof.
  induction 1 as [s p|s p l s1 p1 tr s2 p2 Hstep _ IH]; intros Hfresh.
  - done.
  - destruct (step_perm _ _ _ _ _ Hstep (proj2 Hfresh)) as [Hp ->].
    destruct (IH (step_claims_fresh _ _ _ _ _ Hstep Hfresh)) as [Hp' ->].
    split; [|by rewrite effects_app].
    rewrite <- app_assoc. etransitivity; [exact Hp|].
    by apply Permutation_app_head.
Qed.

(** Every complete execution ends in the state that the operations of
    the call give in program order. *)
Lemma complete_run_effects s p tr s' :
  Threaded.steps s p tr s' Threaded.Skip -> claims_fresh s p ->
  Permutation tr (acts p) /\ s' = effects (acts p) s.
Proof.
  intros Hrun Hfresh. destruct (steps_perm _ _ _ _ _ Hrun Hfresh) as [Hp ->].
  simpl in Hp. rewrite app_nil_r in Hp.
  split; [by symmetry|]. symmetry. by apply effects_perm.
Qed.

Lemma acts_seq_all (ps : list Threaded.prog) :
  acts (Threaded.seq_all ps) = flat_map acts ps.
Proof. induction ps as [|p ps IH]; simpl; [done|by rewrite IH]. Qed.

Lemma acts_par_all (ps : list Threaded.prog) :
  acts (Threaded.par_all ps) = flat_map acts ps.
Proof. induction ps as [|p ps IH]; simpl; [done|by rewrite IH]. Qed.

Lemma acts_directoryTask fs cfg dirPath ident listing subDirs :
  acts (Threaded.directoryTask fs cfg dirPath ident listing subDirs)
  = Threaded.Claimed dirPath ident
      :: flat_map acts
           (Threaded.scan (Threaded.shouldExclude fs cfg) dirPath
              (Threaded.visitGit cfg) listing)
      ++ flat_map acts
           (Threaded.scan (Threaded.shouldExclude fs cfg) dirPath
              (Threaded.visitFile cfg) listing)
      ++ flat_map acts subDirs.
Proof.
  unfold Threaded.directoryTask. simpl. rewrite !acts_seq_all.
  destruct (_ && _); by rewrite ?acts_par_all, ?acts_seq_all.
Qed.

Lemma scan_flat_map_ext {A B} (f : A -> list B) ex dir
    (v1 v2 : string -> entry -> list A) es :
  Forall (fun e => forall path, flat_map f (v1 path e) = flat_map f (v2 path e))
    es ->
  flat_map f (Threaded.scan ex dir v1 es)
  = flat_map f (Threaded.scan ex dir v2 es).
Proof.
  induction 1 as [|e es He _ IH]; simpl; [done|].
  destruct (ex _); [done|].
  destruct e; try done; by rewrite !flat_map_app, He, IH.
Qed.

Lemma flat_map_one {A B} (f : A -> list B) (x : A) : flat_map f [x] = f x.
Proof. simpl. apply app_nil_r. Qed.

(** The operations of a call do not depend on the number of threads. *)
Lemma acts_visitSubDir_threads fs cfg n (e : entry) :
  forall path,
    flat_map acts
      (Threaded.visitSubDir fs (Threaded.setThreadCount n cfg) path e)
    = flat_map acts (Threaded.visitSubDir fs cfg path e).
Proof.
  induction e as [n' sz|n' i children IH|n'|n'] using entry_nested_ind;
    intros path; try done.
  rewrite !visitSubDir_dir. destruct (String.eqb _ GIT); [done|].
  rewrite !flat_map_one, !acts_directoryTask. f_equal. f_equal. f_equal.
  apply scan_flat_map_ext. eapply Forall_impl; [exact IH|].
  intros e He p. apply He.
Qed.

Lemma acts_processDirectory_threads fs cfg n dirPath ident listing :
  acts (Threaded.processDirectory fs (Threaded.setThreadCount n cfg)
          dirPath ident listing)
  = acts (Threaded.processDirectory fs cfg dirPath ident listing).
Proof.
  unfold Threaded.processDirectory. rewrite !acts_directoryTask.
  f_equal. f_equal. f_equal.
  apply scan_flat_map_ext. apply Forall_forall. intros e _ p.
  apply acts_visitSubDir_threads.
Qed.

Lemma no_par_seq_all (ps : list Threaded.prog) :
  Forall no_par ps -> no_par (Threaded.seq_all ps).
Proof. induction 1; simpl; auto. Qed.

Lemma no_par_processFile cfg path size :
  no_par (Threaded.processFile cfg path size).
Proof.
  unfold Threaded.processFile. destruct size as [size|]; [|done].
  destruct (negb _); [done|]. destruct (negb _); [done|].
  by destruct (_ && _).
Qed.

Lemma no_par_directoryTask fs cfg dirPath ident listing subDirs :
  Threaded.numThreads cfg = 1 -> Forall no_par subDirs ->
  no_par (Threaded.directoryTask fs cfg dirPath ident listing subDirs).
Proof.
  intros Hn Hs. unfold Threaded.directoryTask. rewrite Hn. simpl.
  split; [|split].
  - apply no_par_seq_all, scan_Forall, Forall_forall. intros e _ path.
    destruct e; simpl; try done. destruct (String.eqb _ GIT); [|done].
    unfold Threaded.processGit. destruct (foldM _ _ 0); [done|].
    destruct (Threaded.showHidden cfg); by repeat constructor.
  - apply no_par_seq_all, scan_Forall, Forall_forall. intros e _ path.
    destruct e; simpl; try done.
    constructor; [apply no_par_processFile|done].
  - by apply no_par_seq_all.
Qed.

Lemma no_par_visitSubDir fs cfg (e : entry) :
  Threaded.numThreads cfg = 1 ->
  forall path, Forall no_par (Threaded.visitSubDir fs cfg path e).
Proof.
  intros Hn.
  induction e as [n' sz|n' i children IH|n'|n'] using entry_nested_ind;
    intros path; try done.
  rewrite visitSubDir_dir. destruct (String.eqb _ GIT); [done|].
  constructor; [|done]. apply no_par_directoryTask; [done|].
  apply scan_Forall. eapply Forall_impl; [exact IH|].
  intros e He p. apply He.
Qed.

(* ===================================================================== *)
(** * The directories of a well-formed tree have distinct paths *)
(* ===================================================================== *)

Lemma string_app_inv_head (a b c : string) : a +:+ b = a +:+ c -> b = c.
Proof.
  induction a as [|x a IH]; [done|]. rewrite !append_cons.
  intros [= H]. by apply IH.
Qed.

Lemma string_app_nil_r (a : string) : a +:+ EmptyString = a.
Proof. induction a as [|x a IH]; [done|]. by rewrite append_cons, IH. Qed.

Lemma append_dir_prefix (dir name : string) :
  Path.append dir name = dir_prefix dir +:+ name.
Proof.
  unfold Path.append, dir_prefix. destruct (last_char dir) as [c|]; [|done].
  destruct (Ascii.eqb c ch_slash); [done|]. by rewrite string_app_assoc.
Qed.

Lemma last_char_none (s : string) : last_char s = None -> s = EmptyString.
Proof.
  induction s as [|x s IH]; [done|]. simpl.
  destruct s as [|y s]; [done|]. intros H. by apply IH in H.
Qed.

Lemma dir_prefix_length (dir : string) :
  (String.length dir <= String.length (dir_prefix dir))%nat.
Proof.
  unfold dir_prefix. destruct (last_char dir) as [c|] eqn:E.
  - destruct (Ascii.eqb c ch_slash); [done|].
    rewrite string_length_app. lia.
  - apply last_char_none in E as ->. done.
Qed.

Lemma plain_name_spec (n : string) :
  plain_name n = true -> n <> EmptyString /\ contains ch_slash n = false.
Proof.
  unfold plain_name. intros [H1 H2]%andb_true_iff.
  apply negb_true_iff in H1, H2. by apply String.eqb_neq in H1.
Qed.

Lemma last_char_app (a n : string) :
  n <> EmptyString -> last_char (a +:+ n) = last_char n.
Proof.
  intros Hn. induction a as [|x a IH]; [done|]. rewrite append_cons.
  simpl. rewrite IH. destruct (a +:+ n) eqn:E; [|done].
  destruct a; [by rewrite append_nil in E|discriminate].
Qed.

Lemma last_char_no_slash (n : string) c :
  contains ch_slash n = false -> last_char n = Some c ->
  Ascii.eqb c ch_slash = false.
Proof.
  induction n as [|x n IH]; [done|]. simpl.
  intros [Hx Hn]%orb_false_iff. destruct n as [|y n].
  - by intros [= <-].
  - by apply IH.
Qed.

(** The path of an entry with a plain name does not end in a
    separator. *)
Lemma dir_prefix_child (dir name : string) :
  plain_name name = true ->
  dir_prefix (Path.append dir name) = Path.append dir name +:+ "/".
Proof.
  intros [Hne Hns]%plain_name_spec. rewrite append_dir_prefix.
  unfold dir_prefix at 1. rewrite last_char_app by done.
  destruct (last_char name) as [c|] eqn:E.
  - by rewrite (last_char_no_slash name c Hns E).
  - by apply last_char_none in E.
Qed.

Lemma split_plain (n1 n2 r1 r2 : string) :
  contains ch_slash n1 = false -> contains ch_slash n2 = false ->
  (r1 = EmptyString \/ exists r, r1 = String ch_slash r) ->
  (r2 = EmptyString \/ exists r, r2 = String ch_slash r) ->
  n1 +:+ r1 = n2 +:+ r2 -> n1 = n2.
Proof.
  revert n2. induction n1 as [|x n1 IH]; intros [|y n2] H1 H2 Hr1 Hr2 E.
  - done.
  - rewrite append_nil, append_cons in E. simpl in H2.
    apply orb_false_iff in H2 as [Hy _].
    destruct Hr1 as [->|[r ->]]; [done|]. injection E as <- _. done.
  - rewrite append_nil, append_cons in E. simpl in H1.
    apply orb_false_iff in H1 as [Hx _].
    destruct Hr2 as [->|[r ->]]; [done|]. injection E as -> _. done.
  - rewrite !append_cons in E. injection E as -> E. simpl in H1, H2.
    apply orb_false_iff in H1 as [_ H1], H2 as [_ H2].
    f_equal. by apply (IH n2).
Qed.

Lemma under_same_name (b n1 n2 x : string) :
  plain_name n1 = true -> plain_name n2 = true ->
  under (b +:+ n1) x -> under (b +:+ n2) x -> n1 = n2.
Proof.
  intros [_ H1]%plain_name_spec [_ H2]%plain_name_spec U1 U2.
  assert (exists r1, x = b +:+ (n1 +:+ r1)
                     /\ (r1 = EmptyString \/ exists r, r1 = String ch_slash r))
    as (r1 & E1 & Hr1).
  { destruct U1 as [->|[r ->]].
    - exists EmptyString. rewrite string_app_nil_r. auto.
    - exists (String ch_slash r). rewrite string_app_assoc. eauto. }
  assert (exists r2, x = b +:+ (n2 +:+ r2)
                     /\ (r2 = EmptyString \/ exists r, r2 = String ch_slash r))
    as (r2 & E2 & Hr2).
  { destruct U2 as [->|[r ->]].
    - exists EmptyString. rewrite string_app_nil_r. auto.
    - exists (String ch_slash r). rewrite string_app_assoc. eauto. }
  rewrite E1 in E2. apply string_app_inv_head in E2.
  by apply (split_plain n1 n2 r1 r2).
Qed.

Lemma under_length (c x : string) :
  under c x -> (String.length c <= String.length x)%nat.
Proof.
  intros [->|[r ->]]; [done|]. rewrite string_length_app. lia.
Qed.

Lemma under_child (dir name x : string) :
  dir_prefix dir = dir +:+ "/" ->
  under (Path.append dir name) x -> under dir x /\ x <> dir.
Proof.
  intros Hd U. rewrite append_dir_prefix, Hd, string_app_assoc in U.
  rewrite append_cons, append_nil in U. split.
  - right. destruct U as [->|[r ->]]; [by eexists|].
    exists (name +:+ String ch_slash r).
    by rewrite string_app_assoc, append_cons.
  - intros ->. apply under_length in U.
    rewrite string_length_app in U. simpl in U. lia.
Qed.

Lemma elem_of_scan {A} ex dir (visit : string -> entry -> list A) es x :
  x ∈ Threaded.scan ex dir visit es ->
  exists e, e ∈ es /\ x ∈ visit (Path.append dir (entry_name e)) e.
Proof.
  induction es as [|e es IH]; simpl; [by intros ?%elem_of_nil|].
  assert (Hrest : x ∈ Threaded.scan ex dir visit es ->
                  exists e0, e0 ∈ e :: es
                             /\ x ∈ visit (Path.append dir (entry_name e0)) e0).
  { intros (e0 & He0 & Hx)%IH. exists e0. split; [by right|done]. }
  destruct (ex _); [done|].
  destruct e; try (intros [Hx|Hx]%elem_of_app; [|by auto];
                   eexists; split; [by left|done]).
  by intros ?%elem_of_nil.
Qed.

(** The tasks of entries with distinct plain names, each of which stays
    below the path of its entry, reach distinct paths. *)
Lemma scan_NoDup ex dir (visit : string -> entry -> list string) es :
  NoDup (map entry_name es) ->
  Forall (fun e => plain_name (entry_name e) = true) es ->
  Forall (fun e => NoDup (visit (Path.append dir (entry_name e)) e)
                   /\ forall x, x ∈ visit (Path.append dir (entry_name e)) e ->
                                under (Path.append dir (entry_name e)) x) es ->
  NoDup (Threaded.scan ex dir visit es).
Proof.
  induction es as [|e es IH]; simpl; intros Hnd Hpl Hv; [constructor|].
  apply NoDup_cons in Hnd as [Hne Hnd].
  apply Forall_cons in Hpl as [Hp Hpl], Hv as [[Hv1 Hv2] Hv].
  specialize (IH Hnd Hpl Hv).
  destruct (ex _); [done|].
  assert (Happ : NoDup (visit (Path.append dir (entry_name e)) e
                        ++ Threaded.scan ex dir visit es)).
  { apply NoDup_app. split; [done|]. split; [|done].
    intros x Hx (e' & He' & Hx')%elem_of_scan.
    apply Hne. apply list_elem_of_fmap. exists e'. split; [|done].
    rewrite Forall_forall in Hpl, Hv.
    destruct (Hv e' He') as [_ Hu'].
    specialize (Hv2 x Hx). specialize (Hu' x Hx').
    rewrite append_dir_prefix in Hv2, Hu'.
    apply (under_same_name (dir_prefix dir) _ _ x); auto. }
  destruct e; try done. constructor.
Qed.

Lemma claimed_paths_flat_map_nil (ps : list Threaded.prog) :
  Forall (fun p => claimed_paths (acts p) = []) ps ->
  claimed_paths (flat_map acts ps) = [].
Proof.
  induction 1 as [|p ps Hp _ IH]; simpl; [done|].
  by rewrite claimed_paths_app, Hp, IH.
Qed.

Lemma claimed_paths_scan ex dir (visit : string -> entry -> list Threaded.prog)
    es :
  claimed_paths (flat_map acts (Threaded.scan ex dir visit es))
  = Threaded.scan ex dir
      (fun path e => claimed_paths (flat_map acts (visit path e))) es.
Proof.
  induction es as [|e es IH]; simpl; [done|].
  destruct (ex _); [done|].
  destruct e; try done; by rewrite flat_map_app, claimed_paths_app, IH.
Qed.

Lemma claimed_paths_directoryTask fs cfg dirPath ident listing subDirs :
  claimed_paths
    (acts (Threaded.directoryTask fs cfg dirPath ident listing subDirs))
  = dirPath :: claimed_paths (flat_map acts subDirs).
Proof.
  rewrite acts_directoryTask. simpl. rewrite !claimed_paths_app.
  assert (claimed_paths
            (flat_map acts
               (Threaded.scan (Threaded.shouldExclude fs cfg) dirPath
                  (Threaded.visitGit cfg) listing)) = []) as ->.
  { apply claimed_paths_flat_map_nil, scan_Forall, Forall_forall.
    intros e _ path.
    destruct e; simpl; try done. destruct (String.eqb _ GIT); [|done].
    unfold Threaded.processGit. destruct (foldM _ _ 0); [done|].
    destruct (Threaded.showHidden cfg); by repeat constructor. }
  assert (claimed_paths
            (flat_map acts
               (Threaded.scan (Threaded.shouldExclude fs cfg) dirPath
                  (Threaded.visitFile cfg) listing)) = []) as ->.
  { apply claimed_paths_flat_map_nil, scan_Forall, Forall_forall.
    intros e _ path.
    destruct e; simpl; try done. constructor; [|done].
    unfold Threaded.processFile. destruct size as [size|]; [|done].
    destruct (negb _); [done|]. destruct (negb _); [done|].
    by destruct (_ && _). }
  done.
Qed.

Lemma subtree_paths_dir fs cfg path n i children :
  subtree_paths fs cfg path (EDir n i children)
  = if String.eqb (Path.filename path) GIT then []
    else path :: Threaded.scan (Threaded.shouldExclude fs cfg) path
                   (subtree_paths fs cfg) children.
Proof.
  unfold subtree_paths at 1. rewrite visitSubDir_dir.
  destruct (String.eqb _ GIT); [done|].
  by rewrite flat_map_one, claimed_paths_directoryTask, claimed_paths_scan.
Qed.

Lemma well_formed_entry_dir n i children :
  well_formed_entry (EDir n i children) = true ->
  plain_name n = true /\ NoDup (map entry_name children)
  /\ Forall (fun e => well_formed_entry e = true) children.
Proof.
  simpl. intros [Hn [Hd Hc]%andb_true_iff]%andb_true_iff.
  split; [done|]. split; [by apply bool_decide_eq_true in Hd|].
  apply Forall_forall. intros e He.
  rewrite forallb_forall in Hc. apply Hc. by apply list_elem_of_In.
Qed.

Lemma well_formed_entry_plain (e : entry) :
  well_formed_entry e = true -> plain_name (entry_name e) = true.
Proof. destruct e; simpl; by intros [H _]%andb_true_iff. Qed.

(** The subtree of a well-formed entry is reached under distinct paths,
    all below the path of the entry. *)
Lemma subtree_paths_NoDup fs cfg (e : entry) :
  forall path,
    well_formed_entry e = true -> dir_prefix path = path +:+ "/" ->
    NoDup (subtree_paths fs cfg path e)
    /\ forall x, x ∈ subtree_paths fs cfg path e -> under path x.
Proof.
  induction e as [n sz|n i children IH|n|n] using entry_nested_ind;
    intros path Hwf Hpath;
    try (split; [constructor|by intros x ?%elem_of_nil]).
  rewrite subtree_paths_dir.
  destruct (String.eqb _ GIT);
    [split; [constructor|by intros x ?%elem_of_nil]|].
  apply well_formed_entry_dir in Hwf as (_ & Hnd & Hch).
  assert (Hsub : Forall (fun e =>
            NoDup (subtree_paths fs cfg (Path.append path (entry_name e)) e)
            /\ forall x,
                 x ∈ subtree_paths fs cfg (Path.append path (entry_name e)) e ->
                 under (Path.append path (entry_name e)) x) children).
  { rewrite Forall_forall in IH, Hch |- *. intros e He.
    apply IH; [done|by apply Hch|].
    apply dir_prefix_child, well_formed_entry_plain. by apply Hch. }
  assert (Hbelow : forall x,
            x ∈ Threaded.scan (Threaded.shouldExclude fs cfg) path
                  (subtree_paths fs cfg) children ->
            under path x /\ x <> path).
  { intros x (e & He & Hx)%elem_of_scan.
    rewrite Forall_forall in Hsub. destruct (Hsub e He) as [_ Hu].
    by apply (under_child path (entry_name e)), Hu. }
  split.
  - constructor.
    + intros Hin. by destruct (Hbelow path Hin).
    + apply scan_NoDup; [done| |done].
      eapply Forall_impl; [exact Hch|]. apply well_formed_entry_plain.
  - intros x [->|Hx]%elem_of_cons; [by left|]. by apply Hbelow.
Qed.

(** The hypothesis of the invariance holds of every well-formed tree,
    whatever the path of its root. *)
Lemma well_formed_dispatched_NoDup fs cfg path ident listing :
  well_formed listing = true ->
  NoDup (dispatched_paths fs cfg path ident listing).
Proof.
  unfold well_formed. intros [Hnd Hch]%andb_true_iff.
  apply bool_decide_eq_true in Hnd.
  assert (Hwf : Forall (fun e => well_formed_entry e = true) listing).
  { apply Forall_forall. intros e He. rewrite forallb_forall in Hch.
    apply Hch. by apply list_elem_of_In. }
  unfold dispatched_paths, Threaded.processDirectory.
  rewrite claimed_paths_directoryTask, claimed_paths_scan.
  assert (Hsub : Forall (fun e =>
            NoDup (subtree_paths fs cfg (Path.append path (entry_name e)) e)
            /\ forall x,
                 x ∈ subtree_paths fs cfg (Path.append path (entry_name e)) e ->
                 under (Path.append path (entry_name e)) x) listing).
  { rewrite Forall_forall in Hwf |- *. intros e He.
    apply subtree_paths_NoDup; [by apply Hwf|].
    apply dir_prefix_child, well_formed_entry_plain. by apply Hwf. }
  constructor.
  - intros (e & He & Hx)%elem_of_scan.
    rewrite Forall_forall in Hsub, Hwf. destruct (Hsub e He) as [_ Hu].
    specialize (Hu path Hx). apply under_length in Hu.
    rewrite append_dir_prefix, string_length_app in Hu.
    pose proof (dir_prefix_length path).
    destruct (plain_name_spec _ (well_formed_entry_plain e (Hwf e He)))
      as [Hne _].
    destruct (entry_name e); [done|]. simpl in Hu. lia.
  - apply scan_NoDup; [done| |done].
    eapply Forall_impl; [exact Hwf|]. apply well_formed_entry_plain.
Qed.

(** On a well-formed tree every complete execution of [analyze], from
    whatever state of the analyzer, performs the operations of the call
    and ends in their effect on the empty state. *)
Lemma analyze_runs_determined fs cfg path ident listing s0 tr s' :
  well_formed listing = true ->
  Threaded.analyze_runs fs cfg path ident listing s0 tr s' ->
  Permutation tr (acts (Threaded.processDirectory fs cfg path ident listing))
  /\ s' = effects (acts (Threaded.processDirectory fs cfg path ident listing))
             Threaded.init.
Proof.
  intros Hwf Hrun. apply (complete_run_effects _ _ _ _ Hrun). split.
  - by apply (well_formed_dispatched_NoDup fs cfg path ident listing).
  - intros x _. simpl. apply not_elem_of_empty.
Qed.

(* ===================================================================== *)
(** * The two programs on trees without errors *)
(* ===================================================================== *)

Lemma wrap_le (z : Z) : 0 <= z -> 0 <= wrap z <= z.
Proof.
  intros Hz. unfold wrap. split.
  - apply Z.mod_pos_bound. reflexivity.
  - apply Z.mod_le; [done|reflexivity].
Qed.

Lemma weights_cons (e : entry) (es : list entry) :
  weights (e :: es) = weight e + weights es.
Proof. reflexivity. Qed.

Lemma weight_nonneg (e : entry) : clean e = true -> 0 <= weight e.
Proof.
  induction e as [n [z|]|n i children IH|n|n] using entry_nested_ind;
    simpl; intros Hc; try lia.
  fold (weights children).
  enough (0 <= weights children) by lia.
  induction IH as [|c cs Hc1 _ IHcs]; [done|].
  simpl in Hc. apply andb_true_iff in Hc as [H1 H2].
  rewrite weights_cons. specialize (Hc1 H1). specialize (IHcs H2). lia.
Qed.

Lemma weights_nonneg (es : list entry) :
  forallb clean es = true -> 0 <= weights es.
Proof.
  induction es as [|e es IH]; simpl; intros Hc; [done|].
  apply andb_true_iff in Hc as [H1 H2]. rewrite weights_cons.
  pose proof (weight_nonneg e H1). specialize (IH H2). lia.
Qed.

Lemma bounded_mono (m : gmap string FileTypeStats.t) (b b' : Z) :
  bounded m b -> b <= b' -> bounded m b'.
Proof.
  intros Hb Hle k st Hk. destruct (Hb k st Hk) as (H1 & H2 & H3).
  repeat split; lia.
Qed.

(** Below the range of [size_t] the two [update]s do the same. *)
Lemma update_agree (m : gmap string FileTypeStats.t) (b : Z) k z :
  bounded m b -> 0 <= b -> 0 <= z -> b + (1 + z) <= SIZE_MAX ->
  Da.update (default FileTypeStats.zero (m !! k)) z
  = (Threaded.update (default FileTypeStats.zero (m !! k)) z, None)
  /\ bounded
       (<[k := Threaded.update (default FileTypeStats.zero (m !! k)) z]> m)
       (b + (1 + z)).
Proof.
  intros Hb Hb0 Hz Hmax.
  set (st := default FileTypeStats.zero (m !! k)).
  assert (Hst : 0 <= FileTypeStats.count st /\ 0 <= FileTypeStats.totalSize st
                /\ FileTypeStats.count st + FileTypeStats.totalSize st <= b).
  { unfold st. destruct (m !! k) as [st0|] eqn:Hk; simpl.
    - by apply (Hb k).
    - lia. }
  destruct Hst as (Hc & Ht & Hsum).
  assert (Hup : Threaded.update st z
                = {| FileTypeStats.count := FileTypeStats.count st + 1;
                     FileTypeStats.totalSize :=
                       FileTypeStats.totalSize st + z |}).
  { unfold Threaded.update.
    rewrite !wrap_small by (unfold in_range; lia). done. }
  split.
  - rewrite Hup.
    apply (Da_update_checked st z); unfold in_range; lia.
  - intros k' st' Hk'. destruct (decide (k' = k)) as [->|Hne].
    + rewrite lookup_insert_eq in Hk'. injection Hk' as <-.
      rewrite Hup. simpl. lia.
    + rewrite lookup_insert_ne in Hk' by done.
      destruct (Hb k' st' Hk') as (H1 & H2 & H3). lia.
Qed.

(** On a tree without errors the two loops over a [.git] directory
    compute the same size. *)
Lemma git_sizes_agree (es : list entry) :
  Forall (fun e => clean e = true -> forall acc, 0 <= acc ->
            exists g, Da.sizeOfEntry e acc = inr g
                      /\ Threaded.gitSizeOfEntry e acc = inr g
                      /\ 0 <= g <= acc + weight e) es ->
  forallb clean es = true -> forall acc, 0 <= acc ->
  exists g, foldM Da.sizeOfEntry es acc = inr g
            /\ foldM Threaded.gitSizeOfEntry es acc = inr g
            /\ 0 <= g <= acc + weights es.
Proof.
  induction 1 as [|e es He _ IH]; intros Hc acc Hacc.
  - exists acc. simpl. unfold weights. simpl. repeat split; lia.
  - simpl in Hc. apply andb_true_iff in Hc as [H1 H2].
    destruct (He H1 acc Hacc) as (g1 & Hd & Ht & Hg1).
    destruct (IH H2 g1 ltac:(lia)) as (g & Hd' & Ht' & Hg).
    exists g. simpl. rewrite Hd, Ht. rewrite weights_cons.
    repeat split; [done|done|lia|lia].
Qed.

Lemma git_size_agree (e : entry) :
  clean e = true -> forall acc, 0 <= acc ->
  exists g, Da.sizeOfEntry e acc = inr g
            /\ Threaded.gitSizeOfEntry e acc = inr g
            /\ 0 <= g <= acc + weight e.
Proof.
  induction e as [n [z|]|n i children IH|n|n] using entry_nested_ind;
    simpl; intros Hc acc Hacc; try discriminate.
  - apply Z.leb_le in Hc. exists (wrap (acc + z)).
    pose proof (wrap_le (acc + z) ltac:(lia)). repeat split; lia.
  - destruct (git_sizes_agree children IH Hc acc Hacc) as (g & H1 & H2 & H3).
    exists g. fold (weights children). repeat split; [done|done|lia|lia].
  - exists acc. repeat split; lia.
Qed.

Lemma counters_claim (path : string) (s : Threaded.State) :
  counters (Threaded.claim path s) = counters s.
Proof. reflexivity. Qed.

(** The counters do not depend on what [processedDirs] holds. *)
Lemma counters_effects_claim (tr : list Threaded.event) path ident s :
  counters (effects (Threaded.Claimed path ident :: tr) s)
  = counters (effects tr s).
Proof.
  rewrite (effects_perm _ (tr ++ [Threaded.Claimed path ident])).
  - rewrite effects_app. reflexivity.
  - apply Permutation_cons_append.
Qed.

Lemma perm_regroup {A} (a1 a2 a3 r1 r2 r3 r : list A) :
  Permutation (r1 ++ r2 ++ r3) r ->
  Permutation ((a1 ++ r1) ++ (a2 ++ r2) ++ (a3 ++ r3))
    ((a1 ++ a2 ++ a3) ++ r).
Proof.
  intros <-. rewrite <- !app_assoc. apply Permutation_app_head.
  rewrite (Permutation_app_swap_app r1 a2). apply Permutation_app_head.
  rewrite (Permutation_app_swap_app r2 a3).
  rewrite (Permutation_app_swap_app r1 a3). done.
Qed.

(** The three passes of [processDirectory] over a listing perform, up to
    their order, what one pass does entry by entry. *)
Lemma directoryTask_by_entry fs cfg dirPath ident listing :
  Permutation
    (acts (Threaded.directoryTask fs cfg dirPath ident listing
             (Threaded.scan (Threaded.shouldExclude fs cfg) dirPath
                (Threaded.visitSubDir fs cfg) listing)))
    (Threaded.Claimed dirPath ident
       :: Threaded.scan (Threaded.shouldExclude fs cfg) dirPath
            (entry_events fs cfg) listing).
Proof.
  rewrite acts_directoryTask. apply perm_skip.
  induction listing as [|e es IH]; simpl; [done|].
  destruct (Threaded.shouldExclude fs cfg _); [exact IH|].
  destruct e; try done; rewrite !flat_map_app; by apply perm_regroup.
Qed.

Lemma Da_analyzeEntry_excluded fs cfg dir (e : entry) (s : Da.State) :
  Da.shouldExclude fs cfg (Path.append dir (entry_name e)) = true ->
  Da.analyzeEntry fs cfg dir e s = inr (s, false).
Proof. intros H. destruct e; simpl in *; by rewrite H. Qed.

Section Agreement.

Variable fs : string -> string -> option bool.
Variable cfg : Threaded.Config.

Hypothesis exclude_agree :
  forall p, Da.shouldExclude fs (Da_of_Threaded cfg) p
            = Threaded.shouldExclude fs cfg p.

(** A regular file. *)
Lemma Da_analyzeFile_events path z (s : Threaded.State) (b : Z) :
  bounded (Threaded.stats s) b -> 0 <= b -> 0 <= z ->
  b + (1 + z) <= SIZE_MAX ->
  Da.analyzeFile (Da_of_Threaded cfg) path (Some z) (counters s)
  = (counters (effects (acts (Threaded.processFile cfg path (Some z))) s),
     false)
  /\ bounded
       (Threaded.stats
          (effects (acts (Threaded.processFile cfg path (Some z))) s))
       (b + (1 + z)).
Proof.
  intros Hb Hb0 Hz Hmax.
  unfold Da.analyzeFile, Threaded.processFile.
  change (Da.isWithinSizeThreshold (Da_of_Threaded cfg) z)
    with (Threaded.isWithinSizeThreshold cfg z).
  destruct (Threaded.isWithinSizeThreshold cfg z); simpl;
    [|split; [done|eapply bounded_mono; [exact Hb|lia]]].
  rewrite getFileType_threaded.
  change (Da.shouldInclude (Da_of_Threaded cfg) (getFileType path))
    with (Threaded.shouldInclude cfg (getFileType path)).
  destruct (Threaded.shouldInclude cfg (getFileType path)); simpl;
    [|split; [done|eapply bounded_mono; [exact Hb|lia]]].
  change (Da.showHidden (Da_of_Threaded cfg)) with (Threaded.showHidden cfg).
  destruct (starts_with_char ch_dot (Path.filename path)
            && negb (Threaded.showHidden cfg)); simpl.
  - split; [done|eapply bounded_mono; [exact Hb|lia]].
  - destruct (update_agree (Threaded.stats s) b (getFileType path) z
                Hb Hb0 Hz Hmax) as [Hup Hb'].
    unfold Da.updateStats. simpl. rewrite Hup. split; [done|exact Hb'].
Qed.

(** A directory named [.git]. *)
Lemma Da_analyzeGit_events children (s : Threaded.State) (b : Z) :
  forallb clean children = true ->
  bounded (Threaded.stats s) b -> 0 <= b ->
  b + (1 + weights children) <= SIZE_MAX ->
  Da.analyzeGit (Da_of_Threaded cfg) children (counters s)
  = inr (counters
           (effects (flat_map acts (Threaded.processGit cfg children)) s))
  /\ bounded
       (Threaded.stats
          (effects (flat_map acts (Threaded.processGit cfg children)) s))
       (b + (1 + weights children)).
Proof.
  intros Hc Hb Hb0 Hmax.
  destruct (git_sizes_agree children
              ltac:(apply Forall_forall; intros e _; apply git_size_agree)
              Hc 0 ltac:(lia)) as (g & Hd & Ht & Hg).
  unfold Da.analyzeGit, Da.calculateDirectorySize, Threaded.processGit.
  rewrite Hd, Ht.
  change (Da.showHidden (Da_of_Threaded cfg)) with (Threaded.showHidden cfg).
  destruct (Threaded.showHidden cfg); simpl.
  - destruct (update_agree (Threaded.stats s) b GIT g
                Hb Hb0 ltac:(lia) ltac:(lia)) as [Hup Hb'].
    unfold Da.updateStats. simpl. rewrite Hup. split; [done|].
    eapply bounded_mono; [exact Hb'|lia].
  - split; [done|eapply bounded_mono; [exact Hb|lia]].
Qed.

Lemma Da_loop_events (es : list entry) :
  Forall (entry_agrees fs cfg) es ->
  forall dir (s : Threaded.State) (b : Z),
    forallb clean es = true -> bounded (Threaded.stats s) b -> 0 <= b ->
    b + weights es <= SIZE_MAX ->
    Da.loop (Da.analyzeEntry fs (Da_of_Threaded cfg) dir) es false (counters s)
    = inr (counters
             (effects
                (Threaded.scan (Threaded.shouldExclude fs cfg) dir
                   (entry_events fs cfg) es) s))
    /\ bounded
         (Threaded.stats
            (effects
               (Threaded.scan (Threaded.shouldExclude fs cfg) dir
                  (entry_events fs cfg) es) s))
         (b + weights es).
Proof.
  induction 1 as [|e es He _ IH]; intros dir s b Hc Hb Hb0 Hmax.
  - simpl. split; [done|]. eapply bounded_mono; [exact Hb|].
    unfold weights. simpl. lia.
  - simpl in Hc. apply andb_true_iff in Hc as [Hc1 Hc2].
    rewrite weights_cons in *.
    pose proof (weight_nonneg e Hc1) as Hw.
    pose proof (weights_nonneg es Hc2) as Hws.
    cbn [Da.loop Threaded.scan].
    destruct (Threaded.shouldExclude fs cfg (Path.append dir (entry_name e)))
      eqn:Hex.
    + rewrite Da_analyzeEntry_excluded by (by rewrite exclude_agree).
      destruct (IH dir s b Hc2 Hb Hb0 ltac:(lia)) as [Hrun Hb'].
      split; [exact Hrun|]. eapply bounded_mono; [exact Hb'|lia].
    + destruct (He dir s b Hc1 Hb Hb0 ltac:(lia) Hex) as [Hrun Hb'].
      rewrite Hrun.
      destruct (IH dir _ (b + weight e) Hc2 Hb' ltac:(lia) ltac:(lia))
        as [Hrun' Hb''].
      assert (Hscan :
        match e with
        | EThrow _ => []
        | _ => entry_events fs cfg (Path.append dir (entry_name e)) e
               ++ Threaded.scan (Threaded.shouldExclude fs cfg) dir
                    (entry_events fs cfg) es
        end
        = entry_events fs cfg (Path.append dir (entry_name e)) e
          ++ Threaded.scan (Threaded.shouldExclude fs cfg) dir
               (entry_events fs cfg) es)
        by (by destruct e).
      rewrite Hscan, effects_app. split; [exact Hrun'|].
      eapply bounded_mono; [exact Hb''|lia].
Qed.

Lemma Da_analyzeEntry_events (e : entry) : entry_agrees fs cfg e.
Proof.
  induction e as [n [z|]|n i children IH|n|n] using entry_nested_ind;
    intros dir s b Hc Hb Hb0 Hmax Hex; try discriminate.
  - (* a regular file *)
    simpl in Hc, Hmax, Hex. apply Z.leb_le in Hc.
    cbn [Da.analyzeEntry entry_name weight]. rewrite exclude_agree, Hex.
    unfold entry_events.
    cbn [Threaded.visitGit Threaded.visitFile Threaded.visitSubDir
         flat_map app].
    rewrite !app_nil_r.
    destruct (Da_analyzeFile_events (Path.append dir n) z s b Hb Hb0 Hc Hmax)
      as [Hrun Hb'].
    by rewrite Hrun.
  - (* a directory *)
    simpl in Hc. simpl in Hmax. fold (weights children) in Hmax.
    pose proof (weights_nonneg children Hc) as Hws.
    cbn [Da.analyzeEntry entry_name weight]. fold (weights children).
    rewrite exclude_agree. cbn [entry_name] in Hex. rewrite Hex.
    unfold entry_events. rewrite visitSubDir_dir. cbn [Threaded.visitGit
      Threaded.visitFile].
    destruct (String.eqb (Path.filename (Path.append dir n)) GIT).
    + simpl. rewrite app_nil_r.
      destruct (Da_analyzeGit_events children s b Hc Hb Hb0 Hmax)
        as [Hrun Hb'].
      by rewrite Hrun.
    + destruct (Da_loop_events children IH (Path.append dir n) s b Hc Hb Hb0
                  ltac:(lia)) as [Hrun Hb'].
      fold (Da.analyzeEntry fs (Da_of_Threaded cfg)). rewrite Hrun.
      cbn [flat_map app]. rewrite app_nil_r.
      pose proof (directoryTask_by_entry fs cfg (Path.append dir n) i children)
        as Hperm.
      rewrite (effects_perm _ _ Hperm).
      assert (Hsame :
        counters
          (effects
             (Threaded.Claimed (Path.append dir n) i
                :: Threaded.scan (Threaded.shouldExclude fs cfg)
                     (Path.append dir n) (entry_events fs cfg) children) s)
        = counters
            (effects
               (Threaded.scan (Threaded.shouldExclude fs cfg)
                  (Path.append dir n) (entry_events fs cfg) children) s))
        by apply counters_effects_claim.
      split.
      * by rewrite Hsame.
      * change (Threaded.stats ?x) with (Da.stats (counters x)).
        rewrite Hsame. eapply bounded_mono; [exact Hb'|lia].
  - (* neither a file nor a directory *)
    simpl. rewrite exclude_agree. simpl in Hex. rewrite Hex.
    split; [done|]. eapply bounded_mono; [exact Hb|lia].
Qed.

(** On a tree on which no query fails and whose weight is within the
    range of [size_t], [da.cpp] ends with the counters of every complete
    execution of the multithreaded program. *)
Lemma Da_analyze_agrees path ident listing s0 tr s' :
  forallb clean listing = true ->
  well_formed listing = true ->
  weights listing <= SIZE_MAX ->
  Threaded.analyze_runs fs cfg path ident listing s0 tr s' ->
  Da.analyze fs (Da_of_Threaded cfg) path listing Da.init
  = inr (counters s').
Proof.
  intros Hc Hwf Hmax Hrun.
  destruct (analyze_runs_determined _ _ _ _ _ _ _ _ Hwf Hrun) as [_ ->].
  unfold Threaded.processDirectory.
  rewrite (effects_perm _ _ (directoryTask_by_entry fs cfg path ident listing)).
  rewrite counters_effects_claim.
  assert (Hb : bounded (Threaded.stats Threaded.init) 0)
    by (intros k st Hk; simpl in Hk; by rewrite lookup_empty in Hk).
  destruct (Da_loop_events listing
              ltac:(apply Forall_forall; intros e _;
                    apply Da_analyzeEntry_events)
              path Threaded.init 0 Hc Hb ltac:(lia) ltac:(lia)) as [H _].
  exact H.
Qed.

End Agreement.

(** When [fs::equivalent] does not throw and relates every path to
    itself, the two [shouldExclude] agree. *)
Lemma shouldExclude_agree fs (cfg : Threaded.Config) :
  (forall a b, fs a b <> None) -> (forall a, fs a a = Some true) ->
  forall p, Da.shouldExclude fs (Da_of_Threaded cfg) p
            = Threaded.shouldExclude fs cfg p.
Proof.
  intros Htotal Hrefl p.
  unfold Da.shouldExclude, Threaded.shouldExclude.
  change (Da.excludeDirs (Da_of_Threaded cfg))
    with (Threaded.excludeDirs cfg).
  enough (H : Da.shouldExclude_try fs p (Threaded.excludeDirs cfg)
              = Some (Threaded.shouldExclude_dirs fs p
                        (Threaded.excludeDirs cfg)))
    by (by rewrite H).
  induction (Threaded.excludeDirs cfg) as [|dir rest IH]; simpl; [done|].
  destruct (String.eqb_spec p dir) as [->|Hne]; simpl.
  - by rewrite Hrefl.
  - destruct (fs p dir) as [[|]|] eqn:H1.
    + by destruct (has_prefix _ _).
    + destruct (fs (Path.parent_path p) dir) as [[|]|] eqn:H2.
      * by destruct (has_prefix _ _).
      * by destruct (has_prefix _ _).
      * by apply Htotal in H2.
    + by apply Htotal in H1.
Qed.

(* ===================================================================== *)
(** * The number of threads *)
(* ===================================================================== *)

(** C2.  On every tree as a file system lists it (entry names are plain
    and distinct within a directory) and for every filter configuration:
    whatever the configured number of threads and whatever the schedule,
    [analyze] has a complete execution, and every complete execution
    ends in the state (per-type counts and totals, [totalFiles],
    [totalSize], [hiddenFiles], [hiddenSize], and [processedDirs]) of
    the traversal with one thread, which starts nothing asynchronously,
    having performed the same operations up to their order; hence two
    executions with any two thread counts end in the same state; and an
    execution, however far it has come, can always be completed.  The
    sequential program [da.cpp], which has no thread count, ends with
    the same counters when moreover no query on the tree fails, the two
    [shouldExclude] agree and the weight of the tree is within the range
    of [size_t], so that its [update] does not throw. *)
Theorem worker_count_invariance :
  forall fs (cfg : Threaded.Config) path ident listing,
    well_formed listing = true ->
    (forall n s0, exists tr s',
        Threaded.analyze_runs fs (Threaded.setThreadCount n cfg)
          path ident listing s0 tr s')
    /\ (forall n s0 tr s',
          Threaded.analyze_runs fs (Threaded.setThreadCount n cfg)
            path ident listing s0 tr s' ->
          s' = fst (Threaded.analyze fs (Threaded.setThreadCount 1 cfg)
                      path ident listing s0)
          /\ Permutation tr
               (snd (Threaded.analyze fs (Threaded.setThreadCount 1 cfg)
                       path ident listing s0)))
    /\ (forall n1 n2 s1 s2 tr1 tr2 s1' s2',
          Threaded.analyze_runs fs (Threaded.setThreadCount n1 cfg)
            path ident listing s1 tr1 s1' ->
          Threaded.analyze_runs fs (Threaded.setThreadCount n2 cfg)
            path ident listing s2 tr2 s2' ->
          s1' = s2'
          /\ Threaded.stats s1' = Threaded.stats s2'
          /\ Threaded.totalFiles s1' = Threaded.totalFiles s2'
          /\ Threaded.totalSize s1' = Threaded.totalSize s2'
          /\ Threaded.hiddenFiles s1' = Threaded.hiddenFiles s2'
          /\ Threaded.hiddenSize s1' = Threaded.hiddenSize s2')
    /\ no_par (Threaded.processDirectory fs (Threaded.setThreadCount 1 cfg)
                 path ident listing)
    /\ (forall n s0 tr s p,
          Threaded.steps (Threaded.reset s0)
            (Threaded.processDirectory fs (Threaded.setThreadCount n cfg)
               path ident listing) tr s p ->
          exists tr' s',
            Threaded.analyze_runs fs (Threaded.setThreadCount n cfg)
              path ident listing s0 (tr ++ tr') s')
    /\ ((forall p, Da.shouldExclude fs (Da_of_Threaded cfg) p
                   = Threaded.shouldExclude fs cfg p) ->
        forallb clean listing = true ->
        weights listing <= SIZE_MAX ->
        forall n s0 tr s',
          Threaded.analyze_runs fs (Threaded.setThreadCount n cfg)
            path ident listing s0 tr s' ->
          Da.analyze fs (Da_of_Threaded cfg) path listing Da.init
          = inr (counters s')).
Proof.
  intros fs cfg path ident listing Hwf.
  assert (Hall : forall n s0 tr s',
            Threaded.analyze_runs fs (Threaded.setThreadCount n cfg)
              path ident listing s0 tr s' ->
            Permutation tr
              (acts (Threaded.processDirectory fs cfg path ident listing))
            /\ s' = effects
                      (acts (Threaded.processDirectory fs cfg path ident
                               listing)) Threaded.init).
  { intros n s0 tr s' Hrun.
    destruct (analyze_runs_determined _ _ _ _ _ _ _ _ Hwf Hrun) as [Hp Hs].
    rewrite acts_processDirectory_threads in Hp, Hs. done. }
  assert (Hex : forall n s0, exists tr s',
            Threaded.analyze_runs fs (Threaded.setThreadCount n cfg)
              path ident listing s0 tr s').
  { intros n s0. do 2 eexists. apply run_steps. }
  split; [exact Hex|]. split; [|split; [|split; [|split]]].
  - intros n s0 tr s' Hrun.
    destruct (Hall n s0 tr s' Hrun) as [Hp ->].
    assert (Hone : Threaded.analyze_runs fs (Threaded.setThreadCount 1 cfg)
                     path ident listing s0
                     (snd (Threaded.analyze fs (Threaded.setThreadCount 1 cfg)
                             path ident listing s0))
                     (fst (Threaded.analyze fs (Threaded.setThreadCount 1 cfg)
                             path ident listing s0)))
      by apply run_steps.
    destruct (Hall 1 s0 _ _ Hone) as [Hp1 Hs1].
    split; [by rewrite Hs1|]. by rewrite Hp, Hp1.
  - intros n1 n2 s1 s2 tr1 tr2 s1' s2' H1 H2.
    destruct (Hall _ _ _ _ H1) as [_ ->].
    destruct (Hall _ _ _ _ H2) as [_ ->]. done.
  - unfold Threaded.processDirectory.
    apply no_par_directoryTask; [reflexivity|].
    apply scan_Forall, Forall_forall. intros e _ p.
    by apply no_par_visitSubDir.
  - intros n s0 tr s p Hpart. do 2 eexists.
    eapply steps_trans; [exact Hpart|apply run_steps].
  - intros Hagree Hclean Hmax n s0 tr s' Hrun.
    exact (Da_analyze_agrees fs (Threaded.setThreadCount n cfg) Hagree
             path ident listing s0 tr s' Hclean Hwf Hmax Hrun).
Qed.

(** With four threads the two subdirectories of [two_subdirs_tree] are
    started asynchronously. *)
Example fan_out_is_parallel :
  ~ no_par (Threaded.processDirectory no_equivalent
              (Threaded.setThreadCount 4 (threaded_default 1)) "root" 0
              two_subdirs_tree).
Proof. vm_compute. tauto. Qed.

Lemma worker_count_invariance_witness :
  well_formed two_subdirs_tree = true
  /\ fst (Threaded.analyze no_equivalent
            (Threaded.setThreadCount 4 (threaded_default 1)) "root" 0
            two_subdirs_tree Threaded.init)
     = fst (Threaded.analyze no_equivalent
              (Threaded.setThreadCount 1 (threaded_default 1)) "root" 0
              two_subdirs_tree Threaded.init)
  /\ Da.analyze no_equivalent da_default "root" two_subdirs_tree Da.init
     = inr (counters
              (fst (Threaded.analyze no_equivalent
                      (Threaded.setThreadCount 4 (threaded_default 1))
                      "root" 0 two_subdirs_tree Threaded.init))).
Proof.
  assert (Hwf : well_formed two_subdirs_tree = true)
    by (vm_compute; reflexivity).
  split; [exact Hwf|].
  destruct (worker_count_invariance no_equivalent (threaded_default 1)
              "root" 0%nat two_subdirs_tree Hwf) as (_ & H & _ & _ & _ & HDa).
  split.
  - apply (H 4 Threaded.init
             (snd (Threaded.analyze no_equivalent
                     (Threaded.setThreadCount 4 (threaded_default 1)) "root" 0
                     two_subdirs_tree Threaded.init))).
    apply run_steps.
  - apply (HDa ltac:(intros p; reflexivity) ltac:(reflexivity)
             ltac:(vm_compute; discriminate) 4 Threaded.init
             (snd (Threaded.analyze no_equivalent
                     (Threaded.setThreadCount 4 (threaded_default 1)) "root" 0
                     two_subdirs_tree Threaded.init))).
    apply run_steps.
Defined.

(* ===================================================================== *)
(** * The reset of the state *)
(* ===================================================================== *)

(** C4, as amended.  In the multithreaded program [analyze] starts by
    resetting the per-type map, the four counters and the set of
    processed directories to empty, so that its executions are the same
    from every earlier state of the analyzer; in particular a second
    call on the same analyzer ends as the first did, under every
    schedule on a well-formed tree, and in the schedule of [run] on any
    tree.  In [da.cpp], [analyze] is the recursive traversal itself and
    resets nothing: on an empty directory it returns the counters as it
    found them. *)
Theorem analyze_resets_in_threaded_variant :
  (forall s, Threaded.reset s = Threaded.init
             /\ Threaded.stats (Threaded.reset s) = ∅
             /\ Threaded.totalFiles (Threaded.reset s) = 0
             /\ Threaded.totalSize (Threaded.reset s) = 0
             /\ Threaded.hiddenFiles (Threaded.reset s) = 0
             /\ Threaded.hiddenSize (Threaded.reset s) = 0
             /\ Threaded.processedDirs (Threaded.reset s) = ∅)
  /\ (forall fs (cfg : Threaded.Config) path ident listing s s' tr f,
        Threaded.analyze_runs fs cfg path ident listing s tr f ->
        Threaded.analyze_runs fs cfg path ident listing s' tr f)
  /\ (forall fs (cfg : Threaded.Config) path ident listing s,
        fst (Threaded.analyze fs cfg path ident listing
               (fst (Threaded.analyze fs cfg path ident listing s)))
        = fst (Threaded.analyze fs cfg path ident listing s))
  /\ (forall fs (cfg : Threaded.Config) path ident listing s0 tr1 s1 tr2 s2,
        well_formed listing = true ->
        Threaded.analyze_runs fs cfg path ident listing s0 tr1 s1 ->
        Threaded.analyze_runs fs cfg path ident listing s1 tr2 s2 ->
        s2 = s1)
  /\ (forall fs (cfg : Da.Config) path s,
        Da.analyze fs cfg path [] s = inr s).
Proof.
  split; [intros s; repeat split|].
  split; [intros fs cfg path ident listing s s' tr f Hrun; exact Hrun|].
  split; [reflexivity|].
  split; [|reflexivity].
  intros fs cfg path ident listing s0 tr1 s1 tr2 s2 Hwf Hrun1 Hrun2.
  destruct (analyze_runs_determined _ _ _ _ _ _ _ _ Hwf Hrun1) as [_ ->].
  destruct (analyze_runs_determined _ _ _ _ _ _ _ _ Hwf Hrun2) as [_ ->].
  reflexivity.
Qed.

Lemma analyze_resets_in_threaded_variant_witness :
  well_formed sample_tree = true
  /\ fst (Threaded.analyze no_equivalent (threaded_default 4) "root" 0
            sample_tree
            (fst (Threaded.analyze no_equivalent (threaded_default 4)
                    "root" 0 sample_tree Threaded.init)))
     = fst (Threaded.analyze no_equivalent (threaded_default 4) "root" 0
              sample_tree Threaded.init).
Proof.
  assert (Hwf : well_formed sample_tree = true) by (vm_compute; reflexivity).
  split; [exact Hwf|].
  destruct analyze_resets_in_threaded_variant as (_ & _ & _ & H & _).
  apply (H no_equivalent (threaded_default 4) "root" 0%nat sample_tree
           Threaded.init
           (snd (Threaded.analyze no_equivalent (threaded_default 4)
                   "root" 0 sample_tree Threaded.init))
           _
           (snd (Threaded.analyze no_equivalent (threaded_default 4)
                   "root" 0 sample_tree
                   (fst (Threaded.analyze no_equivalent (threaded_default 4)
                           "root" 0 sample_tree Threaded.init))))
           _ Hwf); apply run_steps.
Defined.

(** C4 as stated fails on [da.cpp]: a second call of [analyze] on the
    same analyzer, tree and configuration adds to the counters of the
    first. *)
Lemma Da_analyze_depends_on_previous_call :
  exists s1 s2,
    Da.analyze no_equivalent (da_hidden false) "root" env_only Da.init
    = inr s1
    /\ Da.analyze no_equivalent (da_hidden false) "root" env_only s1
       = inr s2
    /\ Da.hiddenFiles s1 = 1 /\ Da.hiddenFiles s2 = 2
    /\ Da.totalSize s1 = 100 /\ Da.totalSize s2 = 200
    /\ s1 <> s2.
Proof.
  do 2 eexists. split; [reflexivity|]. split; [reflexivity|].
  repeat split; by vm_compute.
Qed.

(* ===================================================================== *)
(** * Errors during the traversal *)
(* ===================================================================== *)

(** Only a regular file whose size cannot be read leaves the error code
    of the loop set. *)
Lemma Da_analyzeEntry_error_code fs cfg dir (e : entry) s s' ec :
  size_readable e = true ->
  Da.analyzeEntry fs cfg dir e s = inr (s', ec) -> ec = false.
Proof.
  intros Hr. destruct e as [n [z|]|n i children|n|n]; try discriminate;
    cbn [Da.analyzeEntry entry_name];
    destruct (Da.shouldExclude fs cfg _); try congruence.
  - unfold Da.analyzeFile.
    repeat match goal with
           | |- context [if ?b then _ else _] => destruct b
           | |- context [match ?x with (_, _) => _ end] => destruct x
           | |- context [match ?x with Some _ => _ | None => _ end] =>
               destruct x
           end; congruence.
  - destruct (String.eqb _ GIT).
    + destruct (Da.analyzeGit cfg children s); congruence.
    + destruct (Da.loop _ children false s); congruence.
Qed.

(** After entries whose size could be read, the loop goes on with a
    clear error code. *)
Lemma Da_loop_app fs cfg dir (pre post : list entry) (s : Da.State) :
  forallb size_readable pre = true ->
  Da.loop (Da.analyzeEntry fs cfg dir) (pre ++ post) false s
  = match Da.loop (Da.analyzeEntry fs cfg dir) pre false s with
    | inl x => inl x
    | inr s1 => Da.loop (Da.analyzeEntry fs cfg dir) post false s1
    end.
Proof.
  revert s. induction pre as [|e pre IH]; intros s Hr; [done|].
  simpl in Hr. apply andb_true_iff in Hr as [He Hpre].
  cbn [app Da.loop].
  destruct (Da.analyzeEntry fs cfg dir e s) as [x|[s1 ec]] eqn:Hb; [done|].
  rewrite (Da_analyzeEntry_error_code _ _ _ _ _ _ _ He Hb). by apply IH.
Qed.

(** X1.  In [da.cpp], when [fs::file_size] fails on a regular file, the
    entry that the directory iterator yields next is skipped, whatever
    it is (a file, a whole subdirectory, an entry whose status query
    would throw): the error code that [file_size] has set is still set
    at the top of the next iteration.  The listing is analyzed as if
    neither entry were there. *)
Theorem Da_unreadable_size_skips_next_entry :
  forall fs cfg dir (pre : list entry) n (e : entry) rest s,
    forallb size_readable pre = true ->
    Da.shouldExclude fs cfg (Path.append dir n) = false ->
    Da.analyze fs cfg dir (pre ++ EFile n None :: e :: rest) s
    = Da.analyze fs cfg dir (pre ++ rest) s.
Proof.
  intros fs cfg dir pre n e rest s Hpre Hex. unfold Da.analyze.
  rewrite !Da_loop_app by done.
  destruct (Da.loop _ pre false s) as [x|s1]; [done|].
  cbn [Da.loop Da.analyzeEntry entry_name]. by rewrite Hex.
Qed.

Lemma Da_unreadable_size_skips_next_entry_witness :
  Da.analyze no_equivalent da_default "root"
    ([EFile "a.txt" (Some 1)]
       ++ EFile "gone.txt" None
       :: EDir "sub" 1 [EFile "b.txt" (Some 2)] :: [EFile "c.txt" (Some 4)])
    Da.init
  = Da.analyze no_equivalent da_default "root"
      ([EFile "a.txt" (Some 1)] ++ [EFile "c.txt" (Some 4)]) Da.init.
Proof.
  apply (Da_unreadable_size_skips_next_entry no_equivalent da_default "root"
           [EFile "a.txt" (Some 1)] "gone.txt"
           (EDir "sub" 1 [EFile "b.txt" (Some 2)]) [EFile "c.txt" (Some 4)]
           Da.init); reflexivity.
Defined.

Lemma scan_excluded {A} ex dir (visit : string -> entry -> list A)
    (pre post : list entry) (e : entry) :
  ex (Path.append dir (entry_name e)) = true ->
  Threaded.scan ex dir visit (pre ++ e :: post)
  = Threaded.scan ex dir visit (pre ++ post).
Proof.
  intros He. induction pre as [|e' pre IH]; simpl.
  - by rewrite He.
  - by rewrite IH.
Qed.

(** X2.  An excluded entry is invisible: in the multithreaded program
    the call for a listing is the same program with the entry and
    without it, whatever the entry is; in [da.cpp] the analysis gives
    the same result with the entry and without it when the entries
    before it were not files of unreadable size (after such a file the
    excluded entry is the one that the loop skips, see X1). *)
Theorem excluded_entry_is_invisible :
  forall fs (cfgD : Da.Config) (cfgT : Threaded.Config) dir ident
         (pre post : list entry) (e : entry),
    (Threaded.shouldExclude fs cfgT (Path.append dir (entry_name e)) = true ->
     Threaded.processDirectory fs cfgT dir ident (pre ++ e :: post)
     = Threaded.processDirectory fs cfgT dir ident (pre ++ post))
    /\ (Da.shouldExclude fs cfgD (Path.append dir (entry_name e)) = true ->
        forallb size_readable pre = true ->
        forall s, Da.analyze fs cfgD dir (pre ++ e :: post) s
                  = Da.analyze fs cfgD dir (pre ++ post) s).
Proof.
  intros fs cfgD cfgT dir ident pre post e. split.
  - intros He. unfold Threaded.processDirectory, Threaded.directoryTask.
    by rewrite !(scan_excluded _ _ _ pre post e He).
  - intros He Hpre s. unfold Da.analyze. rewrite !Da_loop_app by done.
    destruct (Da.loop _ pre false s) as [x|s1]; [done|].
    cbn [Da.loop]. by rewrite Da_analyzeEntry_excluded.
Qed.

Lemma excluded_entry_is_invisible_witness :
  Threaded.processDirectory same_string (threaded_excluding ["root/b"])
    "root" 0
    ([EDir "a" 1 [EFile "x.txt" (Some 3)]]
       ++ EDir "b" 2 [EThrow "y"] :: [EFile "z.txt" (Some 5)])
  = Threaded.processDirectory same_string (threaded_excluding ["root/b"])
      "root" 0
      ([EDir "a" 1 [EFile "x.txt" (Some 3)]] ++ [EFile "z.txt" (Some 5)])
  /\ Da.analyze same_string (da_excluding ["root/b"]) "root"
       ([EDir "a" 1 [EFile "x.txt" (Some 3)]]
          ++ EDir "b" 2 [EThrow "y"] :: [EFile "z.txt" (Some 5)]) Da.init
     = Da.analyze same_string (da_excluding ["root/b"]) "root"
         ([EDir "a" 1 [EFile "x.txt" (Some 3)]] ++ [EFile "z.txt" (Some 5)])
         Da.init.
Proof.
  destruct (excluded_entry_is_invisible same_string
              (da_excluding ["root/b"]) (threaded_excluding ["root/b"])
              "root" 0%nat [EDir "a" 1 [EFile "x.txt" (Some 3)]]
              [EFile "z.txt" (Some 5)] (EDir "b" 2 [EThrow "y"]))
    as [HT HD].
  split.
  - apply HT. reflexivity.
  - apply HD; reflexivity.
Defined.

(** A status query that throws where the traversal of [da.cpp] meets it
    ends the call with the exception. *)
Lemma Da_meets_throw_fails fs cfg dir listing :
  meets_throw fs cfg dir listing ->
  forall s, exists x, Da.loop (Da.analyzeEntry fs cfg dir) listing false s
                      = inl x.
Proof.
  induction 1 as [dir pre n post Hpre Hex
                 |dir pre n i children post Hpre Hex Hgit _ IH]; intros s;
    rewrite Da_loop_app by done;
    (destruct (Da.loop _ pre false s) as [x|s1]; [by exists x|]).
  - exists filesystem_error. cbn [Da.loop Da.analyzeEntry entry_name].
    by rewrite Hex.
  - destruct (IH s1) as [x Hx]. exists x.
    cbn [Da.loop Da.analyzeEntry entry_name]. rewrite Hex, Hgit.
    fold (Da.analyzeEntry fs cfg). by rewrite Hx.
Qed.

(** X3.  In [da.cpp] a status query that throws is fatal for the whole
    run: when the traversal meets an entry whose [is_directory] or
    [is_regular_file] throws, at whatever depth, the outermost call of
    [analyze] ends with an exception, whatever the state of the analyzer
    and whatever else the tree holds. *)
Theorem Da_status_error_is_fatal :
  forall fs cfg dir listing,
    meets_throw fs cfg dir listing ->
    forall s, exists x, Da.analyze fs cfg dir listing s = inl x.
Proof. intros fs cfg dir listing H s. by apply Da_meets_throw_fails. Qed.

Lemma Da_status_error_is_fatal_witness :
  exists x,
    Da.analyze no_equivalent da_default "root"
      ([EFile "a.txt" (Some 1)]
         ++ EDir "sub" 1 ([] ++ EThrow "broken" :: [EFile "b.txt" (Some 2)])
         :: [EFile "c.txt" (Some 4)]) Da.init
    = inl x.
Proof.
  apply (Da_status_error_is_fatal no_equivalent da_default "root").
  apply meets_throw_below; [reflexivity|reflexivity|reflexivity|].
  apply meets_throw_here; reflexivity.
Defined.

Lemma scan_throw {A} ex dir (visit : string -> entry -> list A)
    (pre post : list entry) n :
  ex (Path.append dir n) = false ->
  Threaded.scan ex dir visit (pre ++ EThrow n :: post)
  = Threaded.scan ex dir visit pre.
Proof.
  intros He. induction pre as [|e' pre IH]; simpl.
  - by rewrite He.
  - by rewrite IH.
Qed.

(** X4.  In the multithreaded program a status query that throws ends
    the listing of its directory only: the call for the directory is
    the same program as for the entries listed before the throwing one,
    so these are processed, the entries listed after it are dropped
    without a trace, and the run goes on. *)
Theorem Threaded_status_error_ends_the_listing :
  forall fs cfg dir ident (pre post : list entry) n,
    Threaded.shouldExclude fs cfg (Path.append dir n) = false ->
    Threaded.processDirectory fs cfg dir ident (pre ++ EThrow n :: post)
    = Threaded.processDirectory fs cfg dir ident pre.
Proof.
  intros fs cfg dir ident pre post n He.
  unfold Threaded.processDirectory, Threaded.directoryTask.
  by rewrite !(scan_throw _ _ _ pre post n He).
Qed.

Lemma Threaded_status_error_ends_the_listing_witness :
  Threaded.processDirectory no_equivalent (threaded_default 4) "root" 0
    ([EFile "a.txt" (Some 1)]
       ++ EThrow "broken" :: [EFile "c.txt" (Some 4)])
  = Threaded.processDirectory no_equivalent (threaded_default 4) "root" 0
      [EFile "a.txt" (Some 1)].
Proof.
  apply (Threaded_status_error_ends_the_listing no_equivalent
           (threaded_default 4) "root" 0%nat [EFile "a.txt" (Some 1)]
           [EFile "c.txt" (Some 4)] "broken").
  reflexivity.
Defined.

Lemma filename_no_slash (n : string) :
  contains ch_slash n = false -> Path.filename n = n.
Proof.
  destruct n as [|c r]; [done|]. simpl.
  destruct (Ascii.eqb c ch_slash); [done|]. simpl. by intros ->.
Qed.

Lemma contains_app (c : ascii) (a b : string) :
  contains c (a +:+ b) = contains c a || contains c b.
Proof.
  induction a as [|x a IH]; [done|].
  rewrite append_cons. simpl. rewrite IH. by rewrite orb_assoc.
Qed.

Lemma filename_app_slash (a n : string) :
  Path.filename (a +:+ String ch_slash n) = Path.filename n.
Proof.
  induction a as [|x a IH].
  - rewrite append_nil. simpl.
    destruct (contains ch_slash n) eqn:E; [done|].
    by rewrite filename_no_slash.
  - rewrite append_cons. cbn [Path.filename].
    rewrite contains_app. cbn [contains].
    change (Ascii.eqb ch_slash ch_slash) with true.
    by rewrite orb_true_r.
Qed.

(** The file name of [dir / name] is that of [name]. *)
Lemma filename_append (dir n : string) :
  Path.filename (Path.append dir n) = Path.filename n.
Proof.
  unfold Path.append. destruct (last_char dir) as [c|] eqn:Hl; [|done].
  destruct (Ascii.eqb c ch_slash) eqn:Hc.
  - apply Ascii.eqb_eq in Hc as ->.
    assert (exists a, dir = a +:+ "/") as [a ->].
    { clear n. induction dir as [|x r IH]; [done|].
      simpl in Hl. destruct r as [|y r'].
      - injection Hl as ->. by exists EmptyString.
      - destruct (IH Hl) as [a Ha]. exists (String x a).
        by rewrite append_cons, <- Ha. }
    rewrite string_app_assoc. change ("/" +:+ n) with (String ch_slash n).
    apply filename_app_slash.
  - change (dir +:+ "/" +:+ n) with (dir +:+ String ch_slash n).
    apply filename_app_slash.
Qed.

Lemma Da_loop_total fs cfg dir (es : list entry) :
  Forall (fun e => forall dir s, exists r,
            Da.analyzeEntry fs cfg dir e s = inr r) es ->
  forall ec s, exists s',
    Da.loop (Da.analyzeEntry fs cfg dir) es ec s = inr s'.
Proof.
  induction 1 as [|e es He _ IH]; intros ec s; [by exists s|].
  cbn [Da.loop]. destruct ec; [apply IH|].
  destruct (He dir s) as [[s1 ec1] ->]. apply IH.
Qed.

Lemma Da_analyzeEntry_total fs cfg (e : entry) :
  free_of_fatal e = true ->
  forall dir s, exists r, Da.analyzeEntry fs cfg dir e s = inr r.
Proof.
  induction e as [n sz|n i children IH|n|n] using entry_nested_ind;
    intros Hf dir s; try discriminate;
    cbn [Da.analyzeEntry entry_name];
    (destruct (Da.shouldExclude fs cfg _); [by eexists|]);
    try by eexists.
  simpl in Hf. apply andb_true_iff in Hf as [Hn Hc].
  rewrite filename_append. apply negb_true_iff in Hn. rewrite Hn.
  fold (Da.analyzeEntry fs cfg).
  destruct (Da_loop_total fs cfg (Path.append dir n) children) with
    (ec := false) (s := s) as [s' ->]; [|by eexists].
  apply Forall_forall. intros c Hin.
  rewrite Forall_forall in IH. apply IH; [done|].
  rewrite forallb_forall in Hc. apply Hc. by apply list_elem_of_In.
Qed.

(** X5.  In [da.cpp] nothing that happens to a regular file ends the
    run: on a tree in which no status query throws and no directory is
    named [.git], [analyze] returns, from every state of the analyzer,
    with every exclusion list and every filter, also when sizes cannot
    be read and when [update] throws [std::overflow_error]. *)
Theorem Da_file_errors_never_abort :
  forall fs cfg path listing,
    forallb free_of_fatal listing = true ->
    forall s, exists s', Da.analyze fs cfg path listing s = inr s'.
Proof.
  intros fs cfg path listing Hf s. unfold Da.analyze.
  apply Da_loop_total. apply Forall_forall. intros e Hin.
  apply Da_analyzeEntry_total.
  rewrite forallb_forall in Hf. apply Hf. by apply list_elem_of_In.
Qed.

Lemma Da_file_errors_never_abort_witness :
  exists s',
    Da.analyze no_equivalent da_default "root"
      [ EFile "gone.txt" None;
        EFile "a.bin" (Some (2 ^ 63)); EFile "b.bin" (Some (2 ^ 63));
        EDir "sub" 1 [EFile "c.bin" (Some (2 ^ 63)); EOther "pipe"] ]
      Da.init
    = inr s'.
Proof.
  apply (Da_file_errors_never_abort no_equivalent da_default "root").
  reflexivity.
Defined.

(* ===================================================================== *)
(** * Invariants of the counters *)
(* ===================================================================== *)

(** What [analyzeFile] and [analyzeGit] preserve, [analyze] preserves. *)
Lemma Da_analyze_preserves fs cfg (I : Da.State -> Prop) :
  (forall path size s, I s -> I (fst (Da.analyzeFile cfg path size s))) ->
  (forall children s s',
     I s -> Da.analyzeGit cfg children s = inr s' -> I s') ->
  forall path listing s s',
    I s -> Da.analyze fs cfg path listing s = inr s' -> I s'.
Proof.
  intros HF HG.
  assert (HE : forall e dir s s' ec,
             I s -> Da.analyzeEntry fs cfg dir e s = inr (s', ec) -> I s').
  { induction e as [n sz|n i children IH|n|n] using entry_nested_ind;
      intros dir s s' ec Hs; simpl;
      destruct (Da.shouldExclude fs cfg _); try (by intros [= <- <-]);
      try discriminate.
    - intros [= H]. pose proof (HF (Path.append dir n) sz s Hs) as Ha.
      by rewrite H in Ha.
    - destruct (String.eqb _ GIT).
      + destruct (Da.analyzeGit cfg children s) as [x|s1] eqn:Hg;
          [discriminate|]. intros [= <- <-]. by eapply HG.
      + destruct (Da.loop _ children false s) as [x|s1] eqn:Hl;
          [discriminate|]. intros [= <- <-].
        eapply (Da_loop_preserves I); [|exact Hs|exact Hl].
        eapply Forall_impl; [exact IH|]. simpl. intros e He s0 s0' ec0.
        apply He. }
  intros path listing s s' Hs Hrun. unfold Da.analyze in Hrun.
  eapply (Da_loop_preserves I); [|exact Hs|exact Hrun].
  apply Forall_forall. intros e _ s0 s0' ec0. apply HE.
Qed.

(** A step performs operations of the program it steps, leaves a
    program that holds no others, and changes the state by what it
    performs. *)
Lemma step_events s p l s' p' :
  Threaded.step s p l s' p' ->
  s' = effects l s
  /\ (forall ev, ev ∈ l -> ev ∈ acts p)
  /\ (forall ev, ev ∈ acts p' -> ev ∈ acts p).
Proof.
  induction 1 as [s a|s p l s' p' q _ IH|s q|s p l s' p' q _ IH
                  |s p q l s' q' _ IH|s|s path i body Hin
                  |s path i body Hnin]; simpl;
    try (destruct IH as (-> & IH1 & IH2)); (split; [done|]); split;
    intros ev; rewrite ?elem_of_app, ?elem_of_cons, ?elem_of_nil;
    try tauto.
  - intros Hev. left. by apply IH1.
  - intros [Hev|Hev]; [left; by apply IH2|by right].
  - intros Hev. left. by apply IH1.
  - intros [Hev|Hev]; [left; by apply IH2|by right].
  - intros Hev. right. by apply IH1.
  - intros [Hev|Hev]; [by left|right; by apply IH2].
Qed.

Lemma steps_events s p tr s' p' :
  Threaded.steps s p tr s' p' ->
  s' = effects tr s
  /\ (forall ev, ev ∈ tr -> ev ∈ acts p)
  /\ (forall ev, ev ∈ acts p' -> ev ∈ acts p).
Proof.
  induction 1 as [s p|s p l s1 p1 tr s2 p2 Hstep _ IH].
  { split; [done|]. split; [|done]. intros ev Hev.
    by apply elem_of_nil in Hev. }
  destruct (step_events _ _ _ _ _ Hstep) as (-> & H1 & H2).
  destruct IH as (-> & IH1 & IH2).
  split; [by rewrite effects_app|]. split.
  - intros ev [Hev|Hev]%elem_of_app; [by apply H1|]. by apply H2, IH1.
  - intros ev Hev. by apply H2, IH2.
Qed.

Lemma effects_preserve (I : Threaded.State -> Prop)
    (tr : list Threaded.event) :
  (forall ev s, ev ∈ tr -> I s -> I (Threaded.effect ev s)) ->
  forall s, I s -> I (effects tr s).
Proof.
  induction tr as [|ev tr IH]; intros Hev s Hs; [done|].
  unfold effects. simpl. apply IH.
  - intros ev' s' Hin. apply Hev. by apply elem_of_cons; right.
  - apply Hev; [by apply elem_of_cons; left|done].
Qed.

(** What holds of the claims, of the operations of [processFile] and of
    those of the [.git] branch holds of all operations of
    [processDirectory]. *)
Lemma acts_processDirectory_Forall fs cfg (Q : Threaded.event -> Prop) :
  (forall path ident, Q (Threaded.Claimed path ident)) ->
  (forall path size, Forall Q (acts (Threaded.processFile cfg path size))) ->
  (forall children,
     Forall Q (flat_map acts (Threaded.processGit cfg children))) ->
  forall dir ident listing,
    Forall Q (acts (Threaded.processDirectory fs cfg dir ident listing)).
Proof.
  intros HC HF HG.
  assert (Hscan : forall (v : string -> entry -> list Threaded.prog) dir es,
             Forall (fun e => forall p, Forall Q (flat_map acts (v p e))) es ->
             Forall Q (flat_map acts
                         (Threaded.scan (Threaded.shouldExclude fs cfg)
                            dir v es))).
  { intros v dir es. induction 1 as [|e es He _ IH]; simpl; [done|].
    destruct (Threaded.shouldExclude fs cfg _); [done|].
    destruct e; try done; rewrite flat_map_app; apply Forall_app;
      by split. }
  assert (Hgit : forall e p,
             Forall Q (flat_map acts (Threaded.visitGit cfg p e))).
  { intros [n sz|n i children|n|n] p; simpl; try done.
    destruct (String.eqb _ GIT); [apply HG|done]. }
  assert (Hfile : forall e p,
             Forall Q (flat_map acts (Threaded.visitFile cfg p e))).
  { intros [n sz|n i children|n|n] p; simpl; try done.
    rewrite app_nil_r. apply HF. }
  assert (Htask : forall dir ident listing subDirs,
             Forall Q (flat_map acts subDirs) ->
             Forall Q (acts (Threaded.directoryTask fs cfg dir ident listing
                               subDirs))).
  { intros dir ident listing subDirs Hs. rewrite acts_directoryTask.
    constructor; [apply HC|]. apply Forall_app. split.
    - apply Hscan, Forall_forall. intros e _ p. apply Hgit.
    - apply Forall_app. split; [|done].
      apply Hscan, Forall_forall. intros e _ p. apply Hfile. }
  assert (Hsub : forall e p,
             Forall Q (flat_map acts (Threaded.visitSubDir fs cfg p e))).
  { induction e as [n sz|n i children IH|n|n] using entry_nested_ind;
      intros p; try done.
    rewrite visitSubDir_dir. destruct (String.eqb _ GIT); [done|].
    rewrite flat_map_one. apply Htask. by apply Hscan. }
  intros dir ident listing. apply Htask, Hscan, Forall_forall.
  intros e _ p. apply Hsub.
Qed.

(** X6.  With [-a] ([showHidden] set) nothing is ever counted as hidden:
    [hiddenFiles] and [hiddenSize] keep their values through every call
    of [analyze] of [da.cpp] and through every execution of the
    multithreaded program, complete or not, under every schedule. *)
Theorem showHidden_counts_nothing_as_hidden :
  (forall fs (cfg : Da.Config) path listing s s',
     Da.showHidden cfg = true ->
     Da.analyze fs cfg path listing s = inr s' ->
     Da.hiddenFiles s' = Da.hiddenFiles s
     /\ Da.hiddenSize s' = Da.hiddenSize s)
  /\ (forall fs (cfg : Threaded.Config) path ident listing s tr s' p',
     Threaded.showHidden cfg = true ->
     Threaded.steps s (Threaded.processDirectory fs cfg path ident listing)
       tr s' p' ->
     Threaded.hiddenFiles s' = Threaded.hiddenFiles s
     /\ Threaded.hiddenSize s' = Threaded.hiddenSize s).
Proof.
  split.
  - intros fs cfg path listing s s' Hshow Hrun.
    apply (Da_analyze_preserves fs cfg
             (fun x => Da.hiddenFiles x = Da.hiddenFiles s
                       /\ Da.hiddenSize x = Da.hiddenSize s))
      with (path := path) (listing := listing) (s := s); [| |done|done].
    + intros p size x Hx. unfold Da.analyzeFile. rewrite Hshow.
      rewrite andb_false_r.
      destruct size as [z|]; [|done].
      destruct (negb _); [done|]. destruct (negb _); [done|].
      unfold Da.updateStats. destruct (Da.update _ z) as [st [e|]]; done.
    + intros children x x' Hx. unfold Da.analyzeGit. rewrite Hshow.
      destruct (Da.calculateDirectorySize children) as [e|g];
        [discriminate|].
      unfold Da.updateStats. destruct (Da.update _ g) as [st [e|]];
        [discriminate|]. by intros [= <-].
  - intros fs cfg path ident listing s tr s' p' Hshow Hrun.
    destruct (steps_events _ _ _ _ _ Hrun) as (-> & Htr & _).
    set (Q := fun ev : Threaded.event =>
                forall x, Threaded.hiddenFiles (Threaded.effect ev x)
                          = Threaded.hiddenFiles x
                          /\ Threaded.hiddenSize (Threaded.effect ev x)
                             = Threaded.hiddenSize x).
    assert (HQ : Forall Q (acts (Threaded.processDirectory fs cfg path ident
                                   listing))).
    { apply acts_processDirectory_Forall.
      - by intros p i x.
      - intros p size. unfold Threaded.processFile. rewrite Hshow.
        rewrite andb_false_r. destruct size as [z|]; [|done].
        destruct (negb _); [done|]. destruct (negb _); [done|].
        repeat constructor.
      - intros children. unfold Threaded.processGit. rewrite Hshow.
        destruct (foldM _ children 0); [done|]. repeat constructor. }
    rewrite Forall_forall in HQ.
    apply (effects_preserve
             (fun x => Threaded.hiddenFiles x = Threaded.hiddenFiles s
                       /\ Threaded.hiddenSize x = Threaded.hiddenSize s));
      [|done].
    intros ev x Hev [H1 H2]. destruct (HQ ev (Htr ev Hev) x) as [H3 H4].
    split; congruence.
Qed.

Lemma showHidden_counts_nothing_as_hidden_witness :
  (exists s', Da.analyze no_equivalent (da_hidden true) "root" sample_tree
                Da.init = inr s'
              /\ Da.hiddenFiles s' = 0 /\ Da.hiddenSize s' = 0)
  /\ Threaded.hiddenFiles
       (fst (Threaded.analyze no_equivalent (threaded_hidden true) "root" 0
               sample_tree Threaded.init)) = 0.
Proof.
  destruct showHidden_counts_nothing_as_hidden as [HD HT]. split.
  - destruct (Da.analyze no_equivalent (da_hidden true) "root" sample_tree
                Da.init) as [x|s'] eqn:Hrun; [by vm_compute in Hrun|].
    exists s'. split; [done|].
    apply (HD no_equivalent (da_hidden true) "root" sample_tree Da.init s');
      [reflexivity|exact Hrun].
  - apply (HT no_equivalent (threaded_hidden true) "root" 0%nat sample_tree
             Threaded.init
             (snd (Threaded.analyze no_equivalent (threaded_hidden true)
                     "root" 0 sample_tree Threaded.init))
             _ Threaded.Skip); [reflexivity|].
    apply run_steps.
Defined.

Lemma sum_counts_insert (m : gmap string FileTypeStats.t) k v :
  sum_counts (<[k := v]> m) =
  sum_counts m - FileTypeStats.count (default FileTypeStats.zero (m !! k))
  + FileTypeStats.count v.
Proof.
  unfold sum_counts. destruct (m !! k) as [old|] eqn:Hk; simpl.
  - rewrite <- (insert_delete_eq m).
    rewrite map_fold_insert_L; [|intros; lia|apply lookup_delete_eq].
    rewrite (map_fold_delete_L _ _ k old m); [lia|intros; lia|done].
  - rewrite map_fold_insert_L; [lia|intros; lia|done].
Qed.

(** Every operation of the multithreaded program adds as much to
    [totalFiles] as to the per-type counts. *)
Lemma effect_counts (ev : Threaded.event) (s : Threaded.State) :
  wrap (sum_counts (Threaded.stats s)) = wrap (Threaded.totalFiles s) ->
  wrap (sum_counts (Threaded.stats (Threaded.effect ev s)))
  = wrap (Threaded.totalFiles (Threaded.effect ev s)).
Proof.
  intros H. destruct ev as [[z| |z|k z]|p i]; simpl; try done.
  rewrite sum_counts_insert. unfold Threaded.update. simpl.
  rewrite wrap_wrap, wrap_add_r.
  replace (sum_counts (Threaded.stats s)
           - FileTypeStats.count
               (default FileTypeStats.zero (Threaded.stats s !! k))
           + (FileTypeStats.count
                (default FileTypeStats.zero (Threaded.stats s !! k)) + 1))
    with (sum_counts (Threaded.stats s) + 1) by lia.
  by apply wrap_eq_add.
Qed.

Lemma effect_totalFiles_in_range (ev : Threaded.event) (s : Threaded.State) :
  in_range (Threaded.totalFiles s) ->
  in_range (Threaded.totalFiles (Threaded.effect ev s)).
Proof.
  intros H. destruct ev as [[z| |z|k z]|p i]; simpl; auto with analyzer.
Qed.

(** X7.  In the multithreaded program the number shown as total files is
    the sum of the per-type counts: at every point of every execution of
    [analyze] at which no thread is inside a region of [statsMutex],
    under every schedule, [totalFiles] equals the sum over all type keys
    of the counts modulo [2^64], and equals it exactly whenever that sum
    is within the range of [size_t]. *)
Theorem Threaded_totalFiles_is_sum_of_counts :
  forall fs (cfg : Threaded.Config) path ident listing s0 tr s p,
    Threaded.steps (Threaded.reset s0)
      (Threaded.processDirectory fs cfg path ident listing) tr s p ->
    wrap (sum_counts (Threaded.stats s)) = Threaded.totalFiles s
    /\ (in_range (sum_counts (Threaded.stats s)) ->
        sum_counts (Threaded.stats s) = Threaded.totalFiles s).
Proof.
  intros fs cfg path ident listing s0 tr s p Hrun.
  destruct (steps_events _ _ _ _ _ Hrun) as (-> & _ & _).
  assert (H : wrap (sum_counts
                      (Threaded.stats (effects tr (Threaded.reset s0))))
              = wrap (Threaded.totalFiles (effects tr (Threaded.reset s0)))
              /\ in_range
                   (Threaded.totalFiles (effects tr (Threaded.reset s0)))).
  { apply (effects_preserve
             (fun x => wrap (sum_counts (Threaded.stats x))
                       = wrap (Threaded.totalFiles x)
                       /\ in_range (Threaded.totalFiles x))).
    - intros ev x _ [H1 H2]. split.
      + by apply effect_counts.
      + by apply effect_totalFiles_in_range.
    - split; [reflexivity|concrete_range]. }
  destruct H as [H Hr]. rewrite (wrap_small _ Hr) in H.
  split; [done|]. intros Hs. by rewrite (wrap_small _ Hs) in H.
Qed.

(** What [update] of [da.cpp] does to the count. *)
Lemma Da_update_count (st : FileTypeStats.t) (size : Z) :
  in_range (FileTypeStats.count st) ->
  in_range (FileTypeStats.count (fst (Da.update st size)))
  /\ (FileTypeStats.count (fst (Da.update st size)) = FileTypeStats.count st
      /\ snd (Da.update st size) <> None
      \/ FileTypeStats.count (fst (Da.update st size))
         = FileTypeStats.count st + 1).
Proof.
  intros Hc. unfold Da.update.
  destruct (Z.eqb_spec (FileTypeStats.count st) SIZE_MAX) as [E|NE]; simpl.
  - split; [done|]. by left.
  - assert (Hw : wrap (FileTypeStats.count st + 1)
                 = FileTypeStats.count st + 1)
      by (apply wrap_small; unfold in_range in *; lia).
    destruct (_ >? _); simpl; rewrite Hw;
      (split; [unfold in_range in *; lia|by right]).
Qed.

Lemma Da_updateStats_counts key size (s : Da.State) :
  Da_counts_invariant s ->
  Da_counts_invariant (fst (Da.updateStats key size s))
  /\ (snd (Da.updateStats key size s) = None ->
      Da_counts_invariant
        (Da.addTotalSize size
           (Da.incTotalFiles (fst (Da.updateStats key size s))))).
Proof.
  intros (Hc & Hr & Hle). unfold Da.updateStats.
  set (st := default FileTypeStats.zero (Da.stats s !! key)).
  assert (Hst : in_range (FileTypeStats.count st)).
  { unfold st. destruct (Da.stats s !! key) as [st0|] eqn:Hk; simpl.
    - by apply (Hc key).
    - concrete_range. }
  destruct (Da_update_count st size Hst) as [Hr' Hcases].
  destruct (Da.update st size) as [st' err] eqn:Hu. simpl in *.
  assert (Hall : forall k x, <[key := st']> (Da.stats s) !! k = Some x ->
                             in_range (FileTypeStats.count x)).
  { intros k x. destruct (decide (k = key)) as [->|Hne].
    - rewrite lookup_insert_eq. by intros [= <-].
    - rewrite lookup_insert_ne by done. apply Hc. }
  pose proof (sum_counts_insert (Da.stats s) key st') as Hsum.
  fold st in Hsum.
  pose proof (wrap_le (Da.totalFiles s + 1)
                ltac:(unfold in_range in Hr; lia)) as Hw.
  split.
  - split; [exact Hall|]. split; [exact Hr|]. simpl.
    destruct Hcases as [[E _]|E]; lia.
  - intros ->. split; [exact Hall|]. split; [apply wrap_in_range|]. simpl.
    destruct Hcases as [[_ E]|E]; [done|lia].
Qed.

(** X8.  In [da.cpp], [update] increments the count before it checks the
    size: when the per-type total would leave the range of [size_t] it
    throws with the count already incremented and the total unchanged,
    and the file is left out of [totalFiles] and [totalSize].  So after
    every run [totalFiles] is at most the sum of the per-type counts,
    and it is smaller when such a file was met. *)
Theorem Da_update_counts_before_it_throws :
  (forall (st : FileTypeStats.t) (size : Z),
     in_range (FileTypeStats.count st) ->
     in_range (FileTypeStats.totalSize st) ->
     in_range size ->
     FileTypeStats.count st < SIZE_MAX ->
     FileTypeStats.totalSize st + size > SIZE_MAX ->
     Da.update st size
     = ({| FileTypeStats.count := FileTypeStats.count st + 1;
           FileTypeStats.totalSize := FileTypeStats.totalSize st |},
        Some (overflow_error "Total size overflow")))
  /\ (forall fs (cfg : Da.Config) path listing s',
        Da.analyze fs cfg path listing Da.init = inr s' ->
        Da.totalFiles s' <= sum_counts (Da.stats s'))
  /\ (exists s',
        Da.analyze no_equivalent da_default "root" three_huge_files Da.init
        = inr s'
        /\ Da.totalFiles s' = 2 /\ sum_counts (Da.stats s') = 3).
Proof.
  split; [|split].
  - intros st size Hc Ht Hs Hlt Hgt. unfold Da.update.
    destruct (Z.eqb_spec (FileTypeStats.count st) SIZE_MAX) as [E|_]; [lia|].
    simpl.
    rewrite (wrap_small (SIZE_MAX - size)) by (unfold in_range in *; lia).
    destruct (Z.gtb_spec (FileTypeStats.totalSize st) (SIZE_MAX - size));
      [|lia].
    by rewrite wrap_small by (unfold in_range in *; lia).
  - intros fs cfg path listing s' Hrun.
    enough (H : Da_counts_invariant s') by apply H.
    apply (Da_analyze_preserves fs cfg Da_counts_invariant)
      with (path := path) (listing := listing) (s := Da.init);
      [| | |exact Hrun].
    + intros p size s Hs. unfold Da.analyzeFile.
      destruct size as [z|]; [|done].
      destruct (negb _); [done|]. destruct (negb _); [done|].
      destruct (_ && _); [exact Hs|].
      destruct (Da_updateStats_counts (getFileType p) z s Hs) as [H1 H2].
      destruct (Da.updateStats (getFileType p) z s) as [s1 [x|]];
        [exact H1|by apply H2].
    + intros children s s1 Hs. unfold Da.analyzeGit.
      destruct (Da.calculateDirectorySize children) as [x|g];
        [discriminate|].
      destruct (Da.showHidden cfg); [|by intros [= <-]].
      destruct (Da_updateStats_counts GIT g s Hs) as [H1 H2].
      destruct (Da.updateStats GIT g s) as [s2 [x|]]; [discriminate|].
      intros [= <-]. by apply H2.
    + split; [|split].
      * intros k st Hk. simpl in Hk. by rewrite lookup_empty in Hk.
      * concrete_range.
      * by vm_compute.
  - eexists. split; [reflexivity|]. split; by vm_compute.
Qed.

Lemma Da_update_counts_before_it_throws_witness :
  Da.update {| FileTypeStats.count := 2;
               FileTypeStats.totalSize := 2 ^ 64 - 2 |} 2
  = ({| FileTypeStats.count := 3; FileTypeStats.totalSize := 2 ^ 64 - 2 |},
     Some (overflow_error "Total size overflow")).
Proof.
  destruct Da_update_counts_before_it_throws as [H _].
  apply (H {| FileTypeStats.count := 2;
              FileTypeStats.totalSize := 2 ^ 64 - 2 |} 2);
    try concrete_range; vm_compute; reflexivity.
Defined.

(* ===================================================================== *)
(** * The size of a [.git] directory *)
(* ===================================================================== *)

Lemma readable_total_app (a b : list (option Z)) :
  readable_total (a ++ b) = readable_total a + readable_total b.
Proof. induction a as [|[z|] a IH]; simpl; lia. Qed.

Lemma unreadable_app (a b : list (option Z)) :
  unreadable (a ++ b) = unreadable a + unreadable b.
Proof. induction a as [|[z|] a IH]; simpl; lia. Qed.

Lemma unreadable_nonneg (a : list (option Z)) : 0 <= unreadable a.
Proof. induction a as [|[z|] a IH]; simpl; lia. Qed.

Lemma wrap_add_SIZE_MAX (g : Z) : wrap (g + SIZE_MAX) = wrap (g - 1).
Proof.
  unfold wrap, SIZE_MAX.
  replace (g + (SIZE_MOD - 1)) with (g - 1 + 1 * SIZE_MOD) by lia.
  apply Z_mod_plus_full.
Qed.

Lemma git_sizes_list (es : list entry) :
  Forall (fun e => listable e = true -> forall g, in_range g ->
            git_sizes_spec g (file_sizes e)
              (Threaded.gitSizeOfEntry e g) (Da.sizeOfEntry e g)) es ->
  forallb listable es = true -> forall g, in_range g ->
  git_sizes_spec g (flat_map file_sizes es)
    (foldM Threaded.gitSizeOfEntry es g) (foldM Da.sizeOfEntry es g).
Proof.
  induction 1 as [|e es He _ IH]; intros Hl g Hg.
  - split; simpl; rewrite ?Z.add_0_r, ?Z.sub_0_r; by rewrite wrap_small.
  - simpl in Hl. apply andb_true_iff in Hl as [Hl1 Hl2].
    destruct (He Hl1 g Hg) as [HT HD].
    unfold git_sizes_spec. cbn [flat_map].
    change (foldM Threaded.gitSizeOfEntry (e :: es) g)
      with (match Threaded.gitSizeOfEntry e g with
            | inl x => inl x
            | inr s' => foldM Threaded.gitSizeOfEntry es s'
            end).
    change (foldM Da.sizeOfEntry (e :: es) g)
      with (match Da.sizeOfEntry e g with
            | inl x => inl x
            | inr s' => foldM Da.sizeOfEntry es s'
            end).
    rewrite HT, HD, readable_total_app, unreadable_app.
    pose proof (unreadable_nonneg (file_sizes e)) as Hn1.
    pose proof (unreadable_nonneg (flat_map file_sizes es)) as Hn2.
    split.
    + destruct (IH Hl2 (wrap (g + readable_total (file_sizes e)
                              - unreadable (file_sizes e)))
                  (wrap_in_range _)) as [-> _].
      rewrite <- Z.add_sub_assoc, wrap_add_l. do 2 f_equal. lia.
    + destruct (Z.eqb_spec (unreadable (file_sizes e)) 0) as [E|NE].
      * destruct (IH Hl2 (wrap (g + readable_total (file_sizes e)))
                    (wrap_in_range _)) as [_ ->]. rewrite E.
        simpl. destruct (_ =? 0); [|done].
        rewrite wrap_add_l. do 2 f_equal. lia.
      * destruct (Z.eqb_spec (unreadable (file_sizes e)
                              + unreadable (flat_map file_sizes es)) 0);
          [lia|done].
Qed.

Lemma git_sizes_entry (e : entry) :
  listable e = true -> forall g, in_range g ->
  git_sizes_spec g (file_sizes e)
    (Threaded.gitSizeOfEntry e g) (Da.sizeOfEntry e g).
Proof.
  induction e as [n [z|]|n i children IH|n|n] using entry_nested_ind;
    intros Hl g Hg; try discriminate.
  - split; simpl; do 2 f_equal; lia.
  - split; simpl; [|done]. rewrite wrap_add_SIZE_MAX. do 2 f_equal. lia.
  - by apply git_sizes_list.
  - split; simpl; rewrite ?Z.add_0_r, ?Z.sub_0_r; by rewrite wrap_small.
Qed.

(** X9.  The size of a [.git] directory.  Where no status query throws
    below it, the multithreaded program counts every file whose size
    cannot be read as [2^64 - 1] bytes ([fs::file_size] with an error
    code returns [static_cast<uintmax_t>(-1)], which is added): its
    [gitSize] is the sum of the sizes that can be read minus the number
    of files whose size cannot, modulo [2^64].  In [da.cpp],
    [calculateDirectorySize] gives the sum of the sizes modulo [2^64]
    when all can be read, and throws otherwise. *)
Theorem git_directory_size :
  forall children,
    forallb listable children = true ->
    foldM Threaded.gitSizeOfEntry children 0
    = inr (wrap (readable_total (flat_map file_sizes children)
                 - unreadable (flat_map file_sizes children)))
    /\ Da.calculateDirectorySize children
       = if unreadable (flat_map file_sizes children) =? 0
         then inr (wrap (readable_total (flat_map file_sizes children)))
         else inl filesystem_error.
Proof.
  intros children Hl.
  destruct (git_sizes_list children
              ltac:(apply Forall_forall; intros e _; apply git_sizes_entry)
              Hl 0 ltac:(concrete_range)) as [HT HD].
  split; [exact HT|exact HD].
Qed.

Lemma git_directory_size_witness :
  foldM Threaded.gitSizeOfEntry
    [EFile "HEAD" (Some 100); EDir "objects" 2 [EFile "pack" None]] 0
  = inr 99
  /\ foldM Threaded.gitSizeOfEntry [EFile "index.lock" None] 0
     = inr SIZE_MAX
  /\ Da.calculateDirectorySize [EFile "index.lock" None]
     = inl filesystem_error.
Proof.
  split; [|split].
  - apply (git_directory_size
             [EFile "HEAD" (Some 100); EDir "objects" 2 [EFile "pack" None]]).
    reflexivity.
  - apply (git_directory_size [EFile "index.lock" None]). reflexivity.
  - apply (git_directory_size [EFile "index.lock" None]). reflexivity.
Defined.

(* ===================================================================== *)
(** * Excluded directories *)
(* ===================================================================== *)

Lemma Da_shouldExclude_try_prefix fs path (dirs : list string) dir :
  dir ∈ dirs -> has_prefix (dir +:+ "/") path = true ->
  Da.shouldExclude_try fs path dirs <> Some false.
Proof.
  intros Hin Hp. induction dirs as [|d dirs IH]; [by apply elem_of_nil in Hin|].
  simpl. destruct (fs path d) as [[|]|]; try done.
  destruct (fs (Path.parent_path path) d) as [[|]|]; try done.
  destruct (has_prefix (d +:+ "/") path) eqn:Hd; [done|].
  apply elem_of_cons in Hin as [->|Hin]; [congruence|by apply IH].
Qed.

Lemma existsb_prefix (path : string) (dirs : list string) dir :
  dir ∈ dirs -> has_prefix (dir +:+ "/") path = true ->
  existsb (fun d => has_prefix (d +:+ "/") path) dirs = true.
Proof.
  intros Hin Hp. apply existsb_exists. exists dir.
  split; [by apply list_elem_of_In|done].
Qed.

(** X10.  Everything below an excluded directory is excluded, whatever
    [fs::equivalent] answers and also when it throws: a path that
    starts with the string of an excluded directory followed by the
    separator is excluded by both programs. *)
Theorem exclusion_covers_what_lies_below :
  forall fs (cfgD : Da.Config) (cfgT : Threaded.Config) dir path,
    has_prefix (dir +:+ "/") path = true ->
    (dir ∈ Da.excludeDirs cfgD -> Da.shouldExclude fs cfgD path = true)
    /\ (dir ∈ Threaded.excludeDirs cfgT ->
        Threaded.shouldExclude fs cfgT path = true).
Proof.
  intros fs cfgD cfgT dir path Hp. split; intros Hin.
  - unfold Da.shouldExclude.
    pose proof (Da_shouldExclude_try_prefix fs path _ dir Hin Hp) as Hne.
    destruct (Da.shouldExclude_try fs path (Da.excludeDirs cfgD))
      as [[|]|]; [done|done|].
    by apply (existsb_prefix path _ dir).
  - unfold Threaded.shouldExclude.
    induction (Threaded.excludeDirs cfgT) as [|d dirs IH];
      [by apply elem_of_nil in Hin|].
    simpl. apply elem_of_cons in Hin as [<-|Hin].
    + by rewrite Hp, orb_true_r.
    + destruct (_ || _); [done|].
      destruct (fs path d) as [[|]|]; [done| |by apply IH].
      destruct (fs (Path.parent_path path) d) as [[|]|]; try done;
        by apply IH.
Qed.

Lemma exclusion_covers_what_lies_below_witness :
  Da.shouldExclude equivalent_throws (da_excluding ["build"; "root/out"])
    "root/out/a/b.o" = true
  /\ Threaded.shouldExclude no_equivalent
       (threaded_excluding ["build"; "root/out"]) "root/out/a/b.o" = true.
Proof.
  destruct (exclusion_covers_what_lies_below equivalent_throws
              (da_excluding ["build"; "root/out"])
              (threaded_excluding ["build"; "root/out"])
              "root/out" "root/out/a/b.o" ltac:(reflexivity)) as [HD _].
  destruct (exclusion_covers_what_lies_below no_equivalent
              (da_excluding ["build"; "root/out"])
              (threaded_excluding ["build"; "root/out"])
              "root/out" "root/out/a/b.o" ltac:(reflexivity)) as [_ HT].
  split.
  - apply HD. apply elem_of_cons. right. apply elem_of_cons. by left.
  - apply HT. apply elem_of_cons. right. apply elem_of_cons. by left.
Defined.

Lemma Da_shouldExclude_try_app fs path (dirs : list string) d :
  Da.shouldExclude_try fs path (dirs ++ [d])
  = match Da.shouldExclude_try fs path dirs with
    | Some false => Da.shouldExclude_try fs path [d]
    | r => r
    end.
Proof.
  induction dirs as [|d0 dirs IH]; [done|]. cbn [app Da.shouldExclude_try].
  destruct (fs path d0) as [[|]|]; try done.
  destruct (fs (Path.parent_path path) d0) as [[|]|]; try done.
  by destruct (has_prefix _ _).
Qed.

Lemma Threaded_shouldExclude_dirs_app fs path (dirs : list string) d :
  Threaded.shouldExclude_dirs fs path dirs = true ->
  Threaded.shouldExclude_dirs fs path (dirs ++ [d]) = true.
Proof.
  induction dirs as [|d0 dirs IH]; [done|].
  cbn [app Threaded.shouldExclude_dirs].
  destruct (_ || _); [done|].
  destruct (fs path d0) as [[|]|]; try done.
  by destruct (fs (Path.parent_path path) d0) as [[|]|].
Qed.

(** X11.  [addExcludeDir] only ever excludes more: a path that is
    excluded stays excluded after any further call of [addExcludeDir],
    in both programs, whatever [fs::equivalent] answers and also when
    it throws. *)
Theorem addExcludeDir_excludes_more :
  forall fs (cfgD : Da.Config) (cfgT : Threaded.Config) dir path,
    (Da.shouldExclude fs cfgD path = true ->
     Da.shouldExclude fs (DaMain.addExcludeDir dir cfgD) path = true)
    /\ (Threaded.shouldExclude fs cfgT path = true ->
        Threaded.shouldExclude fs (ThreadedMain.addExcludeDir dir cfgT) path
        = true).
Proof.
  intros fs cfgD cfgT dir path. split.
  - unfold Da.shouldExclude. simpl. rewrite Da_shouldExclude_try_app.
    rewrite existsb_app.
    destruct (Da.shouldExclude_try fs path (Da.excludeDirs cfgD))
      as [[|]|]; [done|done|].
    by intros ->.
  - unfold Threaded.shouldExclude. simpl.
    apply Threaded_shouldExclude_dirs_app.
Qed.

Lemma addExcludeDir_excludes_more_witness :
  Da.shouldExclude same_string
    (DaMain.addExcludeDir "root/c" (da_excluding ["root/b"])) "root/b/y.txt"
  = true
  /\ Threaded.shouldExclude same_string
       (ThreadedMain.addExcludeDir "root/c" (threaded_excluding ["root/b"]))
       "root/b/y.txt" = true.
Proof.
  destruct (addExcludeDir_excludes_more same_string
              (da_excluding ["root/b"]) (threaded_excluding ["root/b"])
              "root/c" "root/b/y.txt") as [HD HT].
  split; [apply HD|apply HT]; reflexivity.
Defined.

Lemma prefix_longer (a b : string) :
  has_prefix (a +:+ String ch_slash b) a = false.
Proof.
  unfold has_prefix. induction a as [|c a IH]; [done|].
  rewrite append_cons. simpl. by destruct (ascii_dec c c).
Qed.

Lemma Da_shouldExclude_try_never fs path (all dirs : list string) :
  (forall a b, fs a b <> Some true) ->
  existsb (fun d => has_prefix (d +:+ "/") path) all
  = existsb (fun d => has_prefix (d +:+ "/") path) dirs ->
  match Da.shouldExclude_try fs path dirs with
  | Some b => b
  | None => existsb (fun d => has_prefix (d +:+ "/") path) all
  end
  = existsb (fun d => has_prefix (d +:+ "/") path) dirs.
Proof.
  intros Hnever. induction dirs as [|d dirs IH]; intros Hall; [done|].
  cbn [Da.shouldExclude_try].
  destruct (fs path d) as [[|]|] eqn:H1; [by apply Hnever in H1| |done].
  destruct (fs (Path.parent_path path) d) as [[|]|] eqn:H2;
    [by apply Hnever in H2| |done].
  simpl in *. destruct (has_prefix (d +:+ "/") path); [done|].
  by apply IH.
Qed.

(** X12.  Where [fs::equivalent] never holds (it answers [false] or
    throws), [da.cpp] excludes exactly the paths that start with an
    excluded directory followed by the separator, and the multithreaded
    program these and the paths that are spelled as an excluded
    directory.  So when [fs::equivalent] throws on a directory, [-e]
    with that very directory keeps it out of the analysis of the
    multithreaded program and not out of that of [da.cpp]. *)
Theorem exclusion_without_equivalence :
  forall fs (cfgD : Da.Config) (cfgT : Threaded.Config) path,
    (forall a b, fs a b <> Some true) ->
    Da.shouldExclude fs cfgD path
    = existsb (fun d => has_prefix (d +:+ "/") path) (Da.excludeDirs cfgD)
    /\ Threaded.shouldExclude fs cfgT path
       = existsb (fun d => String.eqb path d || has_prefix (d +:+ "/") path)
           (Threaded.excludeDirs cfgT)
    /\ Da.shouldExclude fs (DaMain.addExcludeDir path (DaMain.new false))
         path = false
    /\ Threaded.shouldExclude fs
         (ThreadedMain.addExcludeDir path (ThreadedMain.new 1 false)) path
       = true.
Proof.
  intros fs cfgD cfgT path Hnever.
  assert (HD : forall cfg,
             Da.shouldExclude fs cfg path
             = existsb (fun d => has_prefix (d +:+ "/") path)
                 (Da.excludeDirs cfg)).
  { intros cfg. unfold Da.shouldExclude.
    by apply Da_shouldExclude_try_never. }
  split; [apply HD|]. split; [|split].
  - unfold Threaded.shouldExclude.
    induction (Threaded.excludeDirs cfgT) as [|d dirs IH]; [done|].
    simpl. destruct (_ || _); [done|]. simpl.
    destruct (fs path d) as [[|]|] eqn:H1; [by apply Hnever in H1| |done].
    by destruct (fs (Path.parent_path path) d) as [[|]|] eqn:H2;
      [apply Hnever in H2| |].
  - rewrite HD. simpl.
    change (path +:+ "/") with (path +:+ String ch_slash EmptyString).
    by rewrite prefix_longer.
  - unfold Threaded.shouldExclude. simpl. by rewrite String.eqb_refl.
Qed.

Lemma exclusion_without_equivalence_witness :
  Da.shouldExclude equivalent_throws (da_excluding ["root/b"]) "root/b"
  = false
  /\ Threaded.shouldExclude equivalent_throws
       (threaded_excluding ["root/b"]) "root/b" = true.
Proof.
  destruct (exclusion_without_equivalence equivalent_throws
              (da_excluding ["root/b"]) (threaded_excluding ["root/b"])
              "root/b" ltac:(discriminate)) as (HD & HT & _).
  split; [rewrite HD|rewrite HT]; reflexivity.
Defined.

(* ===================================================================== *)
(** * The argument loops *)
(* ===================================================================== *)

Ltac parse_step parseSize IH :=
  repeat match goal with
         | |- context [if ?b then _ else _] =>
             lazymatch b with
             | context [String.eqb] => destruct b eqn:?
             end
         | H : inr DaMain.Help = inr (DaMain.Run _) |- _ => discriminate H
         | H : inr ThreadedMain.Help = inr (ThreadedMain.Run _) |- _ =>
             discriminate H
         | H : inl _ = inr _ |- _ => discriminate H
         | |- context [match ?l with [] => _ | _ :: _ => _ end] =>
             is_var l; destruct l; cbn [app]
         | |- context [match parseSize ?v with _ => _ end] =>
             destruct (parseSize v)
         | |- context [match ThreadedMain.parse_thread_count ?v
                       with _ => _ end] =>
             destruct (ThreadedMain.parse_thread_count v)
         end;
  let H := fresh "H" in
  intros H;
  first [discriminate H
        |cbn [app]; apply IH; [simpl in *; lia|exact H]].

(** The argument loop of [da.cpp] over two lists of arguments, the first
    of which it reads to its end. *)
Lemma Da_parse_args_app parseSize (pre post : list string) :
  forall o o1,
    DaMain.parse_args parseSize pre o = inr (DaMain.Run o1) ->
    DaMain.parse_args parseSize (pre ++ post) o
    = DaMain.parse_args parseSize post o1.
Proof.
  remember (length pre) as n eqn:Hn.
  assert (Hle : (length pre <= n)%nat) by lia. clear Hn.
  revert pre Hle. induction n as [|n IH]; intros pre Hle o o1.
  - destruct pre; [|simpl in Hle; lia]. simpl. by intros [= ->].
  - destruct pre as [|arg rest]; [simpl; by intros [= ->]|].
    cbn [app DaMain.parse_args]. simpl in Hle.
    parse_step parseSize IH.
Qed.

Lemma Threaded_parse_args_app parseSize (pre post : list string) :
  forall o o1,
    ThreadedMain.parse_args parseSize pre o = inr (ThreadedMain.Run o1) ->
    ThreadedMain.parse_args parseSize (pre ++ post) o
    = ThreadedMain.parse_args parseSize post o1.
Proof.
  remember (length pre) as n eqn:Hn.
  assert (Hle : (length pre <= n)%nat) by lia. clear Hn.
  revert pre Hle. induction n as [|n IH]; intros pre Hle o o1.
  - destruct pre; [|simpl in Hle; lia]. simpl. by intros [= ->].
  - destruct pre as [|arg rest]; [simpl; by intros [= ->]|].
    cbn [app ThreadedMain.parse_args]. simpl in Hle.
    parse_step parseSize IH.
Qed.

(** X13.  [-h] (or [--help]) in a place where the loop reads an option
    ends the program with exit code 0 and the usage text alone,
    whatever the arguments before it have set (thresholds in the wrong
    order, a directory that does not exist) and whatever follows it; in
    the place of the value of an option it is that value and no help is
    given.  The same holds of both programs. *)
Theorem help_ends_the_program :
  forall parseSize fs is_directory tree can_create hc
         (pre post : list string) (h : string),
    h = "-h" \/ h = "--help" ->
    (forall o1,
       DaMain.parse_args parseSize pre DaMain.no_options
       = inr (DaMain.Run o1) ->
       DaMain.main parseSize fs is_directory tree can_create
         (pre ++ h :: post)
       = (0, [DaMain.Usage]))
    /\ (forall o1,
          ThreadedMain.parse_args parseSize pre ThreadedMain.no_options
          = inr (ThreadedMain.Run o1) ->
          ThreadedMain.main parseSize hc fs is_directory tree can_create
            (pre ++ h :: post)
          = (0, [ThreadedMain.Usage]))
    /\ (forall o,
          DaMain.parse_args parseSize ("-e" :: h :: post) o
          = DaMain.parse_args parseSize post
              {| DaMain.targetDir := DaMain.targetDir o;
                 DaMain.outputFile := DaMain.outputFile o;
                 DaMain.showHidden := DaMain.showHidden o;
                 DaMain.excludeDirs := DaMain.excludeDirs o ++ [h];
                 DaMain.includeTypes := DaMain.includeTypes o;
                 DaMain.sizeThreshold := DaMain.sizeThreshold o |}).
Proof.
  intros parseSize fs is_directory tree can_create hc pre post h Hh.
  split; [|split].
  - intros o1 Hpre. unfold DaMain.main.
    rewrite (Da_parse_args_app _ _ _ _ _ Hpre).
    by destruct Hh as [-> | ->].
  - intros o1 Hpre. unfold ThreadedMain.main.
    rewrite (Threaded_parse_args_app _ _ _ _ _ Hpre).
    by destruct Hh as [-> | ->].
  - intros o. reflexivity.
Qed.

Lemma help_ends_the_program_witness :
  DaMain.main (fun _ => inr 4096) no_equivalent (fun _ => Some false)
    (fun _ => []) (fun _ => true)
    (["-s"; "4K"; "-S"; "1K"; "no/such/dir"] ++ "--help" :: ["-e"])
  = (0, [DaMain.Usage]).
Proof.
  destruct (help_ends_the_program (fun _ => inr 4096) no_equivalent
              (fun _ => Some false) (fun _ => []) (fun _ => true) 8
              ["-s"; "4K"; "-S"; "1K"; "no/such/dir"] ["-e"] "--help"
              ltac:(by right)) as [H _].
  eapply H. reflexivity.
Defined.

(** An argument that the loop does not know is the directory when none
    has been given, and is dropped otherwise. *)
Lemma Da_parse_unknown parseSize (a : string) (post : list string) o :
  is_option Da_option_names a = false ->
  DaMain.parse_args parseSize (a :: post) o
  = DaMain.parse_args parseSize post
      (if String.eqb (DaMain.targetDir o) EmptyString
       then {| DaMain.targetDir := a;
               DaMain.outputFile := DaMain.outputFile o;
               DaMain.showHidden := DaMain.showHidden o;
               DaMain.excludeDirs := DaMain.excludeDirs o;
               DaMain.includeTypes := DaMain.includeTypes o;
               DaMain.sizeThreshold := DaMain.sizeThreshold o |}
       else o).
Proof.
  unfold is_option, Da_option_names. simpl. intros H.
  repeat (apply orb_false_iff in H as [? H]).
  cbn [DaMain.parse_args].
  repeat match goal with
         | E : String.eqb a _ = false |- _ => rewrite E; clear E
         end.
  simpl. by destruct (String.eqb (DaMain.targetDir o) EmptyString).
Qed.

Lemma Threaded_parse_unknown parseSize (a : string) (post : list string) o :
  is_option Threaded_option_names a = false ->
  ThreadedMain.parse_args parseSize (a :: post) o
  = ThreadedMain.parse_args parseSize post
      (if String.eqb (ThreadedMain.targetDir o) EmptyString
       then {| ThreadedMain.targetDir := a;
               ThreadedMain.outputFile := ThreadedMain.outputFile o;
               ThreadedMain.showHidden := ThreadedMain.showHidden o;
               ThreadedMain.excludeDirs := ThreadedMain.excludeDirs o;
               ThreadedMain.includeTypes := ThreadedMain.includeTypes o;
               ThreadedMain.sizeThreshold := ThreadedMain.sizeThreshold o;
               ThreadedMain.threadCount := ThreadedMain.threadCount o |}
       else o).
Proof.
  unfold is_option, Threaded_option_names, Da_option_names. simpl. intros H.
  repeat (apply orb_false_iff in H as [? H]).
  cbn [ThreadedMain.parse_args].
  repeat match goal with
         | E : String.eqb a _ = false |- _ => rewrite E; clear E
         end.
  simpl. by destruct (String.eqb (ThreadedMain.targetDir o) EmptyString).
Qed.

(** X14.  Neither program reports an argument that it does not know.
    Once a directory has been given, any argument that is not an option
    name (a second directory, a misspelt option) is dropped: the
    program behaves as if it were not there.  Before a directory has
    been given, such an argument is taken as the directory, also when
    it starts with a hyphen. *)
Theorem unknown_arguments_are_not_reported :
  forall parseSize fs is_directory tree can_create hc
         (pre post : list string) (a : string),
    (is_option Da_option_names a = false ->
     forall o1,
       DaMain.parse_args parseSize pre DaMain.no_options
       = inr (DaMain.Run o1) ->
       (DaMain.targetDir o1 <> EmptyString ->
        DaMain.main parseSize fs is_directory tree can_create
          (pre ++ a :: post)
        = DaMain.main parseSize fs is_directory tree can_create
            (pre ++ post))
       /\ (DaMain.targetDir o1 = EmptyString ->
           DaMain.parse_args parseSize (pre ++ a :: post) DaMain.no_options
           = DaMain.parse_args parseSize post
               {| DaMain.targetDir := a;
                  DaMain.outputFile := DaMain.outputFile o1;
                  DaMain.showHidden := DaMain.showHidden o1;
                  DaMain.excludeDirs := DaMain.excludeDirs o1;
                  DaMain.includeTypes := DaMain.includeTypes o1;
                  DaMain.sizeThreshold := DaMain.sizeThreshold o1 |}))
    /\ (is_option Threaded_option_names a = false ->
        forall o1,
          ThreadedMain.parse_args parseSize pre ThreadedMain.no_options
          = inr (ThreadedMain.Run o1) ->
          ThreadedMain.targetDir o1 <> EmptyString ->
          ThreadedMain.main parseSize hc fs is_directory tree can_create
            (pre ++ a :: post)
          = ThreadedMain.main parseSize hc fs is_directory tree can_create
              (pre ++ post)).
Proof.
  intros parseSize fs is_directory tree can_create hc pre post a.
  split.
  - intros Ha o1 Hpre. split.
    + intros Hdir. unfold DaMain.main.
      rewrite !(Da_parse_args_app _ _ _ _ _ Hpre).
      rewrite Da_parse_unknown by done.
      apply String.eqb_neq in Hdir. by rewrite Hdir.
    + intros Hdir. rewrite (Da_parse_args_app _ _ _ _ _ Hpre).
      rewrite Da_parse_unknown by done. by rewrite Hdir.
  - intros Ha o1 Hpre Hdir. unfold ThreadedMain.main.
    rewrite !(Threaded_parse_args_app _ _ _ _ _ Hpre).
    rewrite Threaded_parse_unknown by done.
    apply String.eqb_neq in Hdir. by rewrite Hdir.
Qed.

Lemma unknown_arguments_are_not_reported_witness :
  DaMain.main (fun _ => inr 0) no_equivalent (fun _ => Some true)
    (fun _ => env_only) (fun _ => true)
    (["root"] ++ "--al" :: ["-o"; "out.csv"])
  = DaMain.main (fun _ => inr 0) no_equivalent (fun _ => Some true)
      (fun _ => env_only) (fun _ => true)
      (["root"] ++ ["-o"; "out.csv"]).
Proof.
  destruct (unknown_arguments_are_not_reported (fun _ => inr 0)
              no_equivalent (fun _ => Some true) (fun _ => env_only)
              (fun _ => true) 8 ["root"] ["-o"; "out.csv"] "--al")
    as [H _].
  destruct (H ltac:(reflexivity) _ ltac:(reflexivity)) as [H1 _].
  apply H1. discriminate.
Defined.

(** X15.  Thresholds in the wrong order are rejected before anything is
    analyzed: when the arguments give a directory that exists and a
    minimum size above the maximum size, both programs end with exit
    code 1 after the message of [setSizeThreshold] and the usage text,
    and write nothing else (no result, no CSV file). *)
Theorem inverted_thresholds_end_the_program :
  forall parseSize fs is_directory tree can_create hc (args : list string),
    (forall o,
       DaMain.parse_args parseSize args DaMain.no_options
       = inr (DaMain.Run o) ->
       DaMain.targetDir o <> EmptyString ->
       is_directory (DaMain.targetDir o) = Some true ->
       minSize (DaMain.sizeThreshold o) > maxSize (DaMain.sizeThreshold o) ->
       DaMain.main parseSize fs is_directory tree can_create args
       = (1, [DaMain.ErrorMessage
                (runtime_error
                   "Invalid size threshold: min size must be less than or equal to max size");
              DaMain.Usage]))
    /\ (forall o,
          ThreadedMain.parse_args parseSize args ThreadedMain.no_options
          = inr (ThreadedMain.Run o) ->
          ThreadedMain.targetDir o <> EmptyString ->
          is_directory (ThreadedMain.targetDir o) = Some true ->
          minSize (ThreadedMain.sizeThreshold o)
          > maxSize (ThreadedMain.sizeThreshold o) ->
          ThreadedMain.main parseSize hc fs is_directory tree can_create args
          = (1, [ThreadedMain.ErrorMessage
                   (runtime_error
                      "Invalid size threshold: min size must be less than or equal to max size");
                 ThreadedMain.Usage])).
Proof.
  intros parseSize fs is_directory tree can_create hc args. split.
  - intros o Hparse Hdir%String.eqb_neq Hisdir Hinv.
    unfold DaMain.main. rewrite Hparse, Hdir, Hisdir.
    unfold DaMain.configure, Da.setSizeThreshold, isValid.
    destruct (Z.leb_spec (minSize (DaMain.sizeThreshold o))
                (maxSize (DaMain.sizeThreshold o))); [lia|done].
  - intros o Hparse Hdir%String.eqb_neq Hisdir Hinv.
    unfold ThreadedMain.main. rewrite Hparse, Hdir, Hisdir.
    unfold ThreadedMain.configure, ThreadedMain.setSizeThreshold, isValid.
    destruct (Z.leb_spec (minSize (ThreadedMain.sizeThreshold o))
                (maxSize (ThreadedMain.sizeThreshold o))); [lia|done].
Qed.

Lemma inverted_thresholds_end_the_program_witness :
  DaMain.main (fun v => if String.eqb v "4K" then inr 4096 else inr 1024)
    no_equivalent (fun _ => Some true) (fun _ => three_sizes)
    (fun _ => true) ["-s"; "4K"; "-S"; "1K"; "root"; "-o"; "out.csv"]
  = (1, [DaMain.ErrorMessage
           (runtime_error
              "Invalid size threshold: min size must be less than or equal to max size");
         DaMain.Usage]).
Proof.
  destruct (inverted_thresholds_end_the_program
              (fun v => if String.eqb v "4K" then inr 4096 else inr 1024)
              no_equivalent (fun _ => Some true) (fun _ => three_sizes)
              (fun _ => true) 8
              ["-s"; "4K"; "-S"; "1K"; "root"; "-o"; "out.csv"]) as [H _].
  eapply H; [reflexivity|discriminate|reflexivity|simpl; lia].
Defined.

(** X16.  One entry whose status query throws, met anywhere by the
    traversal, makes [da.cpp] end with exit code 1 after the line that
    announces the analysis, the message of the exception and the usage
    text: no result is printed and no CSV file is written.  The
    multithreaded program, on every tree, prints its results and ends
    with exit code 0 unless the CSV file cannot be created. *)
Theorem broken_entry_ends_da_not_the_threaded_program :
  forall parseSize fs is_directory tree can_create hc (args : list string),
    (forall o cfg,
       DaMain.parse_args parseSize args DaMain.no_options
       = inr (DaMain.Run o) ->
       DaMain.targetDir o <> EmptyString ->
       is_directory (DaMain.targetDir o) = Some true ->
       DaMain.configure o = inr cfg ->
       meets_throw fs cfg (DaMain.targetDir o) (tree (DaMain.targetDir o)) ->
       exists x,
         DaMain.main parseSize fs is_directory tree can_create args
         = (1, [DaMain.Banner (DaMain.targetDir o);
                DaMain.ErrorMessage x; DaMain.Usage]))
    /\ (forall o cfg,
          ThreadedMain.parse_args parseSize args ThreadedMain.no_options
          = inr (ThreadedMain.Run o) ->
          ThreadedMain.targetDir o <> EmptyString ->
          is_directory (ThreadedMain.targetDir o) = Some true ->
          ThreadedMain.configure hc o = inr cfg ->
          exists s written,
            ThreadedMain.main parseSize hc fs is_directory tree can_create
              args
            = (if String.eqb (ThreadedMain.outputFile o) EmptyString
                  || can_create (ThreadedMain.outputFile o)
               then 0 else 1,
               [ThreadedMain.Banner (ThreadedMain.targetDir o)
                  (Threaded.numThreads cfg);
                ThreadedMain.Completed; ThreadedMain.Results s] ++ written)).
Proof.
  intros parseSize fs is_directory tree can_create hc args. split.
  - intros o cfg Hparse Hdir%String.eqb_neq Hisdir Hcfg Hmeets.
    destruct (Da_meets_throw_fails _ _ _ _ Hmeets Da.init) as [x Hx].
    exists x. unfold DaMain.main. rewrite Hparse, Hdir, Hisdir, Hcfg.
    unfold Da.analyze. by rewrite Hx.
  - intros o cfg Hparse Hdir%String.eqb_neq Hisdir Hcfg.
    unfold ThreadedMain.main. rewrite Hparse, Hdir, Hisdir, Hcfg.
    destruct (String.eqb (ThreadedMain.outputFile o) EmptyString);
      [by eexists _, []|].
    destruct (can_create (ThreadedMain.outputFile o)); simpl;
      by eexists _, _.
Qed.

Lemma broken_entry_ends_da_not_the_threaded_program_witness :
  exists x,
    DaMain.main (fun _ => inr 0) no_equivalent (fun _ => Some true)
      (fun _ => [EFile "a.txt" (Some 1)]
                  ++ EThrow "broken" :: [EFile "c.txt" (Some 4)])
      (fun _ => true) ["-o"; "out.csv"; "root"]
    = (1, [DaMain.Banner "root"; DaMain.ErrorMessage x; DaMain.Usage]).
Proof.
  destruct (broken_entry_ends_da_not_the_threaded_program (fun _ => inr 0)
              no_equivalent (fun _ => Some true)
              (fun _ => [EFile "a.txt" (Some 1)]
                          ++ EThrow "broken" :: [EFile "c.txt" (Some 4)])
              (fun _ => true) 8 ["-o"; "out.csv"; "root"]) as [H _].
  eapply (H _ _ ltac:(reflexivity) ltac:(discriminate) ltac:(reflexivity)
            ltac:(reflexivity)).
  apply meets_throw_here; reflexivity.
Defined.

Lemma stoi_is_int (value : string) (n : Z) :
  stoi value = Some n -> INT_MIN <= n <= INT_MAX.
Proof.
  unfold stoi. destruct (skip_space value) as [|c r].
  - simpl. discriminate.
  - destruct (if Ascii.eqb c "-" then _ else _) as [negative s].
    destruct (read_digits s None) as [v|]; [|discriminate].
    destruct (Z.leb_spec INT_MIN (if negative then - v else v));
      [|discriminate].
    destruct (Z.leb_spec (if negative then - v else v) INT_MAX);
      [|discriminate].
    simpl. intros [= <-]. lia.
Qed.

(** X17.  The test [threadCount <= 0] on the [unsigned int] rejects a
    thread count of zero only.  When [std::stoi] reads a negative
    number from the value of [-j], the value is accepted and the thread
    count is that number plus [2^32], at least [2^31]; a positive number
    is taken as it is; zero, and a value that [std::stoi] rejects, end
    the program with the message of an invalid thread count.  An
    analyzer that [main] has configured has at least one thread. *)
Theorem thread_count_check_rejects_zero_only :
  (forall value n,
     stoi value = Some n ->
     ThreadedMain.parse_thread_count value
     = if n =? 0
       then inl (runtime_error ("Error: Invalid thread count: " +:+ value))
       else inr (if n <? 0 then n + 2 ^ 32 else n))
  /\ (forall value n,
        stoi value = Some n -> n < 0 -> 2 ^ 31 <= n + 2 ^ 32 < 2 ^ 32)
  /\ (forall value,
        stoi value = None ->
        ThreadedMain.parse_thread_count value
        = inl (runtime_error ("Error: Invalid thread count: " +:+ value)))
  /\ (forall hc o cfg,
        0 <= hc -> 0 <= ThreadedMain.threadCount o ->
        ThreadedMain.configure hc o = inr cfg ->
        1 <= Threaded.numThreads cfg
        /\ (ThreadedMain.threadCount o > 0 ->
            Threaded.numThreads cfg = ThreadedMain.threadCount o)).
Proof.
  split; [|split; [|split]].
  - intros value n Hs. pose proof (stoi_is_int _ _ Hs) as Hr.
    unfold INT_MIN, INT_MAX in Hr.
    unfold ThreadedMain.parse_thread_count, UINT_MOD. rewrite Hs.
    destruct (Z.eqb_spec n 0) as [->|Hne]; [done|].
    destruct (Z.ltb_spec n 0) as [Hneg|Hpos].
    + replace (n mod 2 ^ 32) with (n + 2 ^ 32).
      * destruct (Z.leb_spec (n + 2 ^ 32) 0); [lia|done].
      * symmetry. rewrite <- (Z_mod_plus_full n 1 (2 ^ 32)).
        apply Z.mod_small. lia.
    + rewrite Z.mod_small by lia.
      destruct (Z.leb_spec n 0); [lia|done].
  - intros value n Hs Hneg. pose proof (stoi_is_int _ _ Hs) as Hr.
    unfold INT_MIN, INT_MAX in Hr. lia.
  - intros value Hs. unfold ThreadedMain.parse_thread_count. by rewrite Hs.
  - intros hc o cfg Hhc Htc. unfold ThreadedMain.configure.
    unfold ThreadedMain.setSizeThreshold.
    destruct (negb _); [discriminate|]. intros [= <-].
    assert (Hfold : forall (l1 l2 : list string) c,
               Threaded.numThreads
                 (fold_left
                    (fun c type =>
                       ThreadedMain.addIncludeType
                         (if String.eqb type EmptyString then NO_EXTENSION
                          else type) c) l1
                    (fold_left
                       (fun c dir => ThreadedMain.addExcludeDir dir c) l2 c))
               = Threaded.numThreads c).
    { intros l1 l2 c.
      transitivity (Threaded.numThreads
                      (fold_left
                         (fun c dir => ThreadedMain.addExcludeDir dir c)
                         l2 c)).
      - generalize (fold_left
                      (fun c dir => ThreadedMain.addExcludeDir dir c) l2 c).
        induction l1 as [|t l1 IH]; intros c0; [done|]. simpl.
        by rewrite IH.
      - revert c. induction l2 as [|d l2 IH]; intros c; [done|]. simpl.
        by rewrite IH. }
    rewrite Hfold. simpl.
    destruct (Z.gtb_spec (ThreadedMain.threadCount o) 0) as [Hgt|Hle];
      simpl.
    + destruct (Z.gtb_spec (ThreadedMain.threadCount o) 0); [|lia].
      split; [lia|done].
    + destruct (Z.eqb_spec hc 0); split; lia.
Qed.

Lemma thread_count_check_rejects_zero_only_witness :
  ThreadedMain.parse_thread_count "-1" = inr 4294967295
  /\ ThreadedMain.parse_thread_count "0"
     = inl (runtime_error "Error: Invalid thread count: 0")
  /\ ThreadedMain.parse_thread_count " +4x" = inr 4
  /\ ThreadedMain.parse_thread_count "four"
     = inl (runtime_error "Error: Invalid thread count: four").
Proof.
  destruct thread_count_check_rejects_zero_only as (H & _ & Hnone & _).
  split; [|split; [|split]].
  - apply (H "-1" (-1)). reflexivity.
  - apply (H "0" 0). reflexivity.
  - apply (H " +4x" 4). reflexivity.
  - apply (Hnone "four"). reflexivity.
Defined.

(* ===================================================================== *)
(** * Sizes as they are shown *)
(* ===================================================================== *)

Lemma round_half_even_near (a b : Z) :
  0 < b -> Z.abs (a - round_half_even a b * b) * 2 <= b.
Proof.
  intros Hb. unfold round_half_even.
  pose proof (Z.div_mod a b ltac:(lia)) as Hdm.
  pose proof (Z.mod_pos_bound a b Hb) as Hr.
  destruct ((2 * (a mod b) >? b) || _) eqn:E.
  - apply orb_true_iff in E as [E|E].
    + apply Z.gtb_lt in E. lia.
    + apply andb_true_iff in E as [E _]. apply Z.eqb_eq in E. lia.
  - apply orb_false_iff in E as [E _].
    destruct (Z.gtb_spec (2 * (a mod b)) b); [discriminate|]. lia.
Qed.

Lemma round_half_even_exact (a b : Z) :
  0 < b -> round_half_even (a * b) b = a.
Proof.
  intros Hb. unfold round_half_even.
  rewrite Z.mod_mul, Z.div_mul by lia. cbv zeta. rewrite Z.mul_0_r.
  destruct (Z.gtb_spec 0 b); [lia|].
  destruct (Z.eqb_spec 0 b); [lia|done].
Qed.

Lemma to_double_small (n : Z) : n < 2 ^ 53 -> to_double n = n.
Proof.
  intros H. unfold to_double. destruct (Z.ltb_spec n (2 ^ 53)); [done|lia].
Qed.

Lemma to_double_large (n : Z) : 2 ^ 53 <= n -> 2 ^ 53 <= to_double n.
Proof.
  intros H. unfold to_double. destruct (Z.ltb_spec n (2 ^ 53)); [lia|].
  assert (Hn : 0 < n) by lia.
  pose proof (Z.log2_spec n Hn) as [Hlo _].
  assert (HL : 53 <= Z.log2 n).
  { change 53 with (Z.log2 (2 ^ 53)). by apply Z.log2_le_mono. }
  set (e := Z.log2 n - 52) in *.
  assert (He : 1 <= e) by (unfold e; lia).
  assert (Hpow : 2 ^ Z.log2 n = 2 ^ 52 * 2 ^ e).
  { rewrite <- Z.pow_add_r by lia. f_equal. unfold e. lia. }
  assert (Hpe : 2 <= 2 ^ e).
  { change 2 with (2 ^ 1) at 1. apply Z.pow_le_mono_r; lia. }
  assert (Hq : 2 ^ 52 <= n / 2 ^ e).
  { rewrite <- (Z.div_mul (2 ^ 52) (2 ^ e)) by lia.
    apply Z.div_le_mono; lia. }
  set (q := n / 2 ^ e) in *.
  assert (Hq' : 2 ^ 52 <= (if (2 * (n mod 2 ^ e) >? 2 ^ e)
                              || (2 * (n mod 2 ^ e) =? 2 ^ e) && Z.odd q
                           then q + 1 else q))
    by (destruct (_ || _); lia).
  cbv zeta. fold e. fold q.
  transitivity (2 ^ 52 * 2); [done|].
  apply Z.mul_le_mono_nonneg; lia.
Qed.

(** The unit that the loop of [formatSize] reaches. *)
Lemma formatSize_unit_spec (value : Z) :
  formatSize_unit 4 value 0
  = if value <? 1024 then 0
    else if value <? 1024 ^ 2 then 1
    else if value <? 1024 ^ 3 then 2
    else if value <? 1024 ^ 4 then 3 else 4.
Proof.
  unfold formatSize_unit.
  change (1024 * 1024 ^ 0) with 1024.
  change (1024 * 1024 ^ (0 + 1)) with (1024 ^ 2).
  change (1024 * 1024 ^ (0 + 1 + 1)) with (1024 ^ 3).
  change (1024 * 1024 ^ (0 + 1 + 1 + 1)) with (1024 ^ 4).
  change (0 <? 4) with true. change (0 + 1 <? 4) with true.
  change (0 + 1 + 1 <? 4) with true. change (0 + 1 + 1 + 1 <? 4) with true.
  rewrite !andb_true_r, !Z.geb_leb, !Z.leb_antisym.
  destruct (Z.ltb_spec value 1024); simpl; [done|].
  destruct (Z.ltb_spec value (1024 ^ 2)); simpl; [done|].
  destruct (Z.ltb_spec value (1024 ^ 3)); simpl; [done|].
  destruct (Z.ltb_spec value (1024 ^ 4)); simpl; done.
Qed.

(** X18.  What [formatSize] shows.  The unit is B below 1024 bytes, KB
    below [1024^2], MB below [1024^3], GB below [1024^4] and TB from
    there on, however large the size; the number is the size in that
    unit ([bytes] converted to a double, which is exact below [2^53])
    rounded to the nearest hundredth; and a size below 1024 is shown as
    it is, followed by [.00 B]. *)
Theorem formatSize_unit_and_rounding :
  forall bytes,
    in_range bytes ->
    snd (formatSize_shown bytes)
    = (if bytes <? 1024 then 0
       else if bytes <? 1024 ^ 2 then 1
       else if bytes <? 1024 ^ 3 then 2
       else if bytes <? 1024 ^ 4 then 3 else 4)
    /\ Z.abs (100 * to_double bytes
              - fst (formatSize_shown bytes)
                * 1024 ^ snd (formatSize_shown bytes)) * 2
       <= 1024 ^ snd (formatSize_shown bytes)
    /\ (bytes < 2 ^ 53 -> to_double bytes = bytes)
    /\ (bytes < 1024 -> formatSize bytes = to_string bytes +:+ ".00 B").
Proof.
  intros bytes Hr.
  assert (Hu : snd (formatSize_shown bytes)
               = (if bytes <? 1024 then 0
                  else if bytes <? 1024 ^ 2 then 1
                  else if bytes <? 1024 ^ 3 then 2
                  else if bytes <? 1024 ^ 4 then 3 else 4)).
  { unfold formatSize_shown. cbn [snd]. rewrite formatSize_unit_spec.
    destruct (Z.ltb_spec bytes (2 ^ 53)) as [Hs|Hl].
    - by rewrite to_double_small.
    - pose proof (to_double_large bytes Hl) as Hd.
      assert (1024 ^ 4 <= 2 ^ 53) by (vm_compute; discriminate).
      assert (1024 < 1024 ^ 2 < 1024 ^ 3 /\ 1024 ^ 3 < 1024 ^ 4)
        as [[? ?] ?] by (repeat split; reflexivity).
      repeat match goal with
             | |- context [?a <? ?b] => destruct (Z.ltb_spec a b); try lia
             end; done. }
  split; [exact Hu|]. split; [|split].
  - assert (Hpos : 0 < 1024 ^ snd (formatSize_shown bytes)).
    { apply Z.pow_pos_nonneg; [lia|]. rewrite Hu.
      repeat match goal with
             | |- context [if ?b then _ else _] => destruct b
             end; lia. }
    unfold formatSize_shown in *. cbn [fst snd] in *.
    by apply round_half_even_near.
  - apply to_double_small.
  - intros Hsmall. unfold formatSize.
    destruct (formatSize_shown bytes) as [h u] eqn:Hshown.
    assert (Hu0 : u = 0).
    { cbn [snd] in Hu. rewrite Hu.
      destruct (Z.ltb_spec bytes 1024); [done|lia]. }
    subst u.
    assert (Hh : h = bytes * 100).
    { pose proof (f_equal fst Hshown) as Hfst. cbn [fst] in Hfst.
      rewrite <- Hfst. unfold formatSize_shown. cbn [fst].
      rewrite formatSize_unit_spec.
      rewrite to_double_small by (assert (1024 < 2 ^ 53) by reflexivity; lia).
      destruct (Z.ltb_spec bytes 1024); [|lia].
      change (1024 ^ 0) with 1.
      rewrite <- (Z.mul_1_r (100 * bytes)).
      rewrite round_half_even_exact by lia. lia. }
    subst h.
    rewrite Z.div_mul, Z.mod_mul by lia.
    replace (bytes * 100 mod 10) with 0.
    + reflexivity.
    + symmetry. replace (bytes * 100) with (bytes * 10 * 10) by lia.
      apply Z.mod_mul. lia.
Qed.

Lemma formatSize_unit_and_rounding_witness :
  formatSize 1023 = "1023.00 B"
  /\ formatSize 1536 = "1.50 KB"
  /\ formatSize (1024 ^ 2 - 1) = "1024.00 KB"
  /\ formatSize SIZE_MAX = "16777216.00 TB".
Proof.
  split.
  - destruct (formatSize_unit_and_rounding 1023 ltac:(concrete_range))
      as (_ & _ & _ & H).
    rewrite H by lia. reflexivity.
  - repeat split; reflexivity.
Defined.

(* ===================================================================== *)
(** * The CSV file *)
(* ===================================================================== *)

Lemma digit_of_digit_char (d : Z) :
  0 <= d < 10 -> digit_of (digit_char d) = Some d.
Proof.
  intros H.
  assert (d = 0 \/ d = 1 \/ d = 2 \/ d = 3 \/ d = 4 \/ d = 5 \/ d = 6
          \/ d = 7 \/ d = 8 \/ d = 9) as Hd by lia.
  repeat (destruct Hd as [->|Hd]; [reflexivity|]). by subst.
Qed.

Lemma digit_char_differs (d : Z) (c : ascii) :
  0 <= d < 10 -> digit_of c = None -> Ascii.eqb (digit_char d) c = false.
Proof.
  intros Hd Hc. destruct (Ascii.eqb_spec (digit_char d) c) as [<-|]; [|done].
  by rewrite digit_of_digit_char in Hc.
Qed.

(** [to_string] writes digits only. *)
Lemma contains_to_string_digits (c : ascii) :
  digit_of c = None ->
  forall fuel n acc,
    contains c (to_string_digits fuel n acc) = contains c acc.
Proof.
  intros Hc. induction fuel as [|fuel IH]; intros n acc; [done|].
  simpl.
  assert (Hd : contains c (String (digit_char (n mod 10)) acc)
               = contains c acc).
  { simpl. rewrite digit_char_differs; [done| |done].
    apply Z.mod_pos_bound. lia. }
  destruct (n <? 10); [exact Hd|]. by rewrite IH.
Qed.

Lemma contains_to_string (c : ascii) (n : Z) :
  digit_of c = None -> contains c (to_string n) = false.
Proof. intros Hc. unfold to_string. by rewrite contains_to_string_digits. Qed.

(** Reading the digits that [to_string] wrote gives the number back. *)
Lemma read_digits_to_string_digits (fuel : nat) :
  forall n acc,
    0 <= n < 10 ^ Z.of_nat fuel -> (0 < fuel)%nat ->
    read_digits (to_string_digits fuel n acc) None
    = read_digits acc (Some n).
Proof.
  induction fuel as [|fuel IH]; intros n acc Hn Hf; [lia|].
  cbn [to_string_digits].
  pose proof (Z.mod_pos_bound n 10 ltac:(lia)) as Hm.
  destruct (Z.ltb_spec n 10) as [Hlt|Hge].
  - cbn [read_digits]. rewrite digit_of_digit_char by done.
    rewrite Z.mod_small by lia. simpl. do 2 f_equal.
  - assert (Hdiv : 0 <= n / 10 < 10 ^ Z.of_nat fuel).
    { split; [apply Z.div_pos; lia|].
      apply Z.div_lt_upper_bound; [lia|].
      rewrite Nat2Z.inj_succ, Z.pow_succ_r in Hn by lia. lia. }
    destruct fuel as [|fuel'].
    { simpl in Hdiv. assert (n / 10 = 0) by lia.
      apply Z.div_small_iff in H; lia. }
    rewrite IH by (done || lia).
    cbn [read_digits]. rewrite digit_of_digit_char by done.
    simpl. do 2 f_equal. pose proof (Z.div_mod n 10 ltac:(lia)). lia.
Qed.

Lemma read_digits_to_string (n : Z) :
  in_range n -> read_digits (to_string n) None = Some n.
Proof.
  intros Hr. unfold to_string.
  rewrite read_digits_to_string_digits; [done| |lia].
  assert (SIZE_MAX < 10 ^ Z.of_nat 20) by reflexivity.
  unfold in_range in Hr. lia.
Qed.

(** A field that holds no comma, quote, line feed or carriage return
    is read back as it is. *)
Lemma read_field_plain (text rest : string) :
  contains ch_comma text = false -> contains ch_quote text = false ->
  contains ch_lf text = false -> contains ch_cr text = false ->
  at_delimiter rest = true ->
  Threaded.escapeCSV text = text
  /\ read_field (text +:+ rest) = Some (text, rest).
Proof.
  intros H1 H2 H3 H4 Hd.
  assert (He : Threaded.escapeCSV text = text).
  { unfold Threaded.escapeCSV. by rewrite H1, H2, H3, H4. }
  split; [done|]. rewrite <- He at 1. by apply Threaded_escapeCSV_roundtrip.
Qed.

Lemma to_string_plain (c : ascii) (n : Z) :
  c = ch_comma \/ c = ch_quote \/ c = ch_lf \/ c = ch_cr ->
  contains c (to_string n) = false.
Proof.
  intros Hc. apply contains_to_string.
  by destruct Hc as [->|[->|[->| ->]]].
Qed.

(** What [formatSize] writes needs no quoting. *)
Lemma formatSize_plain (c : ascii) (n : Z) :
  c = ch_comma \/ c = ch_quote \/ c = ch_lf \/ c = ch_cr ->
  contains c (formatSize n) = false.
Proof.
  intros Hc. unfold formatSize.
  destruct (formatSize_shown n) as [h u].
  assert (Hdig : digit_of c = None)
    by (by destruct Hc as [->|[->|[->| ->]]]).
  rewrite contains_app, contains_to_string by done.
  cbn [contains orb].
  rewrite !digit_char_differs; try done.
  - assert (Hunit : contains c (nth (Z.to_nat u) units EmptyString) = false).
    { unfold units. generalize (Z.to_nat u). intros k.
      do 5 (destruct k as [|k];
            [by destruct Hc as [->|[->|[->| ->]]]|]).
      simpl. by destruct k. }
    rewrite Hunit. by destruct Hc as [->|[->|[->| ->]]].
  - apply Z.mod_pos_bound. lia.
  - pose proof (Z.mod_pos_bound h 100 ltac:(lia)).
    split; [apply Z.div_pos; lia|apply Z.div_lt_upper_bound; lia].
Qed.

Lemma read_row_mono (fuel : nat) :
  forall s r, read_row fuel s = Some r ->
  forall fuel', (fuel <= fuel')%nat -> read_row fuel' s = Some r.
Proof.
  induction fuel as [|fuel IH]; intros s r H fuel' Hle; [discriminate|].
  destruct fuel' as [|fuel']; [lia|]. cbn [read_row] in *.
  destruct (read_field s) as [[f rest]|]; [|discriminate].
  destruct rest as [|c rest]; [done|].
  destruct (Ascii.eqb c ch_lf); [done|].
  destruct (read_row fuel rest) as [[fields rest']|] eqn:Hr; [|discriminate].
  by rewrite (IH _ _ Hr fuel') by lia.
Qed.

Lemma read_row_comma (fuel : nat) (text field rest : string) :
  read_field (text +:+ String ch_comma rest)
  = Some (field, String ch_comma rest) ->
  read_row (S fuel) (text +:+ String ch_comma rest)
  = match read_row fuel rest with
    | Some (fields, rest') => Some (field :: fields, rest')
    | None => None
    end.
Proof. intros H. cbn [read_row]. by rewrite H. Qed.

Lemma read_row_lf (fuel : nat) (text field rest : string) :
  read_field (text +:+ String ch_lf rest) = Some (field, String ch_lf rest) ->
  read_row (S fuel) (text +:+ String ch_lf rest) = Some ([field], rest).
Proof. intros H. cbn [read_row]. by rewrite H. Qed.

Lemma at_delimiter_comma (rest : string) :
  at_delimiter (String ch_comma rest) = true.
Proof. reflexivity. Qed.

Lemma at_delimiter_lf (rest : string) :
  at_delimiter (String ch_lf rest) = true.
Proof. reflexivity. Qed.

Lemma read_field_to_string (n : Z) (rest : string) :
  at_delimiter rest = true ->
  read_field (to_string n +:+ rest) = Some (to_string n, rest).
Proof.
  intros Hd. apply read_field_plain; try done; apply to_string_plain; tauto.
Qed.

Lemma read_field_formatSize (n : Z) (rest : string) :
  at_delimiter rest = true ->
  Threaded.escapeCSV (formatSize n) = formatSize n
  /\ read_field (formatSize n +:+ rest) = Some (formatSize n, rest).
Proof.
  intros Hd. apply read_field_plain; try done; apply formatSize_plain; tauto.
Qed.

(** A line of the CSV file of the multithreaded program, read back. *)
Lemma Threaded_csv_line_reads (label : string) (count total : Z)
    (rest : string) :
  read_row 4
    (Threaded.escapeCSV label +:+ String ch_comma
       (to_string count +:+ String ch_comma
          (to_string total +:+ String ch_comma
             (Threaded.escapeCSV (formatSize total) +:+ String ch_lf rest))))
  = Some ([label; to_string count; to_string total; formatSize total], rest).
Proof.
  rewrite (read_row_comma _ _ label)
    by (apply Threaded_escapeCSV_roundtrip, at_delimiter_comma).
  rewrite (read_row_comma _ _ (to_string count))
    by (apply read_field_to_string, at_delimiter_comma).
  rewrite (read_row_comma _ _ (to_string total))
    by (apply read_field_to_string, at_delimiter_comma).
  destruct (read_field_formatSize total (String ch_lf rest)
              (at_delimiter_lf rest)) as [-> Hf].
  by rewrite (read_row_lf _ _ _ _ Hf).
Qed.

Lemma Threaded_csv_row_text (row : string * FileTypeStats.t) (rest : string) :
  Threaded_csv_row row +:+ rest
  = Threaded.escapeCSV (fst row) +:+ String ch_comma
      (to_string (FileTypeStats.count (snd row)) +:+ String ch_comma
         (to_string (FileTypeStats.totalSize (snd row)) +:+ String ch_comma
            (Threaded.escapeCSV
               (formatSize (FileTypeStats.totalSize (snd row)))
             +:+ String ch_lf rest))).
Proof.
  unfold Threaded_csv_row, newline.
  by rewrite !string_app_assoc, !append_cons, !append_nil.
Qed.

(** Lines that can be read back one by one can be read back together. *)
Lemma read_rows_lines (lines : list (string * list string)) :
  Forall (fun l => forall rest,
            exists c r, fst l +:+ rest = String c r
                        /\ read_row (S (String.length (fst l +:+ rest)))
                             (fst l +:+ rest) = Some (snd l, rest)) lines ->
  forall fuel, (length lines < fuel)%nat ->
  read_rows fuel (concat_strings (map fst lines)) = Some (map snd lines).
Proof.
  induction 1 as [|l lines Hl _ IH]; intros fuel Hf.
  - destruct fuel; [lia|done].
  - destruct fuel as [|fuel]; [lia|]. simpl in Hf.
    cbn [map concat_strings].
    destruct (Hl (concat_strings (map fst lines))) as (c & r & Hs & Hrow).
    cbn [read_rows]. rewrite Hs. rewrite <- Hs, Hrow.
    by rewrite IH by lia.
Qed.

Lemma concat_strings_length (texts : list string) :
  Forall (fun t => t <> EmptyString) texts ->
  (length texts <= String.length (concat_strings texts))%nat.
Proof.
  induction 1 as [|t texts Ht _ IH]; [done|]. simpl.
  rewrite string_length_app. destruct t; [done|]. simpl. lia.
Qed.

Lemma concat_strings_app (a b : list string) :
  concat_strings (a ++ b) = concat_strings a +:+ concat_strings b.
Proof.
  induction a as [|x a IH]; simpl; [by rewrite append_nil|].
  by rewrite IH, string_app_assoc.
Qed.

Lemma line_of_four (a b c d rest : string) (fields : list string) :
  read_row 4
    (a +:+ String ch_comma
       (b +:+ String ch_comma (c +:+ String ch_comma (d +:+ String ch_lf rest))))
  = Some (fields, rest) ->
  exists c0 r,
    a +:+ String ch_comma
      (b +:+ String ch_comma (c +:+ String ch_comma (d +:+ String ch_lf rest)))
    = String c0 r
    /\ read_row
         (S (String.length
               (a +:+ String ch_comma
                  (b +:+ String ch_comma
                     (c +:+ String ch_comma (d +:+ String ch_lf rest))))))
         (a +:+ String ch_comma
            (b +:+ String ch_comma
               (c +:+ String ch_comma (d +:+ String ch_lf rest))))
       = Some (fields, rest).
Proof.
  intros H.
  assert (Hne : exists c0 r,
             a +:+ String ch_comma
               (b +:+ String ch_comma
                  (c +:+ String ch_comma (d +:+ String ch_lf rest)))
             = String c0 r).
  { destruct a as [|x a]; [rewrite append_nil|rewrite append_cons];
      by eexists _, _. }
  destruct Hne as (c0 & r & Hs). exists c0, r. split; [done|].
  apply (read_row_mono 4); [done|].
  rewrite !string_length_app. simpl. rewrite !string_length_app. simpl.
  rewrite !string_length_app. simpl. rewrite !string_length_app. simpl. lia.
Qed.

Lemma line_of_three (a b c rest : string) (fields : list string) :
  read_row 3
    (a +:+ String ch_comma (b +:+ String ch_comma (c +:+ String ch_lf rest)))
  = Some (fields, rest) ->
  exists c0 r,
    a +:+ String ch_comma (b +:+ String ch_comma (c +:+ String ch_lf rest))
    = String c0 r
    /\ read_row
         (S (String.length
               (a +:+ String ch_comma
                  (b +:+ String ch_comma (c +:+ String ch_lf rest)))))
         (a +:+ String ch_comma
            (b +:+ String ch_comma (c +:+ String ch_lf rest)))
       = Some (fields, rest).
Proof.
  intros H.
  assert (Hne : exists c0 r,
             a +:+ String ch_comma
               (b +:+ String ch_comma (c +:+ String ch_lf rest))
             = String c0 r).
  { destruct a as [|x a]; [rewrite append_nil|rewrite append_cons];
      by eexists _, _. }
  destruct Hne as (c0 & r & Hs). exists c0, r. split; [done|].
  apply (read_row_mono 3); [done|].
  rewrite !string_length_app. simpl. rewrite !string_length_app. simpl.
  rewrite !string_length_app. simpl. lia.
Qed.

Lemma four_fields_app (a b c d rest : string) :
  (a +:+ String ch_comma
     (b +:+ String ch_comma
        (c +:+ String ch_comma (d +:+ String ch_lf EmptyString))))
  +:+ rest
  = a +:+ String ch_comma
      (b +:+ String ch_comma (c +:+ String ch_comma (d +:+ String ch_lf rest))).
Proof.
  by repeat first [rewrite string_app_assoc|rewrite append_cons
                  |rewrite append_nil].
Qed.

Lemma three_fields_app (a b c rest : string) :
  (a +:+ String ch_comma (b +:+ String ch_comma (c +:+ String ch_lf EmptyString)))
  +:+ rest
  = a +:+ String ch_comma (b +:+ String ch_comma (c +:+ String ch_lf rest)).
Proof.
  by repeat first [rewrite string_app_assoc|rewrite append_cons
                  |rewrite append_nil].
Qed.

(** X19.  The CSV file of the multithreaded program reads back.  For
    every state of the analyzer and every order in which the loop of
    [exportCsv] meets the entries of [stats], a reader of RFC 4180 files
    finds in what [exportCsv] writes the header, then for every entry
    one row that holds the type label as it is (whatever characters it
    holds), the count, the total and the size as [formatSize] shows it,
    then the row of the hidden files when there are any and they are not
    shown; the size shown is never quoted; and the digits of a count or
    of a total give the number back. *)
Theorem Threaded_csv_reads_back :
  forall (entries : list (string * FileTypeStats.t))
         (cfg : Threaded.Config) (s : Threaded.State),
    read_csv (Threaded_exportCsv entries cfg s)
    = Some (["FileType"; "Count"; "TotalSize"; "SizeHuman"]
              :: map (fun row =>
                        [fst row;
                         to_string (FileTypeStats.count (snd row));
                         to_string (FileTypeStats.totalSize (snd row));
                         formatSize (FileTypeStats.totalSize (snd row))])
                   entries
              ++ (if negb (Threaded.showHidden cfg)
                     && (Threaded.hiddenFiles s >? 0)
                  then [["Hidden files";
                         to_string (Threaded.hiddenFiles s);
                         to_string (Threaded.hiddenSize s);
                         formatSize (Threaded.hiddenSize s)]]
                  else []))
    /\ (forall n, Threaded.escapeCSV (formatSize n) = formatSize n)
    /\ (forall n, in_range n -> read_digits (to_string n) None = Some n).
Proof.
  intros entries cfg s. split; [|split].
  - set (hidden_line :=
           "Hidden files" +:+ String ch_comma
             (to_string (Threaded.hiddenFiles s) +:+ String ch_comma
                (to_string (Threaded.hiddenSize s) +:+ String ch_comma
                   (Threaded.escapeCSV (formatSize (Threaded.hiddenSize s))
                    +:+ String ch_lf EmptyString)))).
    set (lines :=
           ("FileType" +:+ String ch_comma
              ("Count" +:+ String ch_comma
                 ("TotalSize" +:+ String ch_comma
                    ("SizeHuman" +:+ String ch_lf EmptyString))),
            ["FileType"; "Count"; "TotalSize"; "SizeHuman"])
             :: map (fun row =>
                       (Threaded_csv_row row,
                        [fst row;
                         to_string (FileTypeStats.count (snd row));
                         to_string (FileTypeStats.totalSize (snd row));
                         formatSize (FileTypeStats.totalSize (snd row))]))
                  entries
             ++ (if negb (Threaded.showHidden cfg)
                    && (Threaded.hiddenFiles s >? 0)
                 then [(hidden_line,
                        ["Hidden files";
                         to_string (Threaded.hiddenFiles s);
                         to_string (Threaded.hiddenSize s);
                         formatSize (Threaded.hiddenSize s)])]
                 else [])).
    assert (Htext : Threaded_exportCsv entries cfg s
                    = concat_strings (map fst lines)).
    { unfold lines, Threaded_exportCsv, hidden_line, newline.
      cbn [map fst concat_strings]. rewrite map_app, concat_strings_app.
      rewrite map_map. cbn [fst].
      destruct (negb _ && _); cbn [map fst concat_strings];
        rewrite ?string_app_assoc, ?append_cons, ?append_nil,
          ?string_app_nil_r; reflexivity. }
    assert (Hfields : map snd lines
                      = ["FileType"; "Count"; "TotalSize"; "SizeHuman"]
                          :: map (fun row =>
                                    [fst row;
                                     to_string
                                       (FileTypeStats.count (snd row));
                                     to_string
                                       (FileTypeStats.totalSize (snd row));
                                     formatSize
                                       (FileTypeStats.totalSize (snd row))])
                               entries
                          ++ (if negb (Threaded.showHidden cfg)
                                 && (Threaded.hiddenFiles s >? 0)
                              then [["Hidden files";
                                     to_string (Threaded.hiddenFiles s);
                                     to_string (Threaded.hiddenSize s);
                                     formatSize (Threaded.hiddenSize s)]]
                              else [])).
    { unfold lines. cbn [map snd]. rewrite map_app, map_map. cbn [snd].
      by destruct (negb _ && _). }
    assert (Hlines : Forall
                       (fun l => forall rest,
                          exists c r,
                            fst l +:+ rest = String c r
                            /\ read_row
                                 (S (String.length (fst l +:+ rest)))
                                 (fst l +:+ rest) = Some (snd l, rest))
                       lines).
    { unfold lines. constructor; [|apply Forall_app; split].
      - intros rest. cbn [fst snd]. rewrite four_fields_app.
        apply line_of_four.
        rewrite (read_row_comma _ _ "FileType")
          by (apply read_field_plain; reflexivity).
        rewrite (read_row_comma _ _ "Count")
          by (apply read_field_plain; reflexivity).
        rewrite (read_row_comma _ _ "TotalSize")
          by (apply read_field_plain; reflexivity).
        rewrite (read_row_lf _ _ "SizeHuman")
          by (apply read_field_plain; reflexivity).
        done.
      - apply Forall_forall. intros l Hin.
        apply list_elem_of_fmap in Hin as (row & -> & _).
        intros rest. cbn [fst snd]. rewrite Threaded_csv_row_text.
        apply line_of_four, Threaded_csv_line_reads.
      - destruct (negb _ && _); [|constructor].
        constructor; [|constructor]. intros rest. cbn [fst snd].
        unfold hidden_line. rewrite four_fields_app.
        apply line_of_four.
        rewrite <- (proj1 (read_field_plain "Hidden files" EmptyString
                             eq_refl eq_refl eq_refl eq_refl eq_refl)) at 1.
        apply Threaded_csv_line_reads. }
    unfold read_csv. rewrite Htext.
    rewrite (read_rows_lines lines Hlines); [by rewrite Hfields|].
    apply Nat.lt_succ_r. rewrite <- (length_map fst lines).
    apply concat_strings_length. apply Forall_forall. intros t Hin.
    apply list_elem_of_fmap in Hin as (l & -> & Hl).
    rewrite Forall_forall in Hlines.
    destruct (Hlines l Hl EmptyString) as (c & r & Hs & _).
    rewrite string_app_nil_r in Hs. by rewrite Hs.
  - intros n. apply (read_field_formatSize n EmptyString). reflexivity.
  - apply read_digits_to_string.
Qed.

Lemma double_quotes_without_quote (str : string) :
  contains ch_quote str = false -> Threaded.double_quotes str = str.
Proof.
  induction str as [|c r IH]; [done|]. simpl.
  intros [Hc Hr]%orb_false_iff. rewrite Hc. by rewrite IH.
Qed.

Lemma double_quotes_longer (str : string) :
  contains ch_quote str = true ->
  (String.length str < String.length (Threaded.double_quotes str))%nat.
Proof.
  induction str as [|c r IH]; [done|]. simpl.
  destruct (Ascii.eqb c ch_quote) eqn:Hc; simpl.
  - intros _. destruct (contains ch_quote r) eqn:Hr.
    + specialize (IH eq_refl). lia.
    + rewrite double_quotes_without_quote by done. lia.
  - intros Hr. specialize (IH Hr). lia.
Qed.

(** What [read_quoted] has read. *)
Lemma read_quoted_shape (s f rest : string) :
  read_quoted s = Some (f, rest) ->
  s = Threaded.double_quotes f +:+ String ch_quote rest.
Proof.
  remember (String.length s) as n eqn:Hn.
  assert (Hle : (String.length s <= n)%nat) by lia. clear Hn.
  revert s f rest Hle.
  induction n as [|n IH]; intros s f rest Hle.
  - destruct s; [discriminate|simpl in Hle; lia].
  - destruct s as [|c r]; [discriminate|]. simpl in Hle. cbn [read_quoted].
    destruct (Ascii.eqb c ch_quote) eqn:Hc.
    + apply Ascii.eqb_eq in Hc as ->.
      destruct r as [|c' r'].
      * intros [= <- <-]. by rewrite append_nil.
      * destruct (Ascii.eqb c' ch_quote) eqn:Hc'.
        -- apply Ascii.eqb_eq in Hc' as ->.
           destruct (read_quoted r') as [[f' rest']|] eqn:Hr; [|discriminate].
           intros [= <- <-]. simpl. rewrite !append_cons.
           do 2 f_equal. apply IH; [simpl in Hle; lia|done].
        -- intros [= <- <-]. by rewrite append_nil.
    + destruct (read_quoted r) as [[f' rest']|] eqn:Hr; [|discriminate].
      intros [= <- <-]. simpl. rewrite Hc, append_cons. f_equal.
      apply IH; [lia|done].
Qed.

Lemma replace_quote_by_quote (str : string) :
  string_map (fun c => if Ascii.eqb c ch_quote then ch_quote else c) str
  = str.
Proof.
  induction str as [|c r IH]; [done|]. simpl. rewrite IH.
  destruct (Ascii.eqb c ch_quote) eqn:E; [|done].
  by apply Ascii.eqb_eq in E as ->.
Qed.

(** A carriage return outside quotes makes the reader reject the
    field. *)
Lemma read_plain_bare_cr (label rest : string) :
  contains ch_cr label = true ->
  contains ch_comma label = false -> contains ch_lf label = false ->
  read_plain (label +:+ rest) = None.
Proof.
  induction label as [|c r IH]; [done|]. rewrite append_cons.
  cbn [contains read_plain].
  intros H4 [H1 H1']%orb_false_iff [H3 H3']%orb_false_iff.
  rewrite H1, H3. cbn [orb].
  destruct (Ascii.eqb c ch_quote); [done|].
  destruct (Ascii.eqb c ch_cr); [done|]. cbn [orb] in *.
  by rewrite (IH H4 H1' H3').
Qed.

(** A field of the CSV file of [da.cpp] is read back exactly when the
    label holds no quote and no carriage return outside quotes. *)
Lemma Da_escapeCSV_reads_back (label rest : string) :
  at_delimiter rest = true ->
  (read_field (Da.escapeCSV label +:+ rest) = Some (label, rest)
   <-> Da_readable_label label = true).
Proof.
  intros Hd. unfold Da_readable_label, Da.escapeCSV.
  rewrite replace_quote_by_quote.
  destruct (contains ch_quote label) eqn:Hq.
  - rewrite orb_true_r. cbn [orb negb andb]. split; [|discriminate].
    intros Hread. exfalso.
    rewrite append_cons, string_app_assoc in Hread.
    rewrite append_cons, append_nil in Hread. cbn [read_field] in Hread.
    change (Ascii.eqb ch_quote ch_quote) with true in Hread.
    cbn iota in Hread.
    destruct (read_quoted (label +:+ String ch_quote rest))
      as [[f r]|] eqn:Hr; [|discriminate].
    destruct (at_delimiter r); [|discriminate].
    injection Hread as -> ->.
    apply read_quoted_shape in Hr.
    pose proof (f_equal String.length Hr) as Hl.
    rewrite !string_length_app in Hl.
    pose proof (double_quotes_longer label Hq). lia.
  - rewrite orb_false_r. cbn [negb andb].
    destruct (contains ch_comma label || contains ch_lf label) eqn:Hc.
    + split.
      * intros _. apply orb_true_iff in Hc as [-> | ->];
          [by rewrite orb_true_r|by rewrite orb_true_r].
      * intros _.
        rewrite append_cons, string_app_assoc, append_cons, append_nil.
        cbn [read_field]. change (Ascii.eqb ch_quote ch_quote) with true.
        cbn iota.
        rewrite <- (double_quotes_without_quote label Hq) at 1.
        by rewrite read_quoted_double_quotes, Hd.
    + apply orb_false_iff in Hc as [H1 H3]. rewrite H1, H3, !orb_false_r.
      destruct (contains ch_cr label) eqn:H4; cbn [negb].
      * split; [|discriminate]. intros Hread. exfalso.
        pose proof (read_plain_bare_cr label rest H4 H1 H3) as Hp.
        destruct label as [|c r]; [discriminate|].
        simpl in Hq. apply orb_false_iff in Hq as [Hq _].
        rewrite append_cons in *. unfold read_field in Hread.
        rewrite Hq in Hread. congruence.
      * split; [done|]. intros _.
        pose proof (read_plain_verbatim label rest H1 Hq H3 H4 Hd) as Hp.
        destruct label as [|c r].
        -- rewrite append_nil in *. destruct rest as [|c r]; [done|].
           pose proof (at_delimiter_not_quote _ Hd) as Hc. simpl in Hc.
           unfold read_field. by rewrite Hc.
        -- simpl in Hq. apply orb_false_iff in Hq as [Hq _].
           rewrite append_cons in *. unfold read_field. by rewrite Hq.
Qed.

Lemma Da_csv_row_text (row : string * FileTypeStats.t) (rest : string) :
  Da_csv_row row +:+ rest
  = Da.escapeCSV (fst row) +:+ String ch_comma
      (to_string (FileTypeStats.count (snd row)) +:+ String ch_comma
         (to_string (FileTypeStats.totalSize (snd row)) +:+ String ch_lf rest)).
Proof.
  unfold Da_csv_row, newline.
  by repeat first [rewrite string_app_assoc|rewrite append_cons
                  |rewrite append_nil].
Qed.

Lemma Da_csv_line_reads (text label : string) (count total : Z)
    (rest : string) :
  read_field
    (text +:+ String ch_comma
       (to_string count +:+ String ch_comma
          (to_string total +:+ String ch_lf rest)))
  = Some (label,
          String ch_comma
            (to_string count +:+ String ch_comma
               (to_string total +:+ String ch_lf rest))) ->
  read_row 3
    (text +:+ String ch_comma
       (to_string count +:+ String ch_comma
          (to_string total +:+ String ch_lf rest)))
  = Some ([label; to_string count; to_string total], rest).
Proof.
  intros Hlabel.
  rewrite (read_row_comma _ _ label) by done.
  rewrite (read_row_comma _ _ (to_string count))
    by (apply read_field_to_string, at_delimiter_comma).
  by rewrite (read_row_lf _ _ (to_string total))
    by (apply read_field_to_string, at_delimiter_lf).
Qed.

(** X20.  The CSV file of [da.cpp] reads back when every type label can
    be, and a label is read back only then.  [escapeCSV] of [da.cpp]
    writes a label between quotes when it holds a comma, a quote or a
    line feed, and never doubles a quote.  So a reader of RFC 4180 files
    recovers a label exactly when it holds no quote and holds a carriage
    return only together with a comma or a line feed (a carriage return
    alone is written outside quotes, where the reader rejects it).  For
    every state of the analyzer and every order of the entries of
    [stats] whose labels are such, the reader finds the header, one row
    per entry with the label, the count and the total, and the row of
    the hidden files when there are any and they are not shown. *)
Theorem Da_csv_reads_back_for_readable_labels :
  forall (entries : list (string * FileTypeStats.t))
         (cfg : Da.Config) (s : Da.State),
    Forall (fun row => Da_readable_label (fst row) = true) entries ->
    read_csv (Da_exportCsv entries cfg s)
    = Some (["FileType"; "Count"; "TotalSize"]
              :: map (fun row =>
                        [fst row;
                         to_string (FileTypeStats.count (snd row));
                         to_string (FileTypeStats.totalSize (snd row))])
                   entries
              ++ (if negb (Da.showHidden cfg) && (Da.hiddenFiles s >? 0)
                  then [["Hidden files";
                         to_string (Da.hiddenFiles s);
                         to_string (Da.hiddenSize s)]]
                  else []))
    /\ (forall label rest,
          at_delimiter rest = true ->
          (read_field (Da.escapeCSV label +:+ rest) = Some (label, rest)
           <-> contains ch_quote label = false
               /\ (contains ch_cr label = true ->
                   contains ch_comma label = true
                   \/ contains ch_lf label = true))).
Proof.
  intros entries cfg s Hq. split.
  2:{ intros label rest Hd. rewrite (Da_escapeCSV_reads_back label rest Hd).
      unfold Da_readable_label.
      destruct (contains ch_quote label), (contains ch_cr label),
        (contains ch_comma label), (contains ch_lf label); cbn;
        intuition discriminate. }
  set (hidden_line :=
         "Hidden files" +:+ String ch_comma
           (to_string (Da.hiddenFiles s) +:+ String ch_comma
              (to_string (Da.hiddenSize s) +:+ String ch_lf EmptyString))).
  set (lines :=
         ("FileType" +:+ String ch_comma
            ("Count" +:+ String ch_comma
               ("TotalSize" +:+ String ch_lf EmptyString)),
          ["FileType"; "Count"; "TotalSize"])
           :: map (fun row =>
                     (Da_csv_row row,
                      [fst row;
                       to_string (FileTypeStats.count (snd row));
                       to_string (FileTypeStats.totalSize (snd row))]))
                entries
           ++ (if negb (Da.showHidden cfg) && (Da.hiddenFiles s >? 0)
               then [(hidden_line,
                      ["Hidden files";
                       to_string (Da.hiddenFiles s);
                       to_string (Da.hiddenSize s)])]
               else [])).
  assert (Htext : Da_exportCsv entries cfg s
                  = concat_strings (map fst lines)).
  { unfold lines, Da_exportCsv, hidden_line, newline.
    cbn [map fst concat_strings]. rewrite map_app, concat_strings_app.
    rewrite map_map. cbn [fst].
    destruct (negb _ && _); cbn [map fst concat_strings];
      repeat first [rewrite string_app_assoc|rewrite append_cons
                   |rewrite append_nil|rewrite string_app_nil_r];
      reflexivity. }
  assert (Hfields : map snd lines
                    = ["FileType"; "Count"; "TotalSize"]
                        :: map (fun row =>
                                  [fst row;
                                   to_string (FileTypeStats.count (snd row));
                                   to_string
                                     (FileTypeStats.totalSize (snd row))])
                             entries
                        ++ (if negb (Da.showHidden cfg)
                               && (Da.hiddenFiles s >? 0)
                            then [["Hidden files";
                                   to_string (Da.hiddenFiles s);
                                   to_string (Da.hiddenSize s)]]
                            else [])).
  { unfold lines. cbn [map snd]. rewrite map_app, map_map. cbn [snd].
    by destruct (negb _ && _). }
  assert (Hlines : Forall
                     (fun l => forall rest,
                        exists c r,
                          fst l +:+ rest = String c r
                          /\ read_row
                               (S (String.length (fst l +:+ rest)))
                               (fst l +:+ rest) = Some (snd l, rest))
                     lines).
  { unfold lines. constructor; [|apply Forall_app; split].
    - intros rest. cbn [fst snd]. rewrite three_fields_app.
      apply line_of_three.
      rewrite (read_row_comma _ _ "FileType")
        by (apply read_field_plain; reflexivity).
      rewrite (read_row_comma _ _ "Count")
        by (apply read_field_plain; reflexivity).
      by rewrite (read_row_lf _ _ "TotalSize")
        by (apply read_field_plain; reflexivity).
    - apply Forall_forall. intros l Hin.
      apply list_elem_of_fmap in Hin as (row & -> & Hrow).
      intros rest. cbn [fst snd]. rewrite Da_csv_row_text.
      apply line_of_three, Da_csv_line_reads.
      apply Da_escapeCSV_reads_back; [reflexivity|].
      rewrite Forall_forall in Hq. by apply Hq.
    - destruct (negb _ && _); [|constructor].
      constructor; [|constructor]. intros rest. cbn [fst snd].
      unfold hidden_line. rewrite three_fields_app.
      apply line_of_three, Da_csv_line_reads.
      apply read_field_plain; reflexivity. }
  unfold read_csv. rewrite Htext.
  rewrite (read_rows_lines lines Hlines); [by rewrite Hfields|].
  apply Nat.lt_succ_r. rewrite <- (length_map fst lines).
  apply concat_strings_length. apply Forall_forall. intros t Hin.
  apply list_elem_of_fmap in Hin as (l & -> & Hl).
  rewrite Forall_forall in Hlines.
  destruct (Hlines l Hl EmptyString) as (c & r & Hs & _).
  rewrite string_app_nil_r in Hs. by rewrite Hs.
Qed.

Lemma Da_csv_reads_back_for_readable_labels_witness :
  read_csv
    (Da_exportCsv
       [(".txt", {| FileTypeStats.count := 2; FileTypeStats.totalSize := 507 |});
        (".a,b", {| FileTypeStats.count := 1; FileTypeStats.totalSize := 9 |})]
       (da_hidden false)
       {| Da.stats := ∅; Da.totalFiles := 3; Da.totalSize := 616;
          Da.hiddenFiles := 1; Da.hiddenSize := 100 |})
  = Some [["FileType"; "Count"; "TotalSize"];
          [".txt"; "2"; "507"]; [".a,b"; "1"; "9"];
          ["Hidden files"; "1"; "100"]].
Proof.
  destruct (Da_csv_reads_back_for_readable_labels
              [(".txt", {| FileTypeStats.count := 2;
                           FileTypeStats.totalSize := 507 |});
               (".a,b", {| FileTypeStats.count := 1;
                           FileTypeStats.totalSize := 9 |})]
              (da_hidden false)
              {| Da.stats := ∅; Da.totalFiles := 3; Da.totalSize := 616;
                 Da.hiddenFiles := 1; Da.hiddenSize := 100 |}
              ltac:(repeat constructor)) as [H _].
  exact H.
Defined.

(* ===================================================================== *)
(** * The report of a tree of hidden files *)
(* ===================================================================== *)

(** What holds of the claims and of the operations for the entries of a
    kind holds of all operations of [processDirectory] on a tree of
    entries of that kind. *)
Lemma acts_processDirectory_Forall_on fs cfg (ok : entry -> bool)
    (Q : Threaded.event -> Prop) :
  (forall path ident, Q (Threaded.Claimed path ident)) ->
  (forall dir e, ok e = true ->
     Forall Q (flat_map acts
                 (Threaded.visitFile cfg (Path.append dir (entry_name e)) e)))
  ->
  (forall dir e, ok e = true ->
     Forall Q (flat_map acts
                 (Threaded.visitGit cfg (Path.append dir (entry_name e)) e)))
  ->
  (forall n i children,
     ok (EDir n i children) = true ->
     String.eqb (Path.filename n) GIT = false ->
     forallb ok children = true) ->
  forall dir ident listing,
    forallb ok listing = true ->
    Forall Q (acts (Threaded.processDirectory fs cfg dir ident listing)).
Proof.
  intros HC HF HG Hdir.
  assert (Hscan : forall (v : string -> entry -> list Threaded.prog) dir es,
             Forall (fun e => Forall Q
                       (flat_map acts (v (Path.append dir (entry_name e)) e)))
               es ->
             Forall Q (flat_map acts
                         (Threaded.scan (Threaded.shouldExclude fs cfg)
                            dir v es))).
  { intros v dir es. induction 1 as [|e es He _ IH]; simpl; [done|].
    destruct (Threaded.shouldExclude fs cfg _); [done|].
    destruct e; try done; rewrite flat_map_app; apply Forall_app;
      by split. }
  assert (Htask : forall dir ident listing subDirs,
             forallb ok listing = true ->
             Forall Q (flat_map acts subDirs) ->
             Forall Q (acts (Threaded.directoryTask fs cfg dir ident listing
                               subDirs))).
  { intros dir ident listing subDirs Hok Hs. rewrite acts_directoryTask.
    rewrite forallb_forall in Hok.
    constructor; [apply HC|]. apply Forall_app. split.
    - apply Hscan, Forall_forall. intros e He. apply HG, Hok.
      by apply list_elem_of_In.
    - apply Forall_app. split; [|done].
      apply Hscan, Forall_forall. intros e He. apply HF, Hok.
      by apply list_elem_of_In. }
  assert (Hsub : forall e, ok e = true -> forall dir,
             Forall Q (flat_map acts
                         (Threaded.visitSubDir fs cfg
                            (Path.append dir (entry_name e)) e))).
  { induction e as [n sz|n i children IH|n|n] using entry_nested_ind;
      intros Hok dir; try done.
    rewrite visitSubDir_dir. cbn [entry_name]. rewrite filename_append.
    destruct (String.eqb (Path.filename n) GIT) eqn:Hgit; [done|].
    pose proof (Hdir n i children Hok Hgit) as Hch.
    rewrite flat_map_one. apply Htask; [done|].
    apply Hscan. rewrite Forall_forall in IH. apply Forall_forall.
    intros e He. apply IH; [done|].
    rewrite forallb_forall in Hch. apply Hch. by apply list_elem_of_In. }
  intros dir ident listing Hok. apply Htask; [done|].
  apply Hscan, Forall_forall. intros e He. apply Hsub.
  rewrite forallb_forall in Hok. apply Hok. by apply list_elem_of_In.
Qed.

(** The same for [da.cpp]. *)
Lemma Da_analyze_preserves_on fs cfg (ok : entry -> bool)
    (I : Da.State -> Prop) :
  (forall dir n size s,
     ok (EFile n size) = true -> I s ->
     I (fst (Da.analyzeFile cfg (Path.append dir n) size s))) ->
  (forall children s s',
     I s -> Da.analyzeGit cfg children s = inr s' -> I s') ->
  (forall n i children,
     ok (EDir n i children) = true ->
     String.eqb (Path.filename n) GIT = false ->
     forallb ok children = true) ->
  forall path listing s s',
    forallb ok listing = true ->
    I s -> Da.analyze fs cfg path listing s = inr s' -> I s'.
Proof.
  intros HF HG Hdir.
  assert (HE : forall e, ok e = true -> forall dir s s' ec,
             I s -> Da.analyzeEntry fs cfg dir e s = inr (s', ec) -> I s').
  { induction e as [n sz|n i children IH|n|n] using entry_nested_ind;
      intros Hok dir s s' ec Hs; cbn [Da.analyzeEntry entry_name];
      destruct (Da.shouldExclude fs cfg _); try (by intros [= <- <-]);
      try discriminate.
    - intros [= H]. pose proof (HF dir n sz s Hok Hs) as Ha.
      by rewrite H in Ha.
    - rewrite filename_append.
      destruct (String.eqb (Path.filename n) GIT) eqn:Hgit.
      + destruct (Da.analyzeGit cfg children s) as [x|s1] eqn:Hg;
          [discriminate|]. intros [= <- <-]. by eapply HG.
      + fold (Da.analyzeEntry fs cfg).
        destruct (Da.loop _ children false s) as [x|s1] eqn:Hl;
          [discriminate|]. intros [= <- <-].
        pose proof (Hdir n i children Hok Hgit) as Hch.
        eapply (Da_loop_preserves I); [|exact Hs|exact Hl].
        rewrite Forall_forall in IH. apply Forall_forall.
        intros e He s0 s0' ec0. apply IH; [done|].
        rewrite forallb_forall in Hch. apply Hch. by apply list_elem_of_In. }
  intros path listing s s' Hok Hs Hrun. unfold Da.analyze in Hrun.
  eapply (Da_loop_preserves I); [|exact Hs|exact Hrun].
  apply Forall_forall. intros e He s0 s0' ec0. apply HE.
  rewrite forallb_forall in Hok. apply Hok. by apply list_elem_of_In.
Qed.

(** X21.  A tree that holds hidden files only is reported as empty.
    When hidden files are not shown and every regular file of the tree
    has a name that starts with a period (directories named [.git]
    apart), [totalFiles] stays 0 and [stats] empty in both programs,
    under every schedule, whatever is counted in [hiddenFiles]; and
    [printResults], which returns first thing when [totalFiles] is 0,
    then writes [No files found.] and nothing else: the line of the
    hidden files is not reached. *)
Theorem hidden_only_tree_is_reported_empty :
  (forall sorted showHidden totalSize hiddenFiles hiddenSize,
     printResults sorted showHidden 0 totalSize hiddenFiles hiddenSize
     = RED +:+ "No files found." +:+ newline +:+ RESET)
  /\ (forall fs (cfg : Da.Config) path listing s',
        Da.showHidden cfg = false ->
        forallb all_hidden listing = true ->
        Da.analyze fs cfg path listing Da.init = inr s' ->
        Da.totalFiles s' = 0 /\ Da.stats s' = ∅)
  /\ (forall fs (cfg : Threaded.Config) path ident listing s0 tr s' p',
        Threaded.showHidden cfg = false ->
        forallb all_hidden listing = true ->
        Threaded.steps (Threaded.reset s0)
          (Threaded.processDirectory fs cfg path ident listing) tr s' p' ->
        Threaded.totalFiles s' = 0 /\ Threaded.stats s' = ∅).
Proof.
  assert (Hdir : forall n i children,
             all_hidden (EDir n i children) = true ->
             String.eqb (Path.filename n) GIT = false ->
             forallb all_hidden children = true).
  { intros n i children Hok Hgit. simpl in Hok. by rewrite Hgit in Hok. }
  split; [done|]. split.
  - intros fs cfg path listing s' Hshow Hok Hrun.
    apply (Da_analyze_preserves_on fs cfg all_hidden
             (fun x => Da.totalFiles x = 0 /\ Da.stats x = ∅))
      with (path := path) (listing := listing) (s := Da.init);
      [| |exact Hdir|exact Hok|done|exact Hrun].
    + intros dir n size s Hn Hs. simpl in Hn. unfold Da.analyzeFile.
      rewrite filename_append, Hn, Hshow.
      destruct size as [z|]; [|done].
      destruct (negb _); [done|]. by destruct (negb _).
    + intros children s s1 Hs. unfold Da.analyzeGit. rewrite Hshow.
      destruct (Da.calculateDirectorySize children); [discriminate|].
      by intros [= <-].
  - intros fs cfg path ident listing s0 tr s' p' Hshow Hok Hrun.
    destruct (steps_events _ _ _ _ _ Hrun) as (-> & Htr & _).
    set (Q := fun ev : Threaded.event =>
                forall x, Threaded.totalFiles (Threaded.effect ev x)
                          = Threaded.totalFiles x
                          /\ Threaded.stats (Threaded.effect ev x)
                             = Threaded.stats x).
    assert (HQ : Forall Q (acts (Threaded.processDirectory fs cfg path ident
                                   listing))).
    { apply (acts_processDirectory_Forall_on fs cfg all_hidden);
        [| | |exact Hdir|exact Hok].
      - by intros p i x.
      - intros dir [n sz|n i children|n|n] Hn; try done.
        cbn [Threaded.visitFile entry_name]. rewrite flat_map_one.
        simpl in Hn. unfold Threaded.processFile.
        rewrite filename_append, Hn, Hshow.
        destruct sz as [z|]; [|done].
        destruct (negb _); [done|]. destruct (negb _); [done|].
        repeat constructor.
      - intros dir [n sz|n i children|n|n] Hn; try done.
        cbn [Threaded.visitGit]. destruct (String.eqb _ GIT); [|done].
        unfold Threaded.processGit. rewrite Hshow.
        destruct (foldM _ children 0); [done|]. repeat constructor. }
    rewrite Forall_forall in HQ.
    apply (effects_preserve
             (fun x => Threaded.totalFiles x = 0 /\ Threaded.stats x = ∅));
      [|done].
    intros ev x Hev [H1 H2]. destruct (HQ ev (Htr ev Hev) x) as [H3 H4].
    split; congruence.
Qed.

Lemma hidden_only_tree_is_reported_empty_witness :
  exists s',
    Da.analyze no_equivalent (da_hidden false) "root"
      [EFile ".env" (Some 100);
       EDir ".git" 1 [EFile "HEAD" (Some 23)];
       EDir "conf" 2 [EFile ".rc" (Some 7)]] Da.init = inr s'
    /\ Da.totalFiles s' = 0 /\ Da.hiddenFiles s' = 3
    /\ printResults [] false (Da.totalFiles s') (Da.totalSize s')
         (Da.hiddenFiles s') (Da.hiddenSize s')
       = RED +:+ "No files found." +:+ newline +:+ RESET.
Proof.
  destruct hidden_only_tree_is_reported_empty as (Hprint & HD & _).
  eexists. split; [reflexivity|].
  destruct (HD no_equivalent (da_hidden false) "root"
              [EFile ".env" (Some 100);
               EDir ".git" 1 [EFile "HEAD" (Some 23)];
               EDir "conf" 2 [EFile ".rc" (Some 7)]] _
              ltac:(reflexivity) ltac:(reflexivity) ltac:(reflexivity))
    as [Hfiles _].
  split; [exact Hfiles|]. split; [reflexivity|].
  rewrite Hfiles. apply Hprint.
Defined.

Lemma Threaded_totalFiles_is_sum_of_counts_witness :
  let s := fst (Threaded.analyze no_equivalent (threaded_hidden true) "root" 0
                  sample_tree Threaded.init) in
  wrap (sum_counts (Threaded.stats s)) = Threaded.totalFiles s.
Proof.
  apply (Threaded_totalFiles_is_sum_of_counts no_equivalent
           (threaded_hidden true) "root" 0%nat sample_tree Threaded.init
           (snd (Threaded.analyze no_equivalent (threaded_hidden true)
                   "root" 0 sample_tree Threaded.init))
           _ Threaded.Skip).
  apply run_steps.
Defined.

(* ===================================================================== *)
(** * The order of a directory listing does not matter *)
(* ===================================================================== *)

Lemma readable_total_perm (a b : list (option Z)) :
  Permutation a b -> readable_total a = readable_total b.
Proof.
  induction 1 as [|x l l' _ IH|x y l|l l' l'' _ IH1 _ IH2]; simpl;
    try (destruct x); try (destruct y); lia.
Qed.

Lemma unreadable_perm (a b : list (option Z)) :
  Permutation a b -> unreadable a = unreadable b.
Proof.
  induction 1 as [|x l l' _ IH|x y l|l l' l'' _ IH1 _ IH2]; simpl;
    try (destruct x); try (destruct y); lia.
Qed.

(** A listed entry is not one whose status query throws. *)
Lemma scan_listable_cons ex dir {A} (visit : string -> entry -> list A)
    (e : entry) (l : list entry) :
  listable e = true ->
  Threaded.scan ex dir visit (e :: l)
  = if ex (Path.append dir (entry_name e))
    then Threaded.scan ex dir visit l
    else visit (Path.append dir (entry_name e)) e
         ++ Threaded.scan ex dir visit l.
Proof. intros Hl. simpl. by destruct e. Qed.

Lemma weights_fold (l : list entry) :
  fold_right Z.add 0 (map weight l) = weights l.
Proof. reflexivity. Qed.

Lemma same_entry_refl fs cfg (e : entry) : same_entry fs cfg e e.
Proof. by repeat split. Qed.

(** Two listings of the same tree agree in all that the traversals
    take from them. *)
Lemma relisted_same_entries fs cfg :
  (forall e e', relisted e e' -> same_entry fs cfg e e')
  /\ (forall l l', relisted_list l l' -> same_entries fs cfg l l').
Proof.
  apply relisted_mutual.
  - (* the same entry *)
    intros e. apply same_entry_refl.
  - (* a directory whose children are listed in another order *)
    intros n i cs cs' _ (Hnames & Hsizes & Hw & Hlist & Hclean & Hwf & Hscan).
    split; [done|]. split; [exact Hsizes|]. split.
    { simpl. rewrite !weights_fold. by rewrite Hw. }
    split; [exact Hlist|]. split; [exact Hclean|]. split.
    { simpl. intros H. apply andb_true_iff in H as [Hp H].
      apply andb_true_iff in H as [Hnd H]. rewrite Hp. simpl.
      apply andb_true_iff. split; [|by apply Hwf].
      apply bool_decide_eq_true in Hnd. apply bool_decide_eq_true.
      by rewrite <- Hnames. }
    intros Hl path. simpl in Hl. unfold entry_events.
    rewrite !visitSubDir_dir. cbn [Threaded.visitGit Threaded.visitFile].
    destruct (String.eqb (Path.filename path) GIT).
    + (* a [.git] directory: the sizes add up to the same *)
      unfold Threaded.processGit.
      destruct (git_sizes_list cs
                  ltac:(apply Forall_forall; intros c _;
                        apply git_sizes_entry)
                  Hl 0 ltac:(concrete_range)) as [-> _].
      destruct (git_sizes_list cs'
                  ltac:(apply Forall_forall; intros c _;
                        apply git_sizes_entry)
                  (Hlist Hl) 0 ltac:(concrete_range)) as [-> _].
      by rewrite (readable_total_perm _ _ Hsizes),
        (unreadable_perm _ _ Hsizes).
    + cbn [flat_map app]. rewrite !app_nil_r.
      rewrite (directoryTask_by_entry fs cfg path i cs).
      rewrite (directoryTask_by_entry fs cfg path i cs').
      apply perm_skip. by apply Hscan.
  - (* the empty listing *)
    by repeat split.
  - (* the first entries correspond *)
    intros e e' l l' _ (Hn & Hs & Hw & Hl & Hc & Hwf & Hev) _
      (Hnames & Hsizes & Hws & Hlist & Hclean & Hwfs & Hscan).
    split; [simpl; rewrite Hn; by apply perm_skip|]. split.
    { simpl. by apply Permutation_app. }
    split; [rewrite !weights_cons; lia|]. split.
    { simpl. intros [H1 H2]%andb_true_iff. rewrite Hl, Hlist; done. }
    split.
    { simpl. intros [H1 H2]%andb_true_iff. rewrite Hc, Hclean; done. }
    split.
    { simpl. intros [H1 H2]%andb_true_iff. rewrite Hwf, Hwfs; done. }
    intros Hall dir. simpl in Hall. apply andb_true_iff in Hall as [H1 H2].
    rewrite !scan_listable_cons by auto. rewrite <- Hn.
    destruct (Threaded.shouldExclude fs cfg _); [by apply Hscan|].
    apply Permutation_app; [by apply Hev|by apply Hscan].
  - (* two entries change places *)
    intros e1 e2 l. split; [simpl; apply perm_swap|]. split.
    { simpl. rewrite !app_assoc. apply Permutation_app_tail.
      apply Permutation_app_comm. }
    split; [rewrite !weights_cons; lia|]. split.
    { simpl. intros [H1 [H2 H3]%andb_true_iff]%andb_true_iff.
      by rewrite H1, H2, H3. }
    split.
    { simpl. intros [H1 [H2 H3]%andb_true_iff]%andb_true_iff.
      by rewrite H1, H2, H3. }
    split.
    { simpl. intros [H1 [H2 H3]%andb_true_iff]%andb_true_iff.
      by rewrite H1, H2, H3. }
    intros Hall dir. simpl in Hall.
    apply andb_true_iff in Hall as [H1 [H2 H3]%andb_true_iff].
    rewrite !scan_listable_cons by done.
    destruct (Threaded.shouldExclude fs cfg (Path.append dir (entry_name e1))),
      (Threaded.shouldExclude fs cfg (Path.append dir (entry_name e2)));
      try done.
    apply Permutation_app_swap_app.
  - (* one order after another *)
    intros l1 l2 l3 _ (Hn1 & Hs1 & Hw1 & Hl1 & Hc1 & Hwf1 & Hsc1) _
      (Hn2 & Hs2 & Hw2 & Hl2 & Hc2 & Hwf2 & Hsc2).
    split; [by etransitivity|]. split; [by etransitivity|].
    split; [lia|]. split; [auto|]. split; [auto|]. split; [auto|].
    intros Hall dir. etransitivity; [by apply Hsc1|]. apply Hsc2. auto.
Qed.

(** X22.  The order in which the directories are listed does not matter
    to the multithreaded program: on a well-formed tree in which no
    status query throws, every complete execution of [analyze] ends in
    the same state as every complete execution on the same tree with
    the entries of any of its directories listed in another order,
    under every schedule.  It does not matter to [da.cpp] either when
    moreover no size is unreadable and no counter can overflow; in
    general the result of [da.cpp] depends on the order (X1). *)
Theorem listing_order_does_not_matter :
  forall fs (cfg : Threaded.Config) path ident (l l' : list entry),
    relisted_list l l' ->
    forallb listable l = true ->
    well_formed l = true ->
    (forall s0 tr s' s0' tr' s'',
       Threaded.analyze_runs fs cfg path ident l s0 tr s' ->
       Threaded.analyze_runs fs cfg path ident l' s0' tr' s'' ->
       s' = s'')
    /\ ((forall p, Da.shouldExclude fs (Da_of_Threaded cfg) p
                   = Threaded.shouldExclude fs cfg p) ->
        forallb clean l = true ->
        weights l <= SIZE_MAX ->
        Da.analyze fs (Da_of_Threaded cfg) path l Da.init
        = Da.analyze fs (Da_of_Threaded cfg) path l' Da.init).
Proof.
  intros fs cfg path ident l l' Hrel Hlist Hwf.
  destruct (proj2 (relisted_same_entries fs cfg) l l' Hrel)
    as (Hnames & _ & Hw & _ & Hclean & Hwfs & Hscan).
  assert (Hwf' : well_formed l' = true).
  { unfold well_formed in *. apply andb_true_iff in Hwf as [Hnd Hall].
    apply andb_true_iff. split; [|by apply Hwfs].
    apply bool_decide_eq_true in Hnd. apply bool_decide_eq_true.
    by rewrite <- Hnames. }
  assert (Hsame : forall s0 tr s' s0' tr' s'',
             Threaded.analyze_runs fs cfg path ident l s0 tr s' ->
             Threaded.analyze_runs fs cfg path ident l' s0' tr' s'' ->
             s' = s'').
  { intros s0 tr s' s0' tr' s'' Hrun Hrun'.
    destruct (analyze_runs_determined _ _ _ _ _ _ _ _ Hwf Hrun) as [_ ->].
    destruct (analyze_runs_determined _ _ _ _ _ _ _ _ Hwf' Hrun') as [_ ->].
    apply effects_perm. unfold Threaded.processDirectory.
    rewrite (directoryTask_by_entry fs cfg path ident l).
    rewrite (directoryTask_by_entry fs cfg path ident l').
    apply perm_skip. by apply Hscan. }
  split; [exact Hsame|].
  intros Hagree Hcl Hmax.
  rewrite (Da_analyze_agrees fs cfg Hagree path ident l Threaded.init _ _
             Hcl Hwf Hmax (run_steps _ _)).
  rewrite (Da_analyze_agrees fs cfg Hagree path ident l' Threaded.init _ _
             (Hclean Hcl) Hwf' ltac:(lia) (run_steps _ _)).
  do 2 f_equal. eapply Hsame; apply run_steps.
Qed.

Lemma listing_order_does_not_matter_witness :
  fst (Threaded.analyze no_equivalent (threaded_default 4) "root" 0
         [EFile "z.md" (Some 3);
          EDir "a" 1 [EFile "x.txt" (Some 1); EFile ".hid" (Some 4)]]
         Threaded.init)
  = fst (Threaded.analyze no_equivalent (threaded_default 4) "root" 0
           [EDir "a" 1 [EFile ".hid" (Some 4); EFile "x.txt" (Some 1)];
            EFile "z.md" (Some 3)]
           Threaded.init).
Proof.
  assert (Hrel : relisted_list
                   [EFile "z.md" (Some 3);
                    EDir "a" 1 [EFile "x.txt" (Some 1);
                                EFile ".hid" (Some 4)]]
                   [EDir "a" 1 [EFile ".hid" (Some 4);
                                EFile "x.txt" (Some 1)];
                    EFile "z.md" (Some 3)]).
  { eapply relisted_trans; [apply relisted_swap|].
    apply relisted_cons; [|apply relisted_cons;
                             [apply relisted_same|apply relisted_nil]].
    apply relisted_dir, relisted_swap. }
  destruct (listing_order_does_not_matter no_equivalent (threaded_default 4)
              "root" 0%nat _ _ Hrel ltac:(reflexivity)
              ltac:(vm_compute; reflexivity)) as [H _].
  apply (H Threaded.init
           (snd (Threaded.analyze no_equivalent (threaded_default 4) "root" 0
                   [EFile "z.md" (Some 3);
                    EDir "a" 1 [EFile "x.txt" (Some 1);
                                EFile ".hid" (Some 4)]]
                   Threaded.init))
           _ Threaded.init
           (snd (Threaded.analyze no_equivalent (threaded_default 4) "root" 0
                   [EDir "a" 1 [EFile ".hid" (Some 4);
                                EFile "x.txt" (Some 1)];
                    EFile "z.md" (Some 3)]
                   Threaded.init))
           _); apply run_steps.
Defined.

(* ===================================================================== *)
(** * The type of a file is that of its name *)
(* ===================================================================== *)

Lemma filename_has_no_slash (p : string) :
  contains ch_slash (Path.filename p) = false.
Proof.
  induction p as [|c r IH]; [done|]. simpl.
  destruct (contains ch_slash r) eqn:Hr; [done|].
  destruct (Ascii.eqb c ch_slash) eqn:Hc; [done|]. simpl.
  by rewrite Hc, Hr.
Qed.

Lemma filename_idempotent (p : string) :
  Path.filename (Path.filename p) = Path.filename p.
Proof. apply filename_no_slash, filename_has_no_slash. Qed.

(** X23.  [getFileType] looks at the last component of the path only:
    the type of a path is the type of its file name, so that the type
    of an entry does not depend on the directory it lies in, however
    that directory is spelled (periods in the names of directories do
    not count).  The same holds of both programs. *)
Theorem getFileType_of_the_file_name :
  (forall path, getFileType path = getFileType (Path.filename path))
  /\ (forall dir name,
        getFileType (Path.append dir name) = getFileType name)
  /\ (forall dir name,
        Threaded.getFileType (Path.append dir name)
        = Threaded.getFileType name).
Proof.
  assert (H : forall path,
             getFileType path = getFileType (Path.filename path)).
  { intros path. unfold getFileType, Path.extension.
    rewrite filename_idempotent.
    destruct (String.eqb_spec path EmptyString) as [->|Hp]; [done|].
    destruct (String.eqb_spec (Path.filename path) EmptyString) as [Hf|Hf];
      done. }
  assert (H2 : forall dir name,
             getFileType (Path.append dir name) = getFileType name).
  { intros dir name. rewrite (H (Path.append dir name)), filename_append.
    by rewrite <- H. }
  split; [exact H|]. split; [exact H2|].
  intros dir name. by rewrite !getFileType_threaded.
Qed.

(* ===================================================================== *)
(** * The exit code *)
(* ===================================================================== *)

(** X24.  The exit code of [main] tells whether an exception was caught.
    Both programs end with 0 or 1; with 1 exactly when the last things
    written are the message of an exception and the usage text; a CSV
    file is written only by a run that ends with 0, after the results
    of the same state of the analyzer have been printed, and it is the
    last thing such a run does. *)
Theorem exit_code_tells_errors :
  forall parseSize fs is_directory tree can_create hc (args : list string),
    (let '(code, out) :=
       DaMain.main parseSize fs is_directory tree can_create args in
     (code = 0 \/ code = 1)
     /\ (code = 1 <->
         exists written e,
           out = written ++ [DaMain.ErrorMessage e; DaMain.Usage])
     /\ (forall file s,
           DaMain.Exported file s ∈ out ->
           code = 0
           /\ exists dir,
                out = [DaMain.Banner dir; DaMain.Results s;
                       DaMain.Exported file s]))
    /\ (let '(code, out) :=
          ThreadedMain.main parseSize hc fs is_directory tree can_create
            args in
        (code = 0 \/ code = 1)
        /\ (code = 1 <->
            exists written e,
              out = written ++ [ThreadedMain.ErrorMessage e;
                                ThreadedMain.Usage])
        /\ (forall file s,
              ThreadedMain.Exported file s ∈ out ->
              code = 0
              /\ exists dir n,
                   out = [ThreadedMain.Banner dir n; ThreadedMain.Completed;
                          ThreadedMain.Results s;
                          ThreadedMain.Exported file s])).
Proof.
  intros parseSize fs is_directory tree can_create hc args.
  assert (HfailD : forall written e,
             (forall file s, DaMain.Exported file s ∉ written) ->
             let '(code, out) := DaMain.failed written e in
             (code = 0 \/ code = 1)
             /\ (code = 1 <->
                 exists written e,
                   out = written ++ [DaMain.ErrorMessage e; DaMain.Usage])
             /\ (forall file s,
                   DaMain.Exported file s ∈ out ->
                   code = 0
                   /\ exists dir,
                        out = [DaMain.Banner dir; DaMain.Results s;
                               DaMain.Exported file s])).
  { intros written e Hw. unfold DaMain.failed.
    split; [by right|]. split; [split; [by eexists _, _|done]|].
    intros file s [Hin|Hin]%elem_of_app; [by apply Hw in Hin|].
    apply elem_of_cons in Hin as [Hin|Hin]; [discriminate|].
    apply elem_of_cons in Hin as [Hin|Hin]; [discriminate|].
    by apply elem_of_nil in Hin. }
  assert (HfailT : forall written e,
             (forall file s, ThreadedMain.Exported file s ∉ written) ->
             let '(code, out) := ThreadedMain.failed written e in
             (code = 0 \/ code = 1)
             /\ (code = 1 <->
                 exists written e,
                   out = written ++ [ThreadedMain.ErrorMessage e;
                                     ThreadedMain.Usage])
             /\ (forall file s,
                   ThreadedMain.Exported file s ∈ out ->
                   code = 0
                   /\ exists dir n,
                        out = [ThreadedMain.Banner dir n;
                               ThreadedMain.Completed;
                               ThreadedMain.Results s;
                               ThreadedMain.Exported file s])).
  { intros written e Hw. unfold ThreadedMain.failed.
    split; [by right|]. split; [split; [by eexists _, _|done]|].
    intros file s [Hin|Hin]%elem_of_app; [by apply Hw in Hin|].
    apply elem_of_cons in Hin as [Hin|Hin]; [discriminate|].
    apply elem_of_cons in Hin as [Hin|Hin]; [discriminate|].
    by apply elem_of_nil in Hin. }
  assert (Hlast : forall {A} (l' : list A) (y z : A),
             last (l' ++ [y; z]) = Some z).
  { intros A l' y z.
    replace (l' ++ [y; z]) with ((l' ++ [y]) ++ [z])
      by (by rewrite <- app_assoc).
    apply last_snoc. }
  split.
  - unfold DaMain.main.
    destruct (DaMain.parse_args parseSize args DaMain.no_options)
      as [x|[|o]].
    + apply HfailD. intros file s Hin. by apply elem_of_nil in Hin.
    + split; [by left|]. split.
      * split; [done|]. intros (written & e & Hout).
        apply (f_equal (@length _)) in Hout. rewrite length_app in Hout.
        simpl in Hout. lia.
      * intros file s Hin. apply elem_of_cons in Hin as [Hin|Hin];
          [discriminate|]. by apply elem_of_nil in Hin.
    + destruct (String.eqb (DaMain.targetDir o) EmptyString).
      { apply HfailD. intros file s Hin. by apply elem_of_nil in Hin. }
      destruct (is_directory (DaMain.targetDir o)) as [[|]|];
        [|apply HfailD; intros file s Hin; by apply elem_of_nil in Hin
         |apply HfailD; intros file s Hin; by apply elem_of_nil in Hin].
      destruct (DaMain.configure o) as [x|cfg];
        [apply HfailD; intros file s Hin; by apply elem_of_nil in Hin|].
      destruct (Da.analyze fs cfg (DaMain.targetDir o)
                  (tree (DaMain.targetDir o)) Da.init) as [x|s1].
      { apply HfailD. intros file s Hin.
        apply elem_of_cons in Hin as [Hin|Hin]; [discriminate|].
        by apply elem_of_nil in Hin. }
      destruct (String.eqb (DaMain.outputFile o) EmptyString).
      { split; [by left|]. split.
        - split; [done|]. intros (written & e & Hout).
          apply (f_equal last) in Hout. rewrite Hlast in Hout.
          discriminate.
        - intros file s Hin.
          apply elem_of_cons in Hin as [Hin|Hin]; [discriminate|].
          apply elem_of_cons in Hin as [Hin|Hin]; [discriminate|].
          by apply elem_of_nil in Hin. }
      destruct (can_create (DaMain.outputFile o)).
      { split; [by left|]. split.
        - split; [done|]. intros (written & e & Hout).
          apply (f_equal last) in Hout. rewrite Hlast in Hout.
          discriminate.
        - intros file s Hin.
          apply elem_of_cons in Hin as [Hin|Hin]; [discriminate|].
          apply elem_of_cons in Hin as [Hin|Hin]; [discriminate|].
          apply elem_of_cons in Hin as [Hin|Hin];
            [|by apply elem_of_nil in Hin].
          injection Hin as -> ->. split; [done|by eexists]. }
      apply HfailD. intros file s Hin.
      apply elem_of_cons in Hin as [Hin|Hin]; [discriminate|].
      apply elem_of_cons in Hin as [Hin|Hin]; [discriminate|].
      by apply elem_of_nil in Hin.
  - unfold ThreadedMain.main.
    destruct (ThreadedMain.parse_args parseSize args ThreadedMain.no_options)
      as [x|[|o]].
    + apply HfailT. intros file s Hin. by apply elem_of_nil in Hin.
    + split; [by left|]. split.
      * split; [done|]. intros (written & e & Hout).
        apply (f_equal (@length _)) in Hout. rewrite length_app in Hout.
        simpl in Hout. lia.
      * intros file s Hin. apply elem_of_cons in Hin as [Hin|Hin];
          [discriminate|]. by apply elem_of_nil in Hin.
    + destruct (String.eqb (ThreadedMain.targetDir o) EmptyString).
      { apply HfailT. intros file s Hin. by apply elem_of_nil in Hin. }
      destruct (is_directory (ThreadedMain.targetDir o)) as [[|]|];
        [|apply HfailT; intros file s Hin; by apply elem_of_nil in Hin
         |apply HfailT; intros file s Hin; by apply elem_of_nil in Hin].
      destruct (ThreadedMain.configure hc o) as [x|cfg];
        [apply HfailT; intros file s Hin; by apply elem_of_nil in Hin|].
      cbv zeta.
      destruct (String.eqb (ThreadedMain.outputFile o) EmptyString).
      { split; [by left|]. split.
        - split; [done|]. intros (written & e & Hout).
          apply (f_equal last) in Hout. rewrite Hlast in Hout.
          discriminate.
        - intros file s Hin.
          apply elem_of_cons in Hin as [Hin|Hin]; [discriminate|].
          apply elem_of_cons in Hin as [Hin|Hin]; [discriminate|].
          apply elem_of_cons in Hin as [Hin|Hin]; [discriminate|].
          by apply elem_of_nil in Hin. }
      destruct (can_create (ThreadedMain.outputFile o)).
      { split; [by left|]. split.
        - split; [done|]. intros (written & e & Hout).
          apply (f_equal last) in Hout. rewrite Hlast in Hout.
          discriminate.
        - intros file s Hin. cbn [app] in Hin.
          apply elem_of_cons in Hin as [Hin|Hin]; [discriminate|].
          apply elem_of_cons in Hin as [Hin|Hin]; [discriminate|].
          apply elem_of_cons in Hin as [Hin|Hin]; [discriminate|].
          apply elem_of_cons in Hin as [Hin|Hin];
            [|by apply elem_of_nil in Hin].
          injection Hin as -> ->. split; [done|by eexists _, _]. }
      apply HfailT. intros file s Hin.
      apply elem_of_cons in Hin as [Hin|Hin]; [discriminate|].
      apply elem_of_cons in Hin as [Hin|Hin]; [discriminate|].
      apply elem_of_cons in Hin as [Hin|Hin]; [discriminate|].
      by apply elem_of_nil in Hin.
Qed.

(* ===================================================================== *)
(** * The accounting of a whole run *)
(* ===================================================================== *)

Lemma processFile_accounts (cfg : Threaded.Config) path z
    (s : Threaded.State) :
  counters (effects (acts (Threaded.processFile cfg path (Some z))) s)
  = account cfg (counters s) (ReachedFile path z).
Proof.
  unfold Threaded.processFile, account. rewrite getFileType_threaded.
  destruct (Threaded.isWithinSizeThreshold cfg z); [|done].
  destruct (Threaded.shouldInclude cfg (getFileType path)); [|done].
  cbn [negb andb].
  by destruct (starts_with_char ch_dot (Path.filename path)
               && negb (Threaded.showHidden cfg)).
Qed.

Lemma processGit_accounts (cfg : Threaded.Config) children
    (s : Threaded.State) :
  counters (effects (flat_map acts (Threaded.processGit cfg children)) s)
  = fold_left (account cfg)
      (match foldM Threaded.gitSizeOfEntry children 0 with
       | inr size => [ReachedGit size]
       | inl _ => []
       end) (counters s).
Proof.
  unfold Threaded.processGit.
  destruct (foldM Threaded.gitSizeOfEntry children 0) as [x|g]; [done|].
  cbn [fold_left account]. by destruct (Threaded.showHidden cfg).
Qed.

Lemma scan_accounts fs (cfg : Threaded.Config) (es : list entry) :
  Forall (fun e => forall path s,
            counters (effects (entry_events fs cfg path e) s)
            = fold_left (account cfg)
                (reached_below (Threaded.shouldExclude fs cfg) path e)
                (counters s)) es ->
  forall dir s,
    counters
      (effects
         (Threaded.scan (Threaded.shouldExclude fs cfg) dir
            (entry_events fs cfg) es) s)
    = fold_left (account cfg)
        (reached (Threaded.shouldExclude fs cfg) dir es) (counters s).
Proof.
  unfold reached.
  induction 1 as [|e es He _ IH]; intros dir s; [done|].
  cbn [Threaded.scan].
  destruct (Threaded.shouldExclude fs cfg (Path.append dir (entry_name e)));
    [apply IH|].
  destruct e; try done; by rewrite effects_app, fold_left_app, IH, He.
Qed.

Lemma entry_accounts fs (cfg : Threaded.Config) (e : entry) :
  forall path s,
    counters (effects (entry_events fs cfg path e) s)
    = fold_left (account cfg)
        (reached_below (Threaded.shouldExclude fs cfg) path e) (counters s).
Proof.
  induction e as [n [z|]|n i children IH|n|n] using entry_nested_ind;
    intros path s; try done.
  - unfold entry_events.
    cbn [Threaded.visitGit Threaded.visitFile Threaded.visitSubDir
         flat_map app reached_below fold_left].
    rewrite !app_nil_r. apply processFile_accounts.
  - unfold entry_events. rewrite visitSubDir_dir.
    cbn [Threaded.visitGit Threaded.visitFile reached_below].
    destruct (String.eqb (Path.filename path) GIT).
    + cbn [flat_map app]. rewrite !app_nil_r. apply processGit_accounts.
    + cbn [flat_map app]. rewrite app_nil_r.
      rewrite (effects_perm _ _
                 (directoryTask_by_entry fs cfg path i children)).
      rewrite counters_effects_claim.
      by apply scan_accounts.
Qed.

(** X25.  Every regular file that a run reaches is accounted for once,
    as its name and the settings say.  On a well-formed tree, every
    complete execution of the multithreaded [analyze], under every
    schedule and from every state of the analyzer, ends with the
    counters obtained by going once over the items reached (the regular
    files of readable size that are not excluded, not below a [.git]
    directory and not listed after an entry whose status query throws,
    at every depth, and the [.git] directories): a file that passes the
    size and type filters and whose name starts with a period adds one
    to [hiddenFiles] and its size to [hiddenSize] and [totalSize] and
    leaves the per-type map and [totalFiles] as they are when hidden
    files are not shown, and is counted under its type like any other
    file when they are shown.  [da.cpp] ends with the same counters on
    a tree on which no query fails and no counter can leave the range
    of [size_t], when the exclusion tests of the two programs agree. *)
Theorem every_reached_file_is_accounted_once :
  forall fs (cfg : Threaded.Config) path ident listing,
    well_formed listing = true ->
    (forall s0 tr s',
       Threaded.analyze_runs fs cfg path ident listing s0 tr s' ->
       counters s'
       = fold_left (account cfg)
           (reached (Threaded.shouldExclude fs cfg) path listing) Da.init)
    /\ (forall s0, exists tr s',
          Threaded.analyze_runs fs cfg path ident listing s0 tr s')
    /\ ((forall p, Da.shouldExclude fs (Da_of_Threaded cfg) p
                   = Threaded.shouldExclude fs cfg p) ->
        forallb clean listing = true ->
        weights listing <= SIZE_MAX ->
        Da.analyze fs (Da_of_Threaded cfg) path listing Da.init
        = inr (fold_left (account cfg)
                 (reached (Threaded.shouldExclude fs cfg) path listing)
                 Da.init)).
Proof.
  intros fs cfg path ident listing Hwf.
  assert (Hruns : forall s0 tr s',
            Threaded.analyze_runs fs cfg path ident listing s0 tr s' ->
            counters s'
            = fold_left (account cfg)
                (reached (Threaded.shouldExclude fs cfg) path listing)
                Da.init).
  { intros s0 tr s' Hrun.
    destruct (analyze_runs_determined _ _ _ _ _ _ _ _ Hwf Hrun) as [_ ->].
    unfold Threaded.processDirectory.
    rewrite (effects_perm _ _
               (directoryTask_by_entry fs cfg path ident listing)).
    rewrite counters_effects_claim.
    change Da.init with (counters Threaded.init).
    apply scan_accounts, Forall_forall. intros e _. apply entry_accounts. }
  assert (Hex : forall s0, exists tr s',
            Threaded.analyze_runs fs cfg path ident listing s0 tr s').
  { intros s0. eexists _, _. apply run_steps. }
  split; [exact Hruns|]. split; [exact Hex|].
  intros Hagree Hc Hmax.
  destruct (Hex Threaded.init) as (tr & s' & Hrun).
  rewrite (Da_analyze_agrees fs cfg Hagree path ident listing
             Threaded.init tr s' Hc Hwf Hmax Hrun).
  f_equal. by apply (Hruns Threaded.init tr).
Qed.

Lemma every_reached_file_is_accounted_once_witness :
  well_formed hidden_at_two_levels = true
  /\ (forall s0 tr s',
        Threaded.analyze_runs no_equivalent
          (Threaded.setThreadCount 4 (threaded_hidden false)) "root" 0
          hidden_at_two_levels s0 tr s' ->
        counters s'
        = {| Da.stats := {[ ".txt" := FileTypeStats.mk 2 507 ]};
             Da.totalFiles := 2; Da.totalSize := 1560;
             Da.hiddenFiles := 4; Da.hiddenSize := 1053 |})
  /\ Da.analyze no_equivalent
       (Da_of_Threaded (Threaded.setThreadCount 4 (threaded_hidden false)))
       "root" hidden_at_two_levels Da.init
     = inr {| Da.stats := {[ ".txt" := FileTypeStats.mk 2 507 ]};
              Da.totalFiles := 2; Da.totalSize := 1560;
              Da.hiddenFiles := 4; Da.hiddenSize := 1053 |}.
Proof.
  destruct (every_reached_file_is_accounted_once no_equivalent
              (Threaded.setThreadCount 4 (threaded_hidden false)) "root" 0
              hidden_at_two_levels eq_refl) as (Hruns & _ & HDa).
  split; [reflexivity|]. split.
  - intros s0 tr s' Hrun. rewrite (Hruns s0 tr s' Hrun).
    vm_compute. reflexivity.
  - rewrite HDa; [vm_compute; reflexivity|reflexivity|reflexivity|].
    vm_compute. discriminate.
Defined.

(* ===================================================================== *)
(** * The hidden file that [da.cpp] does not count *)
(* ===================================================================== *)

(** C8, at the failing input.  The directory [root] holds [gone.txt],
    whose size cannot be read, and then [.env], of 100 bytes, which
    passes the size and type filters and whose name starts with a
    period.  [da.cpp] ends the run with every counter at zero and an
    empty per-type map, whether hidden files are shown or not: the
    error code that the failed [fs::file_size] has set is still set at
    the top of the next iteration, which skips [.env].  When [.env] is
    alone in the directory [da.cpp] counts it as the claim says, and the
    multithreaded program, whose [processFile] has an error code of its
    own, counts it in both directories, in every complete execution and
    with every number of threads. *)
Theorem Da_hidden_file_after_unreadable_size_is_not_counted :
  (Da.isWithinSizeThreshold (da_hidden false) 100 = true
   /\ Da.shouldInclude (da_hidden false) (getFileType "root/.env") = true
   /\ starts_with_char ch_dot (Path.filename "root/.env") = true)
  /\ (forall show,
        Da.analyze no_equivalent (da_hidden show) "root"
          unreadable_then_hidden Da.init = inr Da.init)
  /\ Da.analyze no_equivalent (da_hidden false) "root" env_only Da.init
     = inr {| Da.stats := ∅; Da.totalFiles := 0; Da.totalSize := 100;
              Da.hiddenFiles := 1; Da.hiddenSize := 100 |}
  /\ Da.analyze no_equivalent (da_hidden true) "root" env_only Da.init
     = inr {| Da.stats := {[ "[dotfile]" := FileTypeStats.mk 1 100 ]};
              Da.totalFiles := 1; Da.totalSize := 100;
              Da.hiddenFiles := 0; Da.hiddenSize := 0 |}
  /\ (forall listing,
        listing = unreadable_then_hidden \/ listing = env_only ->
        forall threads s0,
          (exists tr s',
             Threaded.analyze_runs no_equivalent
               (Threaded.setThreadCount threads (threaded_hidden false))
               "root" 0 listing s0 tr s')
          /\ (forall tr s',
                Threaded.analyze_runs no_equivalent
                  (Threaded.setThreadCount threads (threaded_hidden false))
                  "root" 0 listing s0 tr s' ->
                counters s'
                = {| Da.stats := ∅; Da.totalFiles := 0; Da.totalSize := 100;
                     Da.hiddenFiles := 1; Da.hiddenSize := 100 |})
          /\ (forall tr s',
                Threaded.analyze_runs no_equivalent
                  (Threaded.setThreadCount threads (threaded_hidden true))
                  "root" 0 listing s0 tr s' ->
                counters s'
                = {| Da.stats :=
                       {[ "[dotfile]" := FileTypeStats.mk 1 100 ]};
                     Da.totalFiles := 1; Da.totalSize := 100;
                     Da.hiddenFiles := 0; Da.hiddenSize := 0 |})).
Proof.
  split; [repeat split; vm_compute; reflexivity|].
  split; [intros [|]; vm_compute; reflexivity|].
  split; [vm_compute; reflexivity|].
  split; [vm_compute; reflexivity|].
  intros listing Hl threads s0.
  assert (Hwf : well_formed listing = true)
    by (destruct Hl as [->| ->]; reflexivity).
  split; [eexists _, _; apply run_steps|].
  split; intros tr s' Hrun;
    destruct (analyze_runs_determined _ _ _ _ _ _ _ _ Hwf Hrun) as [_ ->];
    rewrite acts_processDirectory_threads;
    destruct Hl as [->| ->]; vm_compute; reflexivity.
Qed.
